(** * CPU performance predictor: matrix engine, regression solver and metrics

    A shallow embedding of [Matrix.cpp], [LinearRegression.cpp], the numeric
    part of [Evaluator.cpp], the data accessors of [DataPoint.cpp] /
    [Dataset.cpp] and the file reader of [Dataset.cpp], followed by the
    properties proved about them.

    Conventions of the embedding.
    - C++ exceptions are values of [exn]; a computation that may throw
      returns a [Result].
    - [double] is an abstract carrier [D] with the operations the program
      uses ([Double D]).  Two carriers are provided: [Float64], the IEEE-754
      binary64 numbers of the kernel, on which the program can be run, and
      [ExactQ], reduced rationals.  Every theorem is stated for an
      arbitrary carrier; the facts about arithmetic a proof relies on are
      listed as explicit hypotheses, and each of them is proved for
      [Float64] from the kernel's specification of the float operations.
    - [size_t] values that only index containers are [nat]; where the
      program mixes [int] and [size_t] arithmetic ([crossValidate]) the
      numbers are [Z] and the conversion to 64 bits is written out.
    - Where a property is about what a call does to its receiver
      ([determinant]), the matrices alive are kept in a store and the
      member functions act on the object at an address.
    - A [std::string] that is taken apart is the list of its characters;
      the files that can be opened are a partial function from names to
      contents.
    - Text written to [std::cout] / [std::cerr] is not modelled. *)

From Stdlib Require Import ZArith List Bool Lia QArith Qabs Qreduction Floats.
From Stdlib Require String DecimalString DecimalPos.
Import ListNotations.
Import String.StringSyntax Ascii.AsciiSyntax.
Delimit Scope string_scope with string.
Delimit Scope char_scope with char.

Set Implicit Arguments.
Local Open Scope nat_scope.

(** * Exceptions *)

(** One constructor per [throw] of the sources (the C++ exception class and
    the place are given), plus the one undefined operation the sources can
    reach. *)
Inductive exn : Type :=
| IndexOutOfRange      (* std::out_of_range: Matrix and Dataset accessors, row helpers *)
| DimensionMismatch    (* std::invalid_argument: Matrix operator+, operator-, operator* *)
| NotSquare            (* std::invalid_argument: Matrix::inverse, Matrix::determinant *)
| Singular             (* std::runtime_error: Matrix::inverse *)
| NotTrained           (* std::runtime_error: prediction and scoring *)
| InvalidFeatureCount  (* std::invalid_argument: predict(vector) *)
| TooManyFolds         (* std::invalid_argument: crossValidate *)
| InvalidVectors       (* std::invalid_argument: Evaluator metrics *)
| DivisionByZero.      (* size_t division by zero in crossValidate: undefined behaviour *)

Inductive Result (A : Type) : Type :=
| Ok (a : A)
| Err (e : exn).
Arguments Ok {A} a.
Arguments Err {A} e.

Definition bind {A B : Type} (r : Result A) (k : A -> Result B) : Result B :=
  match r with
  | Ok a => k a
  | Err e => Err e
  end.

Declare Scope result_scope.
Delimit Scope result_scope with result.
Notation "x <- e ;; k" := (bind e (fun x => k))
  (at level 61, e at next level, right associativity) : result_scope.
Local Open Scope result_scope.

(** [for (i ...) body] over the listed indices, stopping at the first
    exception. *)
Fixpoint forM {S : Type} (l : list nat) (body : nat -> S -> Result S) (s : S)
  : Result S :=
  match l with
  | [] => Ok s
  | i :: l' => s' <- body i s ;; forM l' body s'
  end.

(** A loop whose body may leave the function with [return r]. *)
Inductive flow (S R : Type) : Type :=
| Continue (s : S)
| Return (r : R).
Arguments Continue {S R} s.
Arguments Return {S R} r.

Fixpoint forReturn {S R : Type} (l : list nat)
    (body : nat -> S -> Result (flow S R)) (s : S) : Result (flow S R) :=
  match l with
  | [] => Ok (Continue s)
  | i :: l' =>
      f <- body i s ;;
      match f with
      | Continue s' => forReturn l' body s'
      | Return r => Ok (Return r)
      end
  end.

(** [v[n] = x] on a [std::vector]; the sources only index inside the bounds. *)
Fixpoint upd {A : Type} (n : nat) (x : A) (l : list A) : list A :=
  match l, n with
  | [], _ => []
  | _ :: t, O => x :: t
  | h :: t, S n' => h :: upd n' x t
  end.

(** [v.resize(n, x)] on a [std::vector]: the first [n] elements when there
    are that many, the vector followed by copies of [x] otherwise. *)
Definition vector_resize {A : Type} (n : nat) (x : A) (l : list A) : list A :=
  firstn n l ++ repeat x (n - length l).

(** * The numbers *)

Class Double (D : Type) : Type := {
  d0 : D;                    (* the literal 0.0 *)
  d1 : D;                    (* the literal 1.0 *)
  d100 : D;                  (* the literal 100.0 *)
  d1em10 : D;                (* the literal 1e-10 *)
  dadd : D -> D -> D;
  dsub : D -> D -> D;
  dmul : D -> D -> D;
  ddiv : D -> D -> D;
  dopp : D -> D;             (* unary minus *)
  dabs : D -> D;             (* std::abs *)
  dsqrt : D -> D;            (* std::sqrt *)
  dltb : D -> D -> bool;     (* a < b; a > b is dltb b a *)
  deqb : D -> D -> bool;     (* a == b; a != b is its negation *)
  of_int : Z -> D;           (* static_cast<double>(int) *)
  of_size : nat -> D         (* size_t converted to double *)
}.

(** IEEE-754 binary64. *)
Definition float_of_Z (z : Z) : float :=
  if (z <? 0)%Z then PrimFloat.opp (PrimFloat.of_uint63 (Uint63.of_Z (- z)))
  else PrimFloat.of_uint63 (Uint63.of_Z z).

#[export] Instance Float64 : Double float := {|
  d0 := 0%float;
  d1 := 1%float;
  d100 := 100%float;
  d1em10 := 0x1.b7cdfd9d7bdbbp-34%float;
  dadd := PrimFloat.add;
  dsub := PrimFloat.sub;
  dmul := PrimFloat.mul;
  ddiv := PrimFloat.div;
  dopp := PrimFloat.opp;
  dabs := PrimFloat.abs;
  dsqrt := PrimFloat.sqrt;
  dltb := PrimFloat.ltb;
  deqb := PrimFloat.eqb;
  of_int := float_of_Z;
  of_size := fun n => float_of_Z (Z.of_nat n)
|}.

(** Two classes of binary64 values, read off the kernel's decoding of a
    float.  Not below zero: a zero of either sign, a positive number,
    [+infinity] or a NaN. *)
Definition signless (f : spec_float) : bool :=
  match f with
  | S754_zero _ => true
  | S754_infinity s => negb s
  | S754_nan => true
  | S754_finite s _ _ => negb s
  end.

(** The same, without [-0.0]. *)
Definition positive_sign (f : spec_float) : bool :=
  match f with
  | S754_zero s => negb s
  | S754_infinity s => negb s
  | S754_nan => true
  | S754_finite s _ _ => negb s
  end.

(** A number other than zero: finite and not zero, or an infinity. *)
Definition nonzero_number (f : spec_float) : bool :=
  match f with
  | S754_finite _ _ _ | S754_infinity _ => true
  | _ => false
  end.

(** Not a NaN. *)
Definition number (f : spec_float) : bool :=
  match f with S754_nan => false | _ => true end.

(** A zero or a finite number: neither an infinity nor a NaN. *)
Definition finite_number (f : spec_float) : bool :=
  match f with S754_zero _ | S754_finite _ _ _ => true | _ => false end.

(** A number that is not below zero. *)
Definition nonneg_number (f : spec_float) : bool :=
  match f with
  | S754_zero _ => true
  | S754_infinity s | S754_finite s _ _ => negb s
  | S754_nan => false
  end.

(** Exact rational arithmetic, every result in lowest terms; the square root
    is the rational [floor (sqrt (p * q)) / q] for the argument [p / q]. *)
Definition Qltb (x y : Q) : bool := negb (Qle_bool y x).
Definition Qsqrt_lo (x : Q) : Q :=
  Qred (Z.sqrt (Qnum x * Zpos (Qden x)) # Qden x).

#[export] Instance ExactQ : Double Q := {|
  d0 := 0%Q;
  d1 := 1%Q;
  d100 := 100%Q;
  d1em10 := (1 # 10000000000)%Q;
  dadd := fun x y => Qred (x + y);
  dsub := fun x y => Qred (x - y);
  dmul := fun x y => Qred (x * y);
  ddiv := fun x y => Qred (x / y);
  dopp := fun x => Qred (- x);
  dabs := fun x => Qred (Qabs x);
  dsqrt := Qsqrt_lo;
  dltb := Qltb;
  deqb := Qeq_bool;
  of_int := fun z => (z # 1)%Q;
  of_size := fun n => (Z.of_nat n # 1)%Q
|}.

(** * Matrix.cpp *)

Module Matrix.
Section Ops.
Context {D : Type} {DA : Double D}.

(** [class Matrix]: the row storage and the two stored dimensions. *)
Record t : Type := mk { data : list (list D); rows : nat; cols : nat }.

(** Every row has [cols] elements and there are [rows] rows: what the
    constructors [Matrix(rows, cols)] and [resize] establish. *)
Definition wf (m : t) : Prop :=
  length (data m) = rows m /\ Forall (fun r => length r = cols m) (data m).

(** [Matrix(rows, cols)]: zero filled. *)
Definition new (r c : nat) : t := mk (repeat (repeat d0 c) r) r c.

(** [Matrix(const vector<vector<double>>&)]. *)
Definition of_rows (l : list (list D)) : t :=
  mk l (length l) (match l with [] => 0 | r :: _ => length r end).

Definition isSquare (m : t) : bool := rows m =? cols m.

(** The unchecked [data[r][c]]. *)
Definition cell (m : t) (r c : nat) : D := nth c (nth r (data m) []) d0.

(** [operator()(row, col) const]. *)
Definition get (m : t) (r c : nat) : Result D :=
  if (rows m <=? r) || (cols m <=? c) then Err IndexOutOfRange
  else Ok (cell m r c).

(** An assignment through [operator()(row, col)]. *)
Definition set (m : t) (r c : nat) (v : D) : Result t :=
  if (rows m <=? r) || (cols m <=? c) then Err IndexOutOfRange
  else Ok (mk (upd r (upd c v (nth r (data m) [])) (data m)) (rows m) (cols m)).

(** An assignment to the unchecked [data[r][c]]. *)
Definition poke (m : t) (r c : nat) (v : D) : t :=
  mk (upd r (upd c v (nth r (data m) [])) (data m)) (rows m) (cols m).

(** [operator+]. *)
Definition add (a b : t) : Result t :=
  if negb (rows a =? rows b) || negb (cols a =? cols b) then Err DimensionMismatch
  else
    forM (seq 0 (rows a)) (fun i result =>
      forM (seq 0 (cols a)) (fun j result =>
        o <- get b i j ;;
        set result i j (dadd (cell a i j) o)) result)
      (new (rows a) (cols a)).

(** [operator-]. *)
Definition sub (a b : t) : Result t :=
  if negb (rows a =? rows b) || negb (cols a =? cols b) then Err DimensionMismatch
  else
    forM (seq 0 (rows a)) (fun i result =>
      forM (seq 0 (cols a)) (fun j result =>
        o <- get b i j ;;
        set result i j (dsub (cell a i j) o)) result)
      (new (rows a) (cols a)).

(** [operator*(const Matrix&)]. *)
Definition mul (a b : t) : Result t :=
  if negb (cols a =? rows b) then Err DimensionMismatch
  else
    forM (seq 0 (rows a)) (fun i result =>
      forM (seq 0 (cols b)) (fun j result =>
        sum <- forM (seq 0 (cols a)) (fun k sum =>
                 o <- get b k j ;;
                 Ok (dadd sum (dmul (cell a i k) o))) d0 ;;
        set result i j sum) result)
      (new (rows a) (cols b)).

(** [operator*(double)]. *)
Definition scale (a : t) (scalar : D) : Result t :=
  forM (seq 0 (rows a)) (fun i result =>
    forM (seq 0 (cols a)) (fun j result =>
      set result i j (dmul (cell a i j) scalar)) result)
    (new (rows a) (cols a)).

(** [transpose]. *)
Definition transpose (a : t) : Result t :=
  forM (seq 0 (rows a)) (fun i result =>
    forM (seq 0 (cols a)) (fun j result =>
      set result j i (cell a i j)) result)
    (new (cols a) (rows a)).

(** [identity]. *)
Definition identity (size : nat) : Result t :=
  forM (seq 0 size) (fun i result => set result i i d1) (new size size).

(** [zeros]. *)
Definition zeros (r c : nat) : t := new r c.

(** [swapRows]: [std::swap(data[row1], data[row2])]. *)
Definition swapRows (m : t) (row1 row2 : nat) : Result t :=
  if (rows m <=? row1) || (rows m <=? row2) then Err IndexOutOfRange
  else
    let r1 := nth row1 (data m) [] in
    let r2 := nth row2 (data m) [] in
    Ok (mk (upd row2 r1 (upd row1 r2 (data m))) (rows m) (cols m)).

(** [multiplyRow]. *)
Definition multiplyRow (m : t) (row : nat) (factor : D) : Result t :=
  if rows m <=? row then Err IndexOutOfRange
  else
    Ok (fold_left (fun m j => poke m row j (dmul (cell m row j) factor))
                  (seq 0 (cols m)) m).

(** [addRowMultiple]. *)
Definition addRowMultiple (m : t) (sourceRow targetRow : nat) (factor : D)
  : Result t :=
  if (rows m <=? sourceRow) || (rows m <=? targetRow) then Err IndexOutOfRange
  else
    Ok (fold_left
          (fun m j => poke m targetRow j
                        (dadd (cell m targetRow j) (dmul factor (cell m sourceRow j))))
          (seq 0 (cols m)) m).

Definition EPSILON : D := d1em10.

(** The augmented matrix [[A|I]] of [inverse]. *)
Definition augment (m : t) : Result t :=
  let n := rows m in
  forM (seq 0 n) (fun i augmented =>
    augmented <- forM (seq 0 n) (fun j augmented =>
                   set augmented i j (cell m i j)) augmented ;;
    set augmented i (i + n) d1)
    (new n (2 * n)).

(** The pivot search shared by [inverse] and [determinant]: starting from
    [maxRow = i], every later row with a strictly larger magnitude in
    column [i] replaces it. *)
Definition findPivot (a : t) (n i : nat) : Result nat :=
  forM (seq (i + 1) (n - (i + 1))) (fun k maxRow =>
    x <- get a k i ;;
    y <- get a maxRow i ;;
    Ok (if dltb (dabs y) (dabs x) then k else maxRow)) i.

(** The body of the elimination loop of [inverse] for pivot column [i]. *)
Definition pivotStep (n i : nat) (augmented : t) : Result t :=
  maxRow <- findPivot augmented n i ;;
  p <- get augmented maxRow i ;;
  if dltb (dabs p) EPSILON then Err Singular
  else
    augmented <- (if negb (maxRow =? i) then swapRows augmented i maxRow
                  else Ok augmented) ;;
    pivot <- get augmented i i ;;
    augmented <- multiplyRow augmented i (ddiv d1 pivot) ;;
    forM (seq 0 n) (fun k augmented =>
      if negb (k =? i) then
        factor <- get augmented k i ;;
        addRowMultiple augmented i k (dopp factor)
      else Ok augmented) augmented.

(** The right half of the augmented matrix. *)
Definition extract (n : nat) (augmented : t) : Result t :=
  forM (seq 0 n) (fun i result =>
    forM (seq 0 n) (fun j result =>
      v <- get augmented i (j + n) ;;
      set result i j v) result)
    (new n n).

(** [inverse]. *)
Definition inverse (m : t) : Result t :=
  if negb (isSquare m) then Err NotSquare
  else
    let n := rows m in
    augmented <- augment m ;;
    augmented <- forM (seq 0 n) (pivotStep n) augmented ;;
    extract n augmented.

(** The body of the elimination loop of [determinant] for column [i], on
    the scratch copy [temp] and the running product [det]; [Return] is the
    early [return 0.0]. *)
Definition detStep (n i : nat) (st : t * D) : Result (flow (t * D) D) :=
  let '(temp, det) := st in
  maxRow <- findPivot temp n i ;;
  p <- get temp maxRow i ;;
  if dltb (dabs p) EPSILON then Ok (Return d0)
  else
    st <- (if negb (maxRow =? i) then
             temp <- swapRows temp i maxRow ;;
             Ok (temp, dmul det (dopp d1))
           else Ok (temp, det)) ;;
    let '(temp, det) := st in
    pivot <- get temp i i ;;
    let det := dmul det pivot in
    temp <- forM (seq (i + 1) (n - (i + 1))) (fun k temp =>
              x <- get temp k i ;;
              y <- get temp i i ;;
              addRowMultiple temp i k (dopp (ddiv x y))) temp ;;
    Ok (Continue (temp, det)).

(** [determinant]. *)
Definition determinant (m : t) : Result D :=
  if negb (isSquare m) then Err NotSquare
  else if rows m =? 1 then Ok (cell m 0 0)
  else if rows m =? 2 then
    Ok (dsub (dmul (cell m 0 0) (cell m 1 1)) (dmul (cell m 0 1) (cell m 1 0)))
  else
    f <- forReturn (seq 0 (rows m)) (detStep (rows m)) (m, d1) ;;
    match f with
    | Continue (_, det) => Ok det
    | Return r => Ok r
    end.

(** [Matrix()]. *)
Definition default : t := mk [] 0 0.

(** [operator[](row)]. *)
Definition rowAt (m : t) (row : nat) : Result (list D) :=
  if rows m <=? row then Err IndexOutOfRange
  else Ok (nth row (data m) []).

(** [setElement]. *)
Definition setElement (m : t) (row col : nat) (value : D) : Result t :=
  if (rows m <=? row) || (cols m <=? col) then Err IndexOutOfRange
  else Ok (mk (upd row (upd col value (nth row (data m) [])) (data m))
              (rows m) (cols m)).

(** [resize]: the two stored dimensions are replaced, the row storage is
    resized to [newRows] rows (new rows start empty) and then every row to
    [newCols] entries, new entries being [0.0]. *)
Definition resize (m : t) (newRows newCols : nat) : t :=
  mk (map (vector_resize newCols d0) (vector_resize newRows [] (data m)))
     newRows newCols.

(** ** The objects of a call of [determinant]

    [determinant] is a [const] member function: it copies the receiver
    into the local object [temp], and the member functions that change
    their object, [swapRows] and [addRowMultiple], are called on [temp].
    To say what a call does to the receiver, the matrices alive are kept
    in a store, by address; a member function that changes its object
    replaces the matrix at the address of that object, whichever it is. *)
Definition store : Type := list t.

Definition load (h : store) (p : nat) : t := nth p h default.

(** Computations on the store that may throw; the store is then as the
    exception finds it. *)
Definition Op (A : Type) : Type := store -> Result A * store.

Definition ret {A : Type} (a : A) : Op A := fun h => (Ok a, h).

Definition obind {A B : Type} (m : Op A) (k : A -> Op B) : Op B :=
  fun h =>
    match m h with
    | (Ok a, h') => k a h'
    | (Err e, h') => (Err e, h')
    end.

Notation "x <~ e ;; k" := (obind e (fun x => k))
  (at level 61, e at next level, right associativity).

(** A [const] member function called on the object at [p]. *)
Definition query {A : Type} (p : nat) (f : t -> Result A) : Op A :=
  fun h => (f (load h p), h).

(** A member function that changes the object at [p]; the two that are
    called here check their arguments before they change anything. *)
Definition mutate (p : nat) (f : t -> Result t) : Op unit :=
  fun h =>
    match f (load h p) with
    | Ok m => (Ok tt, upd p m h)
    | Err e => (Err e, h)
    end.

(** [Matrix temp(m)]: a new object, at an address of its own. *)
Definition construct (m : t) : Op nat :=
  fun h => (Ok (length h), h ++ [m]).

(** The end of the life of the latest local object. *)
Definition destroy (h : store) : store := removelast h.

Fixpoint forOp (l : list nat) (body : nat -> Op unit) : Op unit :=
  match l with
  | [] => ret tt
  | i :: l' => _ <~ body i ;; forOp l' body
  end.

(** The body of the elimination loop of [determinant], [temp] being the
    address of the scratch copy. *)
Definition detStepAt (n i temp : nat) (det : D) : Op (flow D D) :=
  maxRow <~ query temp (fun a => findPivot a n i) ;;
  p <~ query temp (fun a => get a maxRow i) ;;
  if dltb (dabs p) EPSILON then ret (Return d0)
  else
    det <~ (if negb (maxRow =? i) then
              _ <~ mutate temp (fun a => swapRows a i maxRow) ;;
              ret (dmul det (dopp d1))
            else ret det) ;;
    pivot <~ query temp (fun a => get a i i) ;;
    let det := dmul det pivot in
    _ <~ forOp (seq (i + 1) (n - (i + 1))) (fun k =>
           x <~ query temp (fun a => get a k i) ;;
           y <~ query temp (fun a => get a i i) ;;
           mutate temp (fun a => addRowMultiple a i k (dopp (ddiv x y)))) ;;
    ret (Continue det).

Fixpoint detLoopAt (n temp : nat) (l : list nat) (det : D) : Op D :=
  match l with
  | [] => ret det
  | i :: l' =>
      f <~ detStepAt n i temp det ;;
      match f with
      | Continue det => detLoopAt n temp l' det
      | Return r => ret r
      end
  end.

(** [determinant] called on the object at [this]: the value or the
    exception, and the store the call leaves.  The local [temp] ends its
    life when the call is left, by a [return] or by an exception. *)
Definition determinantAt (this : nat) : Op D :=
  fun h =>
    let m := load h this in
    if negb (isSquare m) then (Err NotSquare, h)
    else if rows m =? 1 then (Ok (cell m 0 0), h)
    else if rows m =? 2 then
      (Ok (dsub (dmul (cell m 0 0) (cell m 1 1)) (dmul (cell m 0 1) (cell m 1 0))),
       h)
    else
      let '(r, h') :=
        (temp <~ construct m ;; detLoopAt (rows m) temp (seq 0 (rows m)) d1) h in
      (r, destroy h').

End Ops.
Arguments t : clear implicits.
Arguments store : clear implicits.
Arguments Op : clear implicits.
End Matrix.

(** * DataPoint.cpp *)

Module DataPoint.

(** The fields are C++ [int]s; no arithmetic is done on them. *)
Record t : Type := mk {
  vendor : String.string;
  model : String.string;
  myct : Z;
  mmin : Z;
  mmax : Z;
  cach : Z;
  chmin : Z;
  chmax : Z;
  prp : Z;
  erp : Z
}.

(** The default constructor. *)
Definition default : t :=
  mk String.EmptyString String.EmptyString 0 0 0 0 0 0 0 0.

Section Ops.
Context {D : Type} {DA : Double D}.

Definition getFeatureVector (p : t) : list D :=
  [of_int (myct p); of_int (mmin p); of_int (mmax p);
   of_int (cach p); of_int (chmin p); of_int (chmax p)].

Definition getTarget (p : t) : D := of_int (prp p).

End Ops.
End DataPoint.

(** * Dataset.cpp *)

Module Dataset.

(** The [std::vector<DataPoint>]; the generator used by [shuffle] plays no
    part in what follows. *)
Definition t : Type := list DataPoint.t.

Definition size (d : t) : nat := length d.

Definition empty (d : t) : bool :=
  match d with
  | [] => true
  | _ :: _ => false
  end.

(** [operator[]]. *)
Definition at_ (d : t) (index : nat) : Result DataPoint.t :=
  match nth_error d index with
  | Some p => Ok p
  | None => Err IndexOutOfRange
  end.

Definition addDataPoint (d : t) (point : DataPoint.t) : t := d ++ [point].

(** [clear]. *)
Definition clear (d : t) : t := [].

Section Ops.
Context {D : Type} {DA : Double D}.

(** [getMatrices]: the two output vectors are cleared and filled, one row
    of features and one target per example. *)
Definition getMatrices (d : t) : list (list D) * list D :=
  fold_left
    (fun Xy point =>
       let '(X, y) := Xy in
       (X ++ [DataPoint.getFeatureVector point], y ++ [DataPoint.getTarget point]))
    d ([], []).

End Ops.

(** ** Reading a file *)

(** A [std::string] is the list of its characters. *)
Definition str : Type := list Ascii.ascii.

(** The exceptions of the standard library that reading can meet. *)
Inductive parse_exn : Type :=
| SubstrOutOfRange      (* std::out_of_range: std::string::substr *)
| StoiInvalidArgument   (* std::invalid_argument: std::stoi, no digits *)
| StoiOutOfRange.       (* std::out_of_range: std::stoi, not an int *)

Inductive Outcome (A : Type) : Type :=
| Value (a : A)
| Throws (e : parse_exn).
Arguments Value {A} a.
Arguments Throws {A} e.

Definition andThen {A B : Type} (r : Outcome A) (k : A -> Outcome B)
  : Outcome B :=
  match r with
  | Value a => k a
  | Throws e => Throws e
  end.

Definition member (c : Ascii.ascii) (chars : str) : bool :=
  existsb (Ascii.eqb c) chars.

(** [s.find_first_not_of(chars)]; [None] is [npos]. *)
Fixpoint find_first_not_of (chars s : str) : option nat :=
  match s with
  | [] => None
  | c :: s' =>
      if member c chars then option_map S (find_first_not_of chars s')
      else Some 0
  end.

(** [s.find_last_not_of(chars)]; [None] is [npos]. *)
Fixpoint find_last_not_of (chars s : str) : option nat :=
  match s with
  | [] => None
  | c :: s' =>
      match find_last_not_of chars s' with
      | Some i => Some (S i)
      | None => if member c chars then None else Some 0
      end
  end.

(** [s.substr(pos, len)]: at most [len] characters from [pos] on. *)
Definition substr (s : str) (pos len : nat) : Outcome str :=
  if length s <? pos then Throws SubstrOutOfRange
  else Value (firstn len (skipn pos s)).

(** The characters of [" \t\r\n"]. *)
Definition whitespace : str := [" "; "009"; "013"; "010"]%char.

(** [trim].  Were the second search to find nothing, [end - start + 1]
    would wrap around to a count larger than any string, and [substr]
    would return everything from [start] on.  When both searches succeed
    [end] is not before [start] ([trim_cases]), so that the difference of
    the two positions is the one of the natural numbers. *)
Definition trim (s : str) : Outcome str :=
  match find_first_not_of whitespace s with
  | None => Value []
  | Some start =>
      match find_last_not_of whitespace s with
      | Some end_ => substr s start (end_ - start + 1)
      | None => substr s start (length s)
      end
  end.

(** What [std::getline(in, token, delim)] takes from the unread input: the
    characters before the first [delim], which is taken too and dropped,
    and what is left for the next call. *)
Fixpoint upTo (delim : Ascii.ascii) (input : str) : str * str :=
  match input with
  | [] => ([], [])
  | c :: rest =>
      if Ascii.eqb c delim then ([], rest)
      else let '(token, unread) := upTo delim rest in (c :: token, unread)
  end.

(** One call of [std::getline]: it fails when there is no character to
    take. *)
Definition getline (delim : Ascii.ascii) (input : str) : option (str * str) :=
  match input with
  | [] => None
  | _ :: _ => Some (upTo delim input)
  end.

(** [while (std::getline(in, token, delim)) tokens.push_back(token);] with
    a bound on the number of rounds. *)
Fixpoint readAll (rounds : nat) (delim : Ascii.ascii) (input : str)
  : list str :=
  match rounds with
  | O => []
  | S rounds' =>
      match getline delim input with
      | None => []
      | Some (token, unread) => token :: readAll rounds' delim unread
      end
  end.

(** A successful call takes a character, so the loop makes no more rounds
    than the input has characters. *)
Definition getlines (delim : Ascii.ascii) (input : str) : list str :=
  readAll (length input) delim input.

(** [parseLine]. *)
Definition parseLine (line : str) : list str := getlines ","%char line.

(** [std::isspace] in the C locale. *)
Definition isspace (c : Ascii.ascii) : bool :=
  member c [" "; "009"; "010"; "011"; "012"; "013"]%char.

Definition digit (c : Ascii.ascii) : option Z :=
  let n := Z.of_nat (Ascii.nat_of_ascii c) in
  if (48 <=? n)%Z && (n <=? 57)%Z then Some (n - 48)%Z else None.

Fixpoint skipSpaces (s : str) : str :=
  match s with
  | [] => []
  | c :: s' => if isspace c then skipSpaces s' else s
  end.

(** The value of the longest run of decimal digits at the front of [s],
    [None] when it is empty. *)
Fixpoint digits (s : str) (value : Z) (any : bool) : option Z :=
  match s with
  | [] => if any then Some value else None
  | c :: s' =>
      match digit c with
      | Some d => digits s' (10 * value + d)%Z true
      | None => if any then Some value else None
      end
  end.

Definition INT_MIN : Z := (- 2 ^ 31)%Z.
Definition INT_MAX : Z := (2 ^ 31 - 1)%Z.

(** [std::stoi(s)]: white space, an optional sign, decimal digits; what
    follows the digits is ignored. *)
Definition stoi (s : str) : Outcome Z :=
  let s1 := skipSpaces s in
  let '(negative, s2) :=
    match s1 with
    | c :: s' =>
        if Ascii.eqb c "-"%char then (true, s')
        else if Ascii.eqb c "+"%char then (false, s')
        else (false, s1)
    | [] => (false, s1)
    end in
  match digits s2 0%Z false with
  | None => Throws StoiInvalidArgument
  | Some n =>
      let v := if negative then (- n)%Z else n in
      if (v <? INT_MIN)%Z || (INT_MAX <? v)%Z then Throws StoiOutOfRange
      else Value v
  end.

(** The [try] block of [loadFromFile]. *)
Definition parsePoint (tokens : list str) : Outcome DataPoint.t :=
  andThen (trim (nth 0 tokens [])) (fun vendor =>
  andThen (trim (nth 1 tokens [])) (fun model =>
  andThen (stoi (nth 2 tokens [])) (fun myct =>
  andThen (stoi (nth 3 tokens [])) (fun mmin =>
  andThen (stoi (nth 4 tokens [])) (fun mmax =>
  andThen (stoi (nth 5 tokens [])) (fun cach =>
  andThen (stoi (nth 6 tokens [])) (fun chmin =>
  andThen (stoi (nth 7 tokens [])) (fun chmax =>
  andThen (stoi (nth 8 tokens [])) (fun prp =>
  andThen (stoi (nth 9 tokens [])) (fun erp =>
  Value (DataPoint.mk (String.string_of_list_ascii vendor)
           (String.string_of_list_ascii model)
           myct mmin mmax cach chmin chmax prp erp))))))))))).

(** The body of the reading loop. *)
Definition readLine (line : str) (data : t) : Outcome t :=
  andThen (trim line) (fun line =>
  match line with
  | [] => Value data
  | _ :: _ =>
      let tokens := parseLine line in
      if negb (length tokens =? 10) then Value data
      else
        match parsePoint tokens with
        | Value point => Value (data ++ [point])
        | Throws _ => Value data
        end
  end).

Fixpoint readLines (lines : list str) (data : t) : Outcome unit * t :=
  match lines with
  | [] => (Value tt, data)
  | line :: rest =>
      match readLine line data with
      | Value data' => readLines rest data'
      | Throws e => (Throws e, data)
      end
  end.

(** [loadFromFile]: [files] gives the content of the files that can be
    opened. *)
Definition loadFromFile (files : str -> option str) (filename : str)
    (data : t) : Outcome bool * t :=
  match files filename with
  | None => (Value false, data)
  | Some content =>
      match readLines (getlines "010"%char content) [] with
      | (Value _, data') => (Value (negb (empty data')), data')
      | (Throws e, data') => (Throws e, data')
      end
  end.

End Dataset.

(** * LinearRegression.cpp *)

Module LinearRegression.
Section Ops.
Context {D : Type} {DA : Double D}.

Record t : Type := mk {
  coefficients : list D;
  isTrained : bool;
  trainRMSE : D;
  testRMSE : D;
  rSquared : D
}.

(** The constructor. *)
Definition new : t := mk (repeat d0 6) false d0 d0 d0.

Definition set_coefficients (c : list D) (s : t) : t :=
  mk c (isTrained s) (trainRMSE s) (testRMSE s) (rSquared s).
Definition set_isTrained (b : bool) (s : t) : t :=
  mk (coefficients s) b (trainRMSE s) (testRMSE s) (rSquared s).
Definition set_trainRMSE (r : D) (s : t) : t :=
  mk (coefficients s) (isTrained s) r (testRMSE s) (rSquared s).

(** ** The [const] members *)

(** The accumulation loop of [predict]. *)
Definition predictionLoop (this : t) (features : list D) : D :=
  fold_left
    (fun prediction i =>
       dadd prediction (dmul (nth i (coefficients this) d0) (nth i features d0)))
    (seq 0 6) d0.

(** [predict(const std::vector<double>&)]. *)
Definition predict (this : t) (features : list D) : Result D :=
  if negb (isTrained this) then Err NotTrained
  else if negb (length features =? 6) then Err InvalidFeatureCount
  else Ok (predictionLoop this features).

(** [predict(const DataPoint&)]. *)
Definition predictPoint (this : t) (point : DataPoint.t) : Result D :=
  if negb (isTrained this) then Err NotTrained
  else predict this (DataPoint.getFeatureVector point).

(** [predict(const Dataset&)]. *)
Definition predictAll (this : t) (testData : Dataset.t) : Result (list D) :=
  forM (seq 0 (Dataset.size testData)) (fun i predictions =>
    p <- Dataset.at_ testData i ;;
    v <- predictPoint this p ;;
    Ok (predictions ++ [v])) [].

(** The summation loop of [calculateRMSE] and [calculateMSE]. *)
Definition sumSquaredErrors (this : t) (testData : Dataset.t) : Result D :=
  forM (seq 0 (Dataset.size testData)) (fun i sum =>
    p <- Dataset.at_ testData i ;;
    prediction <- predictPoint this p ;;
    q <- Dataset.at_ testData i ;;
    let actual := DataPoint.getTarget q in
    let error := dsub prediction actual in
    Ok (dadd sum (dmul error error))) d0.

Definition calculateRMSE (this : t) (testData : Dataset.t) : Result D :=
  if negb (isTrained this) then Err NotTrained
  else
    sum <- sumSquaredErrors this testData ;;
    Ok (dsqrt (ddiv sum (of_size (Dataset.size testData)))).

Definition calculateMSE (this : t) (testData : Dataset.t) : Result D :=
  if negb (isTrained this) then Err NotTrained
  else
    sum <- sumSquaredErrors this testData ;;
    Ok (ddiv sum (of_size (Dataset.size testData))).

Definition calculateMAE (this : t) (testData : Dataset.t) : Result D :=
  if negb (isTrained this) then Err NotTrained
  else
    sum <- forM (seq 0 (Dataset.size testData)) (fun i sum =>
             p <- Dataset.at_ testData i ;;
             prediction <- predictPoint this p ;;
             q <- Dataset.at_ testData i ;;
             let actual := DataPoint.getTarget q in
             Ok (dadd sum (dabs (dsub prediction actual)))) d0 ;;
    Ok (ddiv sum (of_size (Dataset.size testData))).

Definition calculateRSquared (this : t) (testData : Dataset.t) : Result D :=
  if negb (isTrained this) then Err NotTrained
  else
    let n := Dataset.size testData in
    meanActual <- forM (seq 0 n) (fun i meanActual =>
                    p <- Dataset.at_ testData i ;;
                    Ok (dadd meanActual (DataPoint.getTarget p))) d0 ;;
    let meanActual := ddiv meanActual (of_size n) in
    sums <- forM (seq 0 n) (fun i sums =>
              let '(totalSumSquares, residualSumSquares) := sums in
              p <- Dataset.at_ testData i ;;
              let actual := DataPoint.getTarget p in
              q <- Dataset.at_ testData i ;;
              prediction <- predictPoint this q ;;
              Ok (dadd totalSumSquares
                       (dmul (dsub actual meanActual) (dsub actual meanActual)),
                  dadd residualSumSquares
                       (dmul (dsub actual prediction) (dsub actual prediction))))
            (d0, d0) ;;
    let '(totalSumSquares, residualSumSquares) := sums in
    if deqb totalSumSquares d0 then Ok d1
    else Ok (dsub d1 (ddiv residualSumSquares totalSumSquares)).

(** [createDesignMatrix]. *)
Definition createDesignMatrix (data : Dataset.t) : Result (Matrix.t D) :=
  let n := Dataset.size data in
  forM (seq 0 n) (fun i X =>
    p <- Dataset.at_ data i ;;
    let features := DataPoint.getFeatureVector p in
    forM (seq 0 6) (fun j X => Matrix.set X i j (nth j features d0)) X)
    (Matrix.new n 6).

(** [createTargetVector]. *)
Definition createTargetVector (data : Dataset.t) : Result (list D) :=
  forM (seq 0 (Dataset.size data)) (fun i y =>
    p <- Dataset.at_ data i ;;
    Ok (y ++ [DataPoint.getTarget p])) [].

(** The column matrix built from [y_vec] at the start of both trainings. *)
Definition columnOf (y_vec : list D) : Result (Matrix.t D) :=
  forM (seq 0 (length y_vec)) (fun i y => Matrix.set y i 0 (nth i y_vec d0))
       (Matrix.new (length y_vec) 1).

(** The part of the [try] block of [train] that computes [theta]. *)
Definition normalEquation (trainData : Dataset.t) : Result (Matrix.t D) :=
  X <- createDesignMatrix trainData ;;
  y_vec <- createTargetVector trainData ;;
  y <- columnOf y_vec ;;
  Xt <- Matrix.transpose X ;;
  XtX <- Matrix.mul Xt X ;;
  XtX_inv <- Matrix.inverse XtX ;;
  Xty <- Matrix.mul Xt y ;;
  Matrix.mul XtX_inv Xty.

(** The same part of [trainWithRegularization]. *)
Definition ridgeEquation (trainData : Dataset.t) (lambda : D) : Result (Matrix.t D) :=
  X <- createDesignMatrix trainData ;;
  y_vec <- createTargetVector trainData ;;
  y <- columnOf y_vec ;;
  Xt <- Matrix.transpose X ;;
  XtX <- Matrix.mul Xt X ;;
  I <- Matrix.identity (Matrix.rows XtX) ;;
  Il <- Matrix.scale I lambda ;;
  regularized <- Matrix.add XtX Il ;;
  regularized_inv <- Matrix.inverse regularized ;;
  Xty <- Matrix.mul Xt y ;;
  Matrix.mul regularized_inv Xty.

(** [calculateMean]. *)
Definition calculateMean (values : list D) : D :=
  match values with
  | [] => d0
  | _ :: _ => ddiv (fold_left dadd values d0) (of_size (length values))
  end.

(** ** The members that change the object

    A member that assigns to fields is a function from the object before the
    call to the outcome and the object after it; an exception leaves the
    object as it was when the exception was thrown. *)
Definition M (A : Type) : Type := t -> Result A * t.

Definition ret {A : Type} (a : A) : M A := fun s => (Ok a, s).

Definition mbind {A B : Type} (m : M A) (k : A -> M B) : M B :=
  fun s =>
    match m s with
    | (Ok a, s') => k a s'
    | (Err e, s') => (Err e, s')
    end.

(** A computation that does not touch the object. *)
Definition lift {A : Type} (r : Result A) : M A := fun s => (r, s).

(** A call of a [const] member on the object. *)
Definition read {A : Type} (f : t -> Result A) : M A := fun s => (f s, s).

(** An assignment to a field. *)
Definition modify (f : t -> t) : M unit := fun s => (Ok tt, f s).

(** [try { body } catch (const std::exception&) { handler }]. *)
Definition try_catch {A : Type} (body : M A) (handler : exn -> M A) : M A :=
  fun s =>
    match body s with
    | (Ok a, s') => (Ok a, s')
    | (Err e, s') => handler e s'
    end.

Fixpoint forS (l : list nat) (body : nat -> M unit) : M unit :=
  match l with
  | [] => ret tt
  | i :: l' => mbind (body i) (fun _ => forS l' body)
  end.

Notation "x <~ e ;; k" := (mbind e (fun x => k))
  (at level 61, e at next level, right associativity).

(** What both trainings do once [theta] is known. *)
Definition storeModel (theta : (Matrix.t D)) (trainData : Dataset.t) : M bool :=
  _ <~ modify (set_coefficients (repeat d0 6)) ;;
  _ <~ forS (seq 0 6) (fun i =>
         v <~ lift (Matrix.get theta i 0) ;;
         modify (fun s => set_coefficients (upd i v (coefficients s)) s)) ;;
  _ <~ modify (set_isTrained true) ;;
  r <~ read (fun s => calculateRMSE s trainData) ;;
  _ <~ modify (set_trainRMSE r) ;;
  ret true.

(** [train]. *)
Definition train (trainData : Dataset.t) : M bool :=
  fun this =>
    if Dataset.empty trainData then (Ok false, this)
    else
      try_catch
        (theta <~ lift (normalEquation trainData) ;;
         storeModel theta trainData)
        (fun _ => ret false) this.

(** [trainWithRegularization]. *)
Definition trainWithRegularization (trainData : Dataset.t) (lambda : D) : M bool :=
  fun this =>
    if Dataset.empty trainData then (Ok false, this)
    else
      try_catch
        (theta <~ lift (ridgeEquation trainData lambda) ;;
         storeModel theta trainData)
        (fun _ => ret false) this.

(** ** Cross-validation *)

(** Conversion of an [int] to [size_t]. *)
Definition to_size_t (z : Z) : Z := z mod 2 ^ 64.

(** The membership test of the inner loop: is example [i] put into the
    validation set of fold [fold]?  [fold] runs over [0 .. folds - 1], so
    [fold + 1] and [folds - 1] are computed without overflow; the products
    are computed in [size_t]. *)
Definition inValidSet (folds fold foldSize i : Z) : bool :=
  if (to_size_t (fold * foldSize) <=? i)%Z
     && (i <? to_size_t ((fold + 1) * foldSize))%Z
     && (fold <? folds - 1)%Z then true
  else if (fold =? folds - 1)%Z && (to_size_t (fold * foldSize) <=? i)%Z then true
  else false.

(** The inner loop: the pair [(trainSet, validSet)] of fold [fold]. *)
Definition splitFold (data : Dataset.t) (folds fold foldSize : Z)
  : Result (Dataset.t * Dataset.t) :=
  forM (seq 0 (Dataset.size data)) (fun i sets =>
    let '(trainSet, validSet) := sets in
    p <- Dataset.at_ data i ;;
    if inValidSet folds fold foldSize (Z.of_nat i)
    then Ok (trainSet, Dataset.addDataPoint validSet p)
    else Ok (Dataset.addDataPoint trainSet p, validSet)) ([], []).

(** [foldSize] as [crossValidate] computes it. *)
Definition foldSizeOf (data : Dataset.t) (folds : Z) : Z :=
  (Z.of_nat (Dataset.size data) / to_size_t folds)%Z.

(** The body of the loop over the folds. *)
Definition foldStep (data : Dataset.t) (folds foldSize : Z) (fold : nat)
    (foldRMSEs : list D) : Result (list D) :=
  sets <- splitFold data folds (Z.of_nat fold) foldSize ;;
  let '(trainSet, validSet) := sets in
  match train trainSet new with
  | (Ok true, tempModel) =>
      foldRMSE <- calculateRMSE tempModel validSet ;;
      Ok (foldRMSEs ++ [foldRMSE])
  | (Ok false, _) => Ok foldRMSEs
  | (Err e, _) => Err e
  end.

(** [crossValidate]. *)
Definition crossValidate (this : t) (data : Dataset.t) (folds : Z) : Result D :=
  if (Z.of_nat (Dataset.size data) <? to_size_t folds)%Z then Err TooManyFolds
  else if (to_size_t folds =? 0)%Z then Err DivisionByZero
  else
    let foldSize := foldSizeOf data folds in
    foldRMSEs <- forM (seq 0 (Z.to_nat folds)) (foldStep data folds foldSize) [] ;;
    match foldRMSEs with
    | [] => Ok (dopp d1)
    | _ :: _ =>
        Ok (ddiv (fold_left dadd foldRMSEs d0) (of_size (length foldRMSEs)))
    end.

End Ops.
Arguments t : clear implicits.
End LinearRegression.

(** * Evaluator.cpp: the static metrics *)

Module Evaluator.
Section Ops.
Context {D : Type} {DA : Double D}.

(** [calculateMAPE]. *)
Definition calculateMAPE (actual predicted : list D) : Result D :=
  if negb (length actual =? length predicted) || (length actual =? 0)
  then Err InvalidVectors
  else
    let '(sumPercentageError, validCount) :=
      fold_left
        (fun acc i =>
           let '(sumPercentageError, validCount) := acc in
           if negb (deqb (nth i actual d0) d0) then
             let percentageError :=
               dmul (dabs (ddiv (dsub (nth i actual d0) (nth i predicted d0))
                                (nth i actual d0))) d100 in
             (dadd sumPercentageError percentageError, S validCount)
           else acc)
        (seq 0 (length actual)) (d0, 0) in
    Ok (if 0 <? validCount then ddiv sumPercentageError (of_size validCount)
        else d0).

(** [calculateR2]. *)
Definition calculateR2 (actual predicted : list D) : Result D :=
  if negb (length actual =? length predicted) || (length actual =? 0)
  then Err InvalidVectors
  else
    let meanActual := ddiv (fold_left dadd actual d0) (of_size (length actual)) in
    let '(totalSumSquares, residualSumSquares) :=
      fold_left
        (fun acc i =>
           let '(totalSumSquares, residualSumSquares) := acc in
           (dadd totalSumSquares
                 (dmul (dsub (nth i actual d0) meanActual)
                       (dsub (nth i actual d0) meanActual)),
            dadd residualSumSquares
                 (dmul (dsub (nth i actual d0) (nth i predicted d0))
                       (dsub (nth i actual d0) (nth i predicted d0)))))
        (seq 0 (length actual)) (d0, d0) in
    Ok (if deqb totalSumSquares d0 then d1
        else dsub d1 (ddiv residualSumSquares totalSumSquares)).

(** [calculateResiduals]. *)
Definition calculateResiduals (actual predicted : list D) : Result (list D) :=
  if negb (length actual =? length predicted) then Err InvalidVectors
  else
    Ok (fold_left
          (fun residuals i =>
             residuals ++ [dsub (nth i actual d0) (nth i predicted d0)])
          (seq 0 (length actual)) []).

(** [struct EvaluationResults]. *)
Record EvaluationResults : Type := mkResults {
  rmse : D;
  mse : D;
  mae : D;
  rSquared : D;
  meanAbsolutePercentageError : D;
  predictions : list D;
  actuals : list D;
  residuals : list D
}.

(** [evaluate], on the model the stored pointer designates; the
    constructor has refused a null pointer. *)
Definition evaluate (model : LinearRegression.t D) (testData : Dataset.t)
  : Result EvaluationResults :=
  if negb (LinearRegression.isTrained model) then Err NotTrained
  else
    predictions <- LinearRegression.predictAll model testData ;;
    actuals <- forM (seq 0 (Dataset.size testData)) (fun i actuals =>
                 p <- Dataset.at_ testData i ;;
                 Ok (actuals ++ [DataPoint.getTarget p])) [] ;;
    residuals <- calculateResiduals actuals predictions ;;
    rmse <- LinearRegression.calculateRMSE model testData ;;
    mse <- LinearRegression.calculateMSE model testData ;;
    mae <- LinearRegression.calculateMAE model testData ;;
    rSquared <- LinearRegression.calculateRSquared model testData ;;
    mape <- calculateMAPE actuals predictions ;;
    Ok (mkResults rmse mse mae rSquared mape predictions actuals residuals).

(** [calculateMean]. *)
Definition calculateMean (values : list D) : D :=
  match values with
  | [] => d0
  | _ :: _ => ddiv (fold_left dadd values d0) (of_size (length values))
  end.

(** [calculateVariance]. *)
Definition calculateVariance (values : list D) : D :=
  match values with
  | [] => d0
  | _ :: _ =>
      let mean := calculateMean values in
      let variance :=
        fold_left (fun variance value =>
                     dadd variance (dmul (dsub value mean) (dsub value mean)))
                  values d0 in
      ddiv variance (of_size (length values))
  end.

(** [calculateStandardDeviation]. *)
Definition calculateStandardDeviation (values : list D) : D :=
  dsqrt (calculateVariance values).

End Ops.
Arguments EvaluationResults : clear implicits.
End Evaluator.

(** * Specification-side definitions

    The quantities of the specification, written the way the specification
    words them.  Every sum of [double]s is the left-to-right accumulation
    from [0.0]. *)

Module Spec.
Section Defs.
Context {D : Type} {DA : Double D}.

Definition sum (xs : list D) : D := fold_left dadd xs d0.

Definition mean (xs : list D) : D := ddiv (sum xs) (of_size (length xs)).

(** The dot product: the sum of the products [c_i * f_i]. *)
Definition dot (cs fs : list D) : D :=
  sum (map (fun cf => dmul (fst cf) (snd cf)) (combine cs fs)).

Definition sq (x : D) : D := dmul x x.

(** The total sum of squares of [actual] against its own mean. *)
Definition TSS (actual : list D) : D :=
  sum (map (fun a => sq (dsub a (mean actual))) actual).

(** The residual sum of squares. *)
Definition RSS (actual predicted : list D) : D :=
  sum (map (fun ap => sq (dsub (fst ap) (snd ap))) (combine actual predicted)).

Definition R2 (actual predicted : list D) : D :=
  if deqb (TSS actual) d0 then d1
  else dsub d1 (ddiv (RSS actual predicted) (TSS actual)).

(** The (actual, predicted) pairs that count for MAPE. *)
Definition counted (actual predicted : list D) : list (D * D) :=
  filter (fun ap => negb (deqb (fst ap) d0)) (combine actual predicted).

Definition percentageError (ap : D * D) : D :=
  dmul (dabs (ddiv (dsub (fst ap) (snd ap)) (fst ap))) d100.

Definition MAPE (actual predicted : list D) : D :=
  match counted actual predicted with
  | [] => d0
  | _ :: _ =>
      ddiv (sum (map percentageError (counted actual predicted)))
           (of_size (length (counted actual predicted)))
  end.

(** The square root of the mean squared error of [predicted]. *)
Definition RMSE (actual predicted : list D) : D :=
  dsqrt (ddiv (sum (map (fun ap => sq (dsub (snd ap) (fst ap)))
                        (combine actual predicted)))
              (of_size (length actual))).

(** The mean squared error and the mean absolute error of [predicted]. *)
Definition MSE (actual predicted : list D) : D :=
  ddiv (sum (map (fun ap => sq (dsub (snd ap) (fst ap)))
                 (combine actual predicted)))
       (of_size (length actual)).

Definition MAE (actual predicted : list D) : D :=
  ddiv (sum (map (fun ap => dabs (dsub (snd ap) (fst ap)))
                 (combine actual predicted)))
       (of_size (length actual)).

(** The mean of the squared deviations from the mean. *)
Definition variance (values : list D) : D :=
  ddiv (sum (map (fun v => sq (dsub v (mean values))) values))
       (of_size (length values)).

(** The actual values of a set of examples, and the values a trained model
    predicts for them. *)
Definition actuals (data : Dataset.t) : list D := map DataPoint.getTarget data.

Definition predictions (this : (LinearRegression.t D)) (data : Dataset.t) : list D :=
  map (fun p => LinearRegression.predictionLoop this (DataPoint.getFeatureVector p))
      data.

(** The tabulated matrix with entry [f i j] at row [i], column [j]. *)
Definition table (r c : nat) (f : nat -> nat -> D) : (Matrix.t D) :=
  Matrix.mk (map (fun i => map (fun j => f i j) (seq 0 c)) (seq 0 r)) r c.

(** The partial-pivoting choice for column [i] of an [n]-row matrix. *)
Definition pivotRow (a : (Matrix.t D)) (n i : nat) : nat :=
  fold_left (fun maxRow k =>
               if dltb (dabs (Matrix.cell a maxRow i)) (dabs (Matrix.cell a k i))
               then k else maxRow)
            (seq (i + 1) (n - (i + 1))) i.

(** The tolerance of the specification, [10^-10]: the quotient of 1 by
    [10^10] as the carrier rounds it ([10^10] itself is converted without
    error). *)
Definition tolerance : D := ddiv d1 (of_int 10000000000).

(** Is the magnitude of the chosen pivot of column [i] below [10^-10]? *)
Definition pivotBelowTolerance (a : Matrix.t D) (n i : nat) : bool :=
  dltb (dabs (Matrix.cell a (pivotRow a n i) i)) tolerance.

(** The comparison as the loops of [inverse] and [determinant] make it,
    with their constant. *)
Definition pivotRejected (a : Matrix.t D) (n i : nat) : bool :=
  dltb (dabs (Matrix.cell a (pivotRow a n i) i)) Matrix.EPSILON.

(** The rows [i] and [p] exchanged. *)
Definition swapped (a : Matrix.t D) (i p : nat) : Matrix.t D :=
  table (Matrix.rows a) (Matrix.cols a)
        (fun r j => Matrix.cell a (if r =? i then p else if r =? p then i else r) j).

(** Row [i] divided by its entry in column [i], so that the pivot
    becomes 1. *)
Definition normalized (a : Matrix.t D) (i : nat) : Matrix.t D :=
  table (Matrix.rows a) (Matrix.cols a)
        (fun r j => if r =? i
                    then dmul (Matrix.cell a i j) (ddiv d1 (Matrix.cell a i i))
                    else Matrix.cell a r j).

(** Column [i] eliminated from every row but row [i]: from row [r] the
    multiple [a(r, i)] of row [i] is subtracted. *)
Definition cleared (a : Matrix.t D) (i : nat) : Matrix.t D :=
  table (Matrix.rows a) (Matrix.cols a)
        (fun r j => if r =? i then Matrix.cell a i j
                    else dadd (Matrix.cell a r j)
                              (dmul (dopp (Matrix.cell a r i)) (Matrix.cell a i j))).

(** One Gauss-Jordan step on pivot column [i] of an [n]-row matrix: the
    pivot row is swapped into position [i], normalised, and column [i] is
    eliminated from every other row, above and below. *)
Definition gaussJordanStep (a : Matrix.t D) (n i : nat) : Matrix.t D :=
  cleared (normalized (swapped a i (pivotRow a n i)) i) i.

(** Column [i] eliminated from the rows below row [i]: from row [r] the
    multiple [a(r, i) / a(i, i)] of row [i] is subtracted. *)
Definition eliminatedBelow (a : Matrix.t D) (i : nat) : Matrix.t D :=
  table (Matrix.rows a) (Matrix.cols a)
        (fun r j => if i <? r
                    then dadd (Matrix.cell a r j)
                              (dmul (dopp (ddiv (Matrix.cell a r i) (Matrix.cell a i i)))
                                    (Matrix.cell a i j))
                    else Matrix.cell a r j).

(** One step of the elimination of [determinant] on column [i]: the pivot
    row is swapped into position [i] and column [i] is eliminated below
    it. *)
Definition eliminationStep (a : Matrix.t D) (n i : nat) : Matrix.t D :=
  eliminatedBelow (swapped a i (pivotRow a n i)) i.

(** The augmented matrix [[A | I]] of a square [A]. *)
Definition augmented (m : Matrix.t D) : Matrix.t D :=
  table (Matrix.rows m) (2 * Matrix.rows m)
        (fun i j => if j <? Matrix.rows m then Matrix.cell m i j
                    else if j =? i + Matrix.rows m then d1 else d0).

(** The right half of an [n x 2n] matrix. *)
Definition rightHalf (n : nat) (a : Matrix.t D) : Matrix.t D :=
  table n n (fun i j => Matrix.cell a i (j + n)).

(** The matrices of the normal equation, entry by entry. *)
Definition designMatrix (data : Dataset.t) : Matrix.t D :=
  table (Dataset.size data) 6
        (fun i j => nth j (DataPoint.getFeatureVector (nth i data DataPoint.default)) d0).

Definition column (v : list D) : Matrix.t D :=
  table (length v) 1 (fun i _ => nth i v d0).

Definition transposed (a : Matrix.t D) : Matrix.t D :=
  table (Matrix.cols a) (Matrix.rows a) (fun i j => Matrix.cell a j i).

Definition product (a b : Matrix.t D) : Matrix.t D :=
  table (Matrix.rows a) (Matrix.cols b)
        (fun i j =>
           fold_left (fun sum k => dadd sum (dmul (Matrix.cell a i k) (Matrix.cell b k j)))
                     (seq 0 (Matrix.cols a)) d0).

Definition identityMatrix (n : nat) : Matrix.t D :=
  table n n (fun i j => if j =? i then d1 else d0).

Definition scaled (a : Matrix.t D) (x : D) : Matrix.t D :=
  table (Matrix.rows a) (Matrix.cols a) (fun i j => dmul (Matrix.cell a i j) x).

Definition plus (a b : Matrix.t D) : Matrix.t D :=
  table (Matrix.rows a) (Matrix.cols a)
        (fun i j => dadd (Matrix.cell a i j) (Matrix.cell b i j)).

Definition minus (a b : Matrix.t D) : Matrix.t D :=
  table (Matrix.rows a) (Matrix.cols a)
        (fun i j => dsub (Matrix.cell a i j) (Matrix.cell b i j)).

(** [Xt X], [Xt y] and [Xt X + lambda I] for a set of examples. *)
Definition normalMatrix (data : Dataset.t) : Matrix.t D :=
  product (transposed (designMatrix data)) (designMatrix data).

Definition momentVector (data : Dataset.t) : Matrix.t D :=
  product (transposed (designMatrix data)) (column (actuals data)).

Definition ridgeMatrix (data : Dataset.t) (lambda : D) : Matrix.t D :=
  plus (normalMatrix data) (scaled (identityMatrix 6) lambda).

(** The model a successful training leaves behind: the six entries of
    [theta], the flag, and the error on the training set. *)
Definition fitted (this : LinearRegression.t D) (theta : Matrix.t D)
    (data : Dataset.t) : LinearRegression.t D :=
  let s := LinearRegression.mk (map (fun i => Matrix.cell theta i 0) (seq 0 6)) true
             (LinearRegression.trainRMSE this) (LinearRegression.testRMSE this)
             (LinearRegression.rSquared this) in
  LinearRegression.set_trainRMSE (RMSE (actuals data) (predictions s data)) s.

(** The models a program can hold: a constructed one, and whatever the two
    trainings leave behind. *)
Inductive reachable : LinearRegression.t D -> Prop :=
| reach_new : reachable LinearRegression.new
| reach_train (this : LinearRegression.t D) (data : Dataset.t) :
    reachable this -> reachable (snd (LinearRegression.train data this))
| reach_ridge (this : LinearRegression.t D) (data : Dataset.t) (lambda : D) :
    reachable this ->
    reachable (snd (LinearRegression.trainWithRegularization data lambda this)).

(** What fold [fold] contributes to the list of recorded errors: the RMSE
    of the model trained on the other folds, measured on the held-out fold,
    when that training succeeds, and nothing when it fails. *)
Definition foldRMSE (data : Dataset.t) (folds : Z) (fold : nat) : list D :=
  match LinearRegression.splitFold data folds (Z.of_nat fold)
          (LinearRegression.foldSizeOf data folds) with
  | Ok (trainSet, validSet) =>
      match LinearRegression.train trainSet LinearRegression.new with
      | (Ok true, tempModel) =>
          [RMSE (actuals validSet) (predictions tempModel validSet)]
      | _ => []
      end
  | Err _ => []
  end.

Definition foldRMSEs (data : Dataset.t) (folds : Z) : list D :=
  flat_map (foldRMSE data folds) (seq 0 (Z.to_nat folds)).

(** The stored dimensions and the number of stored rows. *)
Definition shaped (m : Matrix.t D) (r c : nat) : Prop :=
  Matrix.rows m = r /\ Matrix.cols m = c /\ length (Matrix.data m) = r.

(** The state of the elimination loop of [determinant] when it is about to
    treat column [i]: the scratch copy and the running product. *)
Definition detReach (m : (Matrix.t D)) (i : nat) (st : (Matrix.t D) * D) : Prop :=
  forReturn (seq 0 i) (Matrix.detStep (Matrix.rows m)) (m, d1) = Ok (Continue st).

(** The augmented matrix of [inverse] after the pivot columns [0 .. i - 1]. *)
Definition reduced (m : (Matrix.t D)) (i : nat) : Result (Matrix.t D) :=
  augmented <- Matrix.augment m ;;
  forM (seq 0 i) (Matrix.pivotStep (Matrix.rows m)) augmented.

End Defs.

(** The validation sets of the folds [0 .. folds - 1], in order, as the
    loop of [crossValidate] builds them. *)
Definition validSets (data : Dataset.t) (folds : nat) : Result (list Dataset.t) :=
  forM (seq 0 folds) (fun fold acc =>
    sets <- LinearRegression.splitFold data (Z.of_nat folds) (Z.of_nat fold)
              (LinearRegression.foldSizeOf data (Z.of_nat folds)) ;;
    Ok (acc ++ [snd sets])) [].

(** ** The file reader *)

Definition blank (c : Ascii.ascii) : bool := Dataset.member c Dataset.whitespace.

(** No white space at either end. *)
Definition trimmed (s : Dataset.str) : bool :=
  match s with
  | [] => true
  | c :: _ => negb (blank c) && negb (blank (last s c))
  end.

(** The fields with [sep] between them. *)
Fixpoint join (sep : Ascii.ascii) (fields : list Dataset.str) : Dataset.str :=
  match fields with
  | [] => []
  | f :: fs =>
      match fs with
      | [] => f
      | _ :: _ => f ++ sep :: join sep fs
      end
  end.

Fixpoint endsWith (c : Ascii.ascii) (s : Dataset.str) : bool :=
  match s with
  | [] => false
  | x :: s' =>
      match s' with
      | [] => Ascii.eqb x c
      | _ :: _ => endsWith c s'
      end
  end.

(** The characters of a numeral of the standard library. *)
Definition numeral (u : Decimal.uint) : Dataset.str :=
  String.list_ascii_of_string (DecimalString.NilEmpty.string_of_uint u).

(** The decimal numeral of an integer. *)
Definition decimal (z : Z) : Dataset.str :=
  String.list_ascii_of_string (DecimalString.NilEmpty.string_of_int (Z.to_int z)).

(** The values of a C++ [int]. *)
Definition isInt (z : Z) : bool :=
  (Dataset.INT_MIN <=? z)%Z && (z <=? Dataset.INT_MAX)%Z.

(** A text that a field of a line can hold and give back. *)
Definition plain (s : String.string) : bool :=
  let l := String.list_ascii_of_string s in
  trimmed l && negb (Dataset.member ","%char l)
  && negb (Dataset.member "010"%char l).

Definition storable (p : DataPoint.t) : bool :=
  plain (DataPoint.vendor p) && plain (DataPoint.model p)
  && isInt (DataPoint.myct p) && isInt (DataPoint.mmin p)
  && isInt (DataPoint.mmax p) && isInt (DataPoint.cach p)
  && isInt (DataPoint.chmin p) && isInt (DataPoint.chmax p)
  && isInt (DataPoint.prp p) && isInt (DataPoint.erp p).

Definition csvFields (p : DataPoint.t) : list Dataset.str :=
  [String.list_ascii_of_string (DataPoint.vendor p);
   String.list_ascii_of_string (DataPoint.model p);
   decimal (DataPoint.myct p); decimal (DataPoint.mmin p);
   decimal (DataPoint.mmax p); decimal (DataPoint.cach p);
   decimal (DataPoint.chmin p); decimal (DataPoint.chmax p);
   decimal (DataPoint.prp p); decimal (DataPoint.erp p)].

Definition csvLine (p : DataPoint.t) : Dataset.str :=
  join ","%char (csvFields p).

Definition csvFile (d : Dataset.t) : Dataset.str :=
  concat (map (fun p => csvLine p ++ ["010"%char]) d).

(** What a file with this content loads. *)
Definition loaded (content : Dataset.str) : Dataset.t :=
  snd (Dataset.loadFromFile (fun _ => Some content) [] []).

End Spec.

(** * Sample inputs *)

Module Samples.

Definition pt (a b c d e f y : Z) : DataPoint.t :=
  DataPoint.mk String.EmptyString String.EmptyString a b c d e f y 0.

(** Six examples with independent feature rows; the targets follow
    [2 f1 + 3 f2 + 4 f3 + 5 f4 + 6 f5 + 7 f6]. *)
Definition basis : Dataset.t :=
  [pt 1 0 0 0 0 0 2; pt 0 1 0 0 0 0 3; pt 0 0 1 0 0 0 4;
   pt 0 0 0 1 0 0 5; pt 0 0 0 0 1 0 6; pt 0 0 0 0 0 1 7].

(** A seventh example on the same hyperplane. *)
Definition seven : Dataset.t := basis ++ [pt 1 1 0 0 0 0 5].

(** Three examples: too few for an invertible normal matrix. *)
Definition three : Dataset.t :=
  [pt 1 0 0 0 0 0 2; pt 0 1 0 0 0 0 3; pt 0 0 1 0 0 0 4].

(** Thirteen examples: six copies of one example, then [seven].  Cut in
    two folds, the first fold is trained on [seven] and the second on the
    six copies. *)
Definition mixed : Dataset.t := repeat (pt 1 0 0 0 0 0 2) 6 ++ seven.

(** [n] examples told apart by their first feature. *)
Definition numbered (n : nat) : Dataset.t :=
  map (fun k => pt (Z.of_nat k) 0 0 0 0 0 (Z.of_nat k)) (seq 0 n).

(** The characters of a text. *)
Definition text (s : String.string) : Dataset.str :=
  String.list_ascii_of_string s.
Arguments text s%_string.

(** Two examples with their names. *)
Definition machines : Dataset.t :=
  [DataPoint.mk "adviser"%string "32/60"%string 125 256 6000 256 16 128 198 199;
   DataPoint.mk "amdahl"%string "470v/7"%string 29 8000 32000 32 8 32 269 253].

End Samples.

(** * Facts about the loop combinators *)

Section Loops.
Variables S : Type.

Lemma forM_app (l1 l2 : list nat) (body : nat -> S -> Result S) (s : S) :
  forM (l1 ++ l2) body s = (s' <- forM l1 body s ;; forM l2 body s').
Proof.
  revert s; induction l1 as [|i l1 IH]; intros s; simpl; [reflexivity|].
  destruct (body i s); simpl; auto.
Qed.

(** A loop whose body cannot throw is a left fold. *)
Lemma forM_pure (l : list nat) (body : nat -> S -> Result S)
      (g : nat -> S -> S) (s : S) :
  (forall i s, In i l -> body i s = Ok (g i s)) ->
  forM l body s = Ok (fold_left (fun s i => g i s) l s).
Proof.
  revert s; induction l as [|i l IH]; intros s H; simpl; [reflexivity|].
  rewrite H by (left; reflexivity); simpl.
  apply IH; intros; apply H; right; assumption.
Qed.

(** The invariant rule for a counted loop that cannot throw while the
    invariant holds. *)
Lemma forM_inv (P : nat -> S -> Prop) (body : nat -> S -> Result S) :
  forall len a s,
    P a s ->
    (forall i s, a <= i < a + len -> P i s ->
                 exists s', body i s = Ok s' /\ P (Datatypes.S i) s') ->
    exists s', forM (seq a len) body s = Ok s' /\ P (a + len) s'.
Proof.
  induction len as [|len IH]; intros a s HP Hstep; simpl.
  - exists s; split; [reflexivity|]. now rewrite Nat.add_0_r.
  - destruct (Hstep a s) as (s1 & E1 & P1); [lia|assumption|].
    rewrite E1; simpl.
    destruct (IH (Datatypes.S a) s1 P1) as (s2 & E2 & P2).
    + intros i s' Hi; apply Hstep; lia.
    + exists s2; split; [assumption|].
      now replace (a + Datatypes.S len) with (Datatypes.S a + len) by lia.
Qed.

End Loops.

Section IndexLoops.
Variables A S : Type.

(** Indexing by position is walking the list. *)
Lemma fold_left_nth (f : S -> A -> S) (d : A) (l : list A) (s : S) :
  fold_left (fun s i => f s (nth i l d)) (seq 0 (length l)) s = fold_left f l s.
Proof.
  revert s; induction l as [|x l IH]; intros s; simpl; [reflexivity|].
  rewrite <- seq_shift, <- IH.
  generalize (f s x) (seq 0 (length l)); intros s' idx; revert s'.
  induction idx as [|i idx IHi]; intros s'; simpl; [reflexivity|]. apply IHi.
Qed.

End IndexLoops.

Lemma fold_left_nth2 (A B S : Type) (f : S -> A -> B -> S) (da : A) (db : B)
      (l1 : list A) (l2 : list B) (s : S) :
  length l1 = length l2 ->
  fold_left (fun s i => f s (nth i l1 da) (nth i l2 db)) (seq 0 (length l1)) s
  = fold_left (fun s ab => f s (fst ab) (snd ab)) (combine l1 l2) s.
Proof.
  intros H.
  rewrite <- (fold_left_nth (fun s ab => f s (fst ab) (snd ab)) (da, db)).
  rewrite length_combine, <- H, Nat.min_id.
  generalize (seq 0 (length l1)); intros idx; revert s.
  induction idx as [|i idx IH]; intros s; simpl; [reflexivity|].
  rewrite IH. now rewrite combine_nth.
Qed.

(** * Evaluator: MAPE *)

Section MAPE.
Context {D : Type} {DA : Double D}.

Lemma combine_app_same (A B : Type) (l1 l2 : list A) (p1 p2 : list B) :
  length l1 = length p1 ->
  combine (l1 ++ l2) (p1 ++ p2) = combine l1 p1 ++ combine l2 p2.
Proof.
  revert p1; induction l1 as [|x l1 IH]; intros [|y p1] H; simpl in *;
    try discriminate; [reflexivity|].
  f_equal; apply IH; lia.
Qed.

(** The loop of [calculateMAPE], once it walks the pairs: the sum runs over
    the counted pairs only and the count is their number. *)
Lemma mape_loop (l : list (D * D)) (s : D) (c : nat) :
  fold_left
    (fun acc ab =>
       let '(sumPercentageError, validCount) := acc in
       if negb (deqb (fst ab) d0) then
         (dadd sumPercentageError
               (dmul (dabs (ddiv (dsub (fst ab) (snd ab)) (fst ab))) d100),
          Datatypes.S validCount)
       else acc) l (s, c)
  = (fold_left dadd
       (map Spec.percentageError (filter (fun ab => negb (deqb (fst ab) d0)) l)) s,
     c + length (filter (fun ab => negb (deqb (fst ab) d0)) l)).
Proof.
  revert s c; induction l as [|ab l IH]; intros s c; simpl.
  - now rewrite Nat.add_0_r.
  - destruct (negb (deqb (fst ab) d0)); simpl; rewrite IH; [|reflexivity].
    f_equal; lia.
Qed.

Lemma calculateMAPE_spec (actual predicted : list D) :
  length actual = length predicted -> actual <> [] ->
  Evaluator.calculateMAPE actual predicted = Ok (Spec.MAPE actual predicted).
Proof.
  intros Hlen Hne. unfold Evaluator.calculateMAPE.
  rewrite <- Hlen, Nat.eqb_refl; simpl.
  destruct actual as [|a0 actual']; [congruence|].
  set (actual := a0 :: actual') in *.
  replace (length actual =? 0) with false by reflexivity.
  rewrite (fold_left_nth2
             (fun (acc : D * nat) a p =>
                let '(sumPercentageError, validCount) := acc in
                if negb (deqb a d0) then
                  (dadd sumPercentageError
                        (dmul (dabs (ddiv (dsub a p) a)) d100),
                   Datatypes.S validCount)
                else acc) d0 d0 actual predicted (d0, 0) Hlen).
  rewrite mape_loop. unfold Spec.MAPE, Spec.counted, Spec.sum.
  set (F := filter (fun ab => negb (deqb (fst ab) d0)) (combine actual predicted)).
  change (0 + length F) with (length F).
  destruct F as [|x xs]; reflexivity.
Qed.

(** C9.  For equal-length non-empty sequences, [calculateMAPE] returns the
    mean of [|(actual_i - predicted_i) / actual_i| * 100] over the entries
    with [actual_i != 0]; an entry with [actual_i == 0] adds to neither the
    sum nor the count (removing it from the input leaves the result as it
    is); and when every [actual_i] is zero the result is [0.0]. *)
Theorem calculateMAPE_correct (actual predicted : list D) :
  length actual = length predicted -> actual <> [] ->
  Evaluator.calculateMAPE actual predicted = Ok (Spec.MAPE actual predicted)
  /\ (forall a1 a2 p1 p2 a p,
        actual = a1 ++ a :: a2 -> predicted = p1 ++ p :: p2 ->
        length a1 = length p1 -> deqb a d0 = true ->
        Spec.MAPE actual predicted = Spec.MAPE (a1 ++ a2) (p1 ++ p2))
  /\ ((forall a, In a actual -> deqb a d0 = true) ->
      Evaluator.calculateMAPE actual predicted = Ok d0).
Proof.
  intros Hlen Hne. split; [now apply calculateMAPE_spec|]. split.
  - intros a1 a2 p1 p2 a p -> -> H1 Ha.
    unfold Spec.MAPE, Spec.counted.
    rewrite (combine_app_same a1 (a :: a2) p1 (p :: p2) H1).
    rewrite (combine_app_same a1 a2 p1 p2 H1).
    rewrite !filter_app; simpl. now rewrite Ha.
  - intros Hz. rewrite calculateMAPE_spec by assumption.
    unfold Spec.MAPE, Spec.counted.
    replace (filter _ (combine actual predicted)) with (@nil (D * D));
      [reflexivity|].
    symmetry. clear Hlen Hne. revert predicted.
    induction actual as [|a l IH]; intros [|p predicted]; simpl; try reflexivity.
    rewrite (Hz a) by (left; reflexivity); simpl.
    apply IH; intros; apply Hz; right; assumption.
Qed.

End MAPE.

(** On binary64: the entry with [actual = 0] is skipped, the other two give
    [(50 + 25) / 2]. *)
Lemma calculateMAPE_correct_witness :
  Evaluator.calculateMAPE [0; 2; 4]%float [1; 1; 5]%float = Ok 37.5%float.
Proof.
  destruct (@calculateMAPE_correct float Float64 [0; 2; 4]%float [1; 1; 5]%float)
    as [H _]; [reflexivity | discriminate |].
  rewrite H. vm_compute. reflexivity.
Defined.

(** * Prediction *)

Section Predict.
Context {D : Type} {DA : Double D}.

Lemma fold_left_map (A B S : Type) (f : S -> B -> S) (g : A -> B) (l : list A)
      (s : S) :
  fold_left f (map g l) s = fold_left (fun s x => f s (g x)) l s.
Proof. revert s; induction l; intros; simpl; auto. Qed.

Lemma combine_map (A B C : Type) (f : A -> B) (g : A -> C) (l : list A) :
  combine (map f l) (map g l) = map (fun x => (f x, g x)) l.
Proof. induction l; simpl; congruence. Qed.

Lemma at_nth (data : Dataset.t) (i : nat) :
  i < length data ->
  Dataset.at_ data i = Ok (nth i data DataPoint.default).
Proof.
  intros H. unfold Dataset.at_.
  now rewrite (nth_error_nth' data DataPoint.default H).
Qed.

(** A loop over the positions of a dataset whose body reads [data[i]] (once
    or twice) and cannot throw walks the examples in order. *)
Lemma forM_dataset (S : Type) (data : Dataset.t)
      (body : nat -> S -> Result S) (g : S -> DataPoint.t -> S) (s : S) :
  (forall i s, i < length data ->
               body i s = Ok (g s (nth i data DataPoint.default))) ->
  forM (seq 0 (Dataset.size data)) body s = Ok (fold_left g data s).
Proof.
  intros H. unfold Dataset.size.
  rewrite (forM_pure _ body (fun i s => g s (nth i data DataPoint.default))).
  - now rewrite fold_left_nth.
  - intros i s' Hi. apply in_seq in Hi. apply H; lia.
Qed.

Lemma predict_trained (this : (LinearRegression.t D)) (features : list D) :
  LinearRegression.isTrained this = true -> length features = 6 ->
  LinearRegression.predict this features
  = Ok (LinearRegression.predictionLoop this features).
Proof.
  intros Ht Hl. unfold LinearRegression.predict. now rewrite Ht, Hl.
Qed.

Lemma predictPoint_trained (this : (LinearRegression.t D)) (p : DataPoint.t) :
  LinearRegression.isTrained this = true ->
  LinearRegression.predictPoint this p
  = Ok (LinearRegression.predictionLoop this (DataPoint.getFeatureVector p)).
Proof.
  intros Ht. unfold LinearRegression.predictPoint. rewrite Ht; simpl.
  now apply predict_trained.
Qed.

(** C7.  Before training, both [predict] overloads fail with [NotTrained]
    whatever the argument; on a trained model a feature sequence whose
    length is not 6 fails with [InvalidFeatureCount]; on a trained model a
    sequence of length 6 (and any example) yields a value. *)
Theorem predict_failures (this : (LinearRegression.t D)) :
  (LinearRegression.isTrained this = false ->
   (forall features, LinearRegression.predict this features = Err NotTrained)
   /\ (forall point, LinearRegression.predictPoint this point = Err NotTrained))
  /\ (LinearRegression.isTrained this = true ->
      (forall features, length features <> 6 ->
         LinearRegression.predict this features = Err InvalidFeatureCount)
      /\ (forall features, length features = 6 ->
            exists v, LinearRegression.predict this features = Ok v)
      /\ (forall point,
            exists v, LinearRegression.predictPoint this point = Ok v)).
Proof.
  split.
  - intros Ht; split; intros;
      unfold LinearRegression.predictPoint, LinearRegression.predict;
      now rewrite Ht.
  - intros Ht; repeat split.
    + intros features Hl. unfold LinearRegression.predict. rewrite Ht; simpl.
      apply Nat.eqb_neq in Hl. now rewrite Hl.
    + intros features Hl. eexists. now apply predict_trained.
    + intros point. eexists. now apply predictPoint_trained.
Qed.

End Predict.

(** On binary64: the untrained model, and the model trained on
    [Samples.basis] (coefficients 2, 3, 4, 5, 6, 7) asked about five and
    about six features. *)
Lemma predict_failures_witness :
  LinearRegression.predict (D := float) LinearRegression.new [1; 2; 3; 4; 5; 6]%float
  = Err NotTrained
  /\ LinearRegression.predict
       (snd (LinearRegression.train (D := float) Samples.basis LinearRegression.new))
       [1; 2; 3; 4; 5]%float
     = Err InvalidFeatureCount
  /\ LinearRegression.predict
       (snd (LinearRegression.train (D := float) Samples.basis LinearRegression.new))
       [1; 2; 3; 4; 5; 6]%float
     = Ok 112%float.
Proof.
  split; [|split].
  - apply (@predict_failures float Float64 LinearRegression.new). reflexivity.
  - apply (@predict_failures float Float64
             (snd (LinearRegression.train Samples.basis LinearRegression.new)));
      [vm_compute; reflexivity | simpl; lia].
  - destruct (@predict_failures float Float64
             (snd (LinearRegression.train Samples.basis LinearRegression.new)))
      as [_ H].
    destruct H as (_ & H6 & _); [vm_compute; reflexivity|].
    destruct (H6 [1; 2; 3; 4; 5; 6]%float eq_refl) as [v Hv].
    rewrite Hv. f_equal. vm_compute in Hv. now inversion Hv.
Defined.

(** The overload on a dataset calls the one on an example once per
    example: on an empty dataset it returns the empty sequence, trained or
    not. *)
Example predictAll_empty :
  LinearRegression.predictAll (D := float) LinearRegression.new [] = Ok [].
Proof. reflexivity. Qed.

(** * R squared *)

Section RSquared.
Context {D : Type} {DA : Double D}.

(** One loop that accumulates two sums is two loops. *)
Lemma fold_left_pair (A : Type) (f g : A -> D) (l : list A) (t r : D) :
  fold_left (fun acc x => let '(t, r) := acc in (dadd t (f x), dadd r (g x))) l (t, r)
  = (fold_left dadd (map f l) t, fold_left dadd (map g l) r).
Proof. revert t r; induction l; intros; simpl; auto. Qed.

Lemma fold_left_add_map (A : Type) (f : A -> D) (l : list A) (s : D) :
  fold_left (fun s x => dadd s (f x)) l s = fold_left dadd (map f l) s.
Proof. symmetry; apply fold_left_map. Qed.

Lemma predictAll_trained (this : (LinearRegression.t D)) (data : Dataset.t) :
  LinearRegression.isTrained this = true ->
  LinearRegression.predictAll this data = Ok (Spec.predictions this data).
Proof.
  intros Ht. unfold LinearRegression.predictAll.
  rewrite (forM_dataset data _
             (fun acc p => acc ++ [LinearRegression.predictionLoop this
                                     (DataPoint.getFeatureVector p)])).
  - f_equal. unfold Spec.predictions.
    assert (G : forall l acc,
               fold_left (fun acc p => acc ++ [LinearRegression.predictionLoop this
                                                 (DataPoint.getFeatureVector p)]) l acc
               = acc ++ map (fun p => LinearRegression.predictionLoop this
                                        (DataPoint.getFeatureVector p)) l).
    { induction l as [|x l IH]; intros acc; simpl.
      - now rewrite app_nil_r.
      - rewrite IH, <- app_assoc. reflexivity. }
    now rewrite G.
  - intros i s Hi. rewrite (at_nth data Hi); simpl.
    now rewrite predictPoint_trained by assumption.
Qed.

(** [calculateRSquared] computes [1 - RSS / TSS] of the supplied set, with
    the convention for [TSS == 0]. *)
Lemma calculateRSquared_spec (this : (LinearRegression.t D)) (data : Dataset.t) :
  LinearRegression.isTrained this = true ->
  LinearRegression.calculateRSquared this data
  = Ok (Spec.R2 (Spec.actuals data) (Spec.predictions this data)).
Proof.
  intros Ht. unfold LinearRegression.calculateRSquared. rewrite Ht; simpl.
  rewrite (forM_dataset data _ (fun m p => dadd m (DataPoint.getTarget p))).
  2:{ intros i s Hi. now rewrite (at_nth data Hi). }
  simpl.
  set (meanActual := ddiv (fold_left _ data d0) (of_size (Dataset.size data))).
  rewrite (forM_dataset data _
             (fun acc p =>
                let '(t, r) := acc in
                (dadd t (Spec.sq (dsub (DataPoint.getTarget p) meanActual)),
                 dadd r (Spec.sq (dsub (DataPoint.getTarget p)
                                       (LinearRegression.predictionLoop this
                                          (DataPoint.getFeatureVector p))))))).
  2:{ intros i [t r] Hi. rewrite (at_nth data Hi); simpl.
      now rewrite predictPoint_trained by assumption. }
  simpl. rewrite fold_left_pair.
  assert (Hm : meanActual = Spec.mean (Spec.actuals data)).
  { unfold meanActual, Spec.mean, Spec.sum, Spec.actuals, Dataset.size.
    now rewrite fold_left_add_map, length_map. }
  unfold Spec.R2, Spec.TSS, Spec.RSS, Spec.sum, Spec.actuals, Spec.predictions.
  rewrite combine_map, !map_map. fold (Spec.actuals data). rewrite <- Hm.
  simpl. destruct (deqb _ d0); reflexivity.
Qed.

(** The same for the static [Evaluator::calculateR2]. *)
Lemma calculateR2_spec (actual predicted : list D) :
  length actual = length predicted -> actual <> [] ->
  Evaluator.calculateR2 actual predicted = Ok (Spec.R2 actual predicted).
Proof.
  intros Hlen Hne. unfold Evaluator.calculateR2.
  rewrite <- Hlen, Nat.eqb_refl; simpl.
  destruct actual as [|a0 actual']; [congruence|].
  set (actual := a0 :: actual') in *.
  replace (length actual =? 0) with false by reflexivity.
  set (meanActual := ddiv (fold_left dadd actual d0) (of_size (length actual))).
  rewrite (fold_left_nth2
             (fun (acc : D * D) a p =>
                let '(t, r) := acc in
                (dadd t (dmul (dsub a meanActual) (dsub a meanActual)),
                 dadd r (dmul (dsub a p) (dsub a p))))
             d0 d0 actual predicted (d0, d0) Hlen).
  rewrite (fold_left_pair
             (fun ab : D * D => dmul (dsub (fst ab) meanActual) (dsub (fst ab) meanActual))
             (fun ab : D * D => dmul (dsub (fst ab) (snd ab)) (dsub (fst ab) (snd ab)))).
  assert (Hfst : forall (f : D -> D),
             map (fun ab : D * D => f (fst ab)) (combine actual predicted)
             = map f actual).
  { intros f. clearbody actual. clear -Hlen. revert predicted Hlen.
    induction actual as [|a l IH]; intros [|p predicted] H; simpl in *;
      try discriminate; [reflexivity|].
    f_equal; apply IH; lia. }
  rewrite (Hfst (fun a => dmul (dsub a meanActual) (dsub a meanActual))).
  reflexivity.
Qed.

(** Arithmetic the perfect-prediction case rests on.  Each holds of exact
    arithmetic and of IEEE-754: [0.0 + 0.0] and [0.0 * 0.0] are [0.0], and
    [1.0 - 0.0 / t] is [1.0] when [t] is a number other than zero. *)
Hypothesis add_0_0 : dadd d0 d0 = d0.
Hypothesis mul_0_0 : dmul d0 d0 = d0.
Hypothesis one_minus_zero_over :
  forall t, deqb t t = true -> deqb t d0 = false -> dsub d1 (ddiv d0 t) = d1.

Lemma RSS_self (actual : list D) :
  (forall a, In a actual -> dsub a a = d0) -> Spec.RSS actual actual = d0.
Proof.
  unfold Spec.RSS, Spec.sum, Spec.sq.
  induction actual as [|a l IH]; intros H; simpl; [reflexivity|].
  rewrite (H a) by (left; reflexivity). rewrite mul_0_0, add_0_0.
  apply IH; intros; apply H; right; assumption.
Qed.

Lemma R2_self (actual : list D) :
  (forall a, In a actual -> dsub a a = d0) ->
  deqb (Spec.TSS actual) (Spec.TSS actual) = true ->
  Spec.R2 actual actual = d1.
Proof.
  intros Hfin Hnum. unfold Spec.R2. rewrite (RSS_self _ Hfin).
  destruct (deqb (Spec.TSS actual) d0) eqn:E; [reflexivity|].
  now apply one_minus_zero_over.
Qed.

(** C8.  For a trained model, [calculateRSquared] of a non-empty set is
    [1 - RSS / TSS] with [TSS] taken against the mean of the actual values
    of that very set; it is [1.0] when [TSS == 0], whatever the
    predictions, and [1.0] when every prediction equals its actual value
    (the actual values being finite, which a converted [int] is, and the
    total sum of squares being a number).  The static
    [Evaluator::calculateR2] does the same on two sequences. *)
Theorem rSquared_correct (this : LinearRegression.t D) (data : Dataset.t)
        (actual predicted : list D) :
  LinearRegression.isTrained this = true -> data <> [] ->
  length actual = length predicted -> actual <> [] ->
  (LinearRegression.predictAll this data = Ok (Spec.predictions this data)
   /\ LinearRegression.calculateRSquared this data
      = Ok (if deqb (Spec.TSS (Spec.actuals data)) d0 then d1
            else dsub d1 (ddiv (Spec.RSS (Spec.actuals data)
                                         (Spec.predictions this data))
                               (Spec.TSS (Spec.actuals data))))
   /\ (deqb (Spec.TSS (Spec.actuals data)) d0 = true ->
       LinearRegression.calculateRSquared this data = Ok d1)
   /\ (Spec.predictions this data = Spec.actuals data ->
       (forall a, In a (Spec.actuals data) -> dsub a a = d0) ->
       deqb (Spec.TSS (Spec.actuals data)) (Spec.TSS (Spec.actuals data)) = true ->
       LinearRegression.calculateRSquared this data = Ok d1))
  /\ (Evaluator.calculateR2 actual predicted
      = Ok (if deqb (Spec.TSS actual) d0 then d1
            else dsub d1 (ddiv (Spec.RSS actual predicted) (Spec.TSS actual)))
      /\ (deqb (Spec.TSS actual) d0 = true ->
          Evaluator.calculateR2 actual predicted = Ok d1)
      /\ (predicted = actual ->
          (forall a, In a actual -> dsub a a = d0) ->
          deqb (Spec.TSS actual) (Spec.TSS actual) = true ->
          Evaluator.calculateR2 actual predicted = Ok d1)).
Proof.
  intros Ht Hd Hlen Hne. split.
  - split; [now apply predictAll_trained|].
    rewrite calculateRSquared_spec by assumption. unfold Spec.R2.
    split; [reflexivity|]. split.
    + intros E. now rewrite E.
    + intros Hp Hfin Hnum. rewrite Hp. f_equal. now apply R2_self.
  - rewrite calculateR2_spec by assumption. unfold Spec.R2.
    split; [reflexivity|]. split.
    + intros E. now rewrite E.
    + intros -> Hfin Hnum. f_equal. now apply R2_self.
Qed.

End RSquared.

(** The three facts on binary64, the last one from the specifications of
    the kernel's operations ([eqb_spec], [sub_spec], [div_spec]). *)
Lemma Float64_add_0_0 : dadd (D := float) d0 d0 = d0.
Proof. reflexivity. Qed.

Lemma Float64_mul_0_0 : dmul (D := float) d0 d0 = d0.
Proof. reflexivity. Qed.

Lemma Float64_one_minus_zero_over (t : float) :
  deqb t t = true -> deqb t d0 = false -> dsub d1 (ddiv d0 t) = d1.
Proof.
  simpl. rewrite !eqb_spec. intros Hnum Hnz.
  apply Prim2SF_inj. rewrite sub_spec, div_spec.
  change (Prim2SF 0) with (S754_zero false) in *.
  destruct (Prim2SF t) as [s|s| |s m e]; try discriminate; reflexivity.
Qed.

(** On binary64: the model trained on [Samples.basis] reproduces every
    target of that set, and so does a sequence compared with itself. *)
Lemma rSquared_correct_witness :
  LinearRegression.calculateRSquared (D := float)
    (snd (LinearRegression.train Samples.basis LinearRegression.new))
    Samples.basis = Ok 1%float
  /\ Evaluator.calculateR2 [1; 2; 4]%float [1; 2; 4]%float = Ok 1%float.
Proof.
  destruct (@rSquared_correct float Float64 Float64_add_0_0 Float64_mul_0_0
              Float64_one_minus_zero_over
              (snd (LinearRegression.train Samples.basis LinearRegression.new))
              Samples.basis [1; 2; 4]%float [1; 2; 4]%float)
    as [(_ & _ & _ & H1) (_ & _ & H2)];
    [ vm_compute; reflexivity | discriminate | reflexivity | discriminate | ].
  split.
  - apply H1; [vm_compute; reflexivity | | vm_compute; reflexivity].
    intros a Ha. vm_compute in Ha.
    repeat (destruct Ha as [<-|Ha]; [reflexivity|]). destruct Ha.
  - apply H2; [reflexivity | | vm_compute; reflexivity].
    intros a Ha. simpl in Ha.
    repeat (destruct Ha as [<-|Ha]; [reflexivity|]). destruct Ha.
Defined.

(** * Cross-validation: the folds *)

Section Folds.

Ltac next_example data := destruct data as [|? data]; [discriminate|].
Ltac no_more_examples data := destruct data; [|discriminate].

(** C1 (as the program behaves).  With [folds = 5], a 25-example dataset
    is cut into the five consecutive blocks of 5 examples, each fold being
    validated on its block and trained on the rest.  A 23-example dataset
    has [foldSize = 23 / 5 = 4]: the folds 0 to 3 take the consecutive
    blocks of 4 examples starting at 0, 4, 8 and 12, and the last fold takes
    the remaining 7 examples from position 16 on; the block sizes
    [4, 4, 4, 4, 7] add up to 23 and the blocks, put end to end, are the
    dataset. *)
Theorem crossValidate_folds (data : Dataset.t) :
  (length data = 25 ->
   LinearRegression.foldSizeOf data 5 = 5%Z
   /\ (forall fold, fold < 5 ->
         LinearRegression.splitFold data 5 (Z.of_nat fold) 5
         = Ok (firstn (5 * fold) data ++ skipn (5 * fold + 5) data,
               firstn 5 (skipn (5 * fold) data)))
   /\ exists v0 v1 v2 v3 v4,
        Spec.validSets data 5 = Ok [v0; v1; v2; v3; v4]
        /\ map (@length _) [v0; v1; v2; v3; v4] = [5; 5; 5; 5; 5]
        /\ v0 ++ v1 ++ v2 ++ v3 ++ v4 = data)
  /\ (length data = 23 ->
      LinearRegression.foldSizeOf data 5 = 4%Z
      /\ (forall fold, fold < 4 ->
            LinearRegression.splitFold data 5 (Z.of_nat fold) 4
            = Ok (firstn (4 * fold) data ++ skipn (4 * fold + 4) data,
                  firstn 4 (skipn (4 * fold) data)))
      /\ LinearRegression.splitFold data 5 4 4
         = Ok (firstn 16 data, skipn 16 data)
      /\ exists v0 v1 v2 v3 v4,
           Spec.validSets data 5 = Ok [v0; v1; v2; v3; v4]
           /\ map (@length _) [v0; v1; v2; v3; v4] = [4; 4; 4; 4; 7]
           /\ v0 ++ v1 ++ v2 ++ v3 ++ v4 = data).
Proof.
  split; intros Hlen.
  - do 25 next_example data. no_more_examples data.
    split; [reflexivity|]. split.
    + intros fold Hf.
      destruct fold as [|[|[|[|[|fold]]]]]; [ | | | | |lia]; vm_compute; reflexivity.
    + do 5 eexists. split; [vm_compute; reflexivity|]. split; reflexivity.
  - do 23 next_example data. no_more_examples data.
    split; [reflexivity|]. split; [|split].
    + intros fold Hf.
      destruct fold as [|[|[|[|fold]]]]; [ | | | |lia]; vm_compute; reflexivity.
    + vm_compute; reflexivity.
    + do 5 eexists. split; [vm_compute; reflexivity|]. split; reflexivity.
Qed.

End Folds.

Lemma crossValidate_folds_witness :
  LinearRegression.splitFold (Samples.numbered 25) 5 (Z.of_nat 2) 5
  = Ok (firstn (5 * 2) (Samples.numbered 25)
          ++ skipn (5 * 2 + 5) (Samples.numbered 25),
        firstn 5 (skipn (5 * 2) (Samples.numbered 25)))
  /\ LinearRegression.splitFold (Samples.numbered 23) 5 4 4
     = Ok (firstn 16 (Samples.numbered 23), skipn 16 (Samples.numbered 23)).
Proof.
  split.
  - destruct (crossValidate_folds (Samples.numbered 25)) as [H _].
    destruct (H eq_refl) as (_ & Hf & _). apply (Hf 2). lia.
  - destruct (crossValidate_folds (Samples.numbered 23)) as [_ H].
    destruct (H eq_refl) as (_ & _ & H4 & _). exact H4.
Defined.

(** On 23 examples the first fold validates on 4 examples, not 5, and the
    last one on 7, not 3. *)
Lemma crossValidate_folds_23_sizes :
  exists train0 valid0 train4 valid4,
    LinearRegression.splitFold (Samples.numbered 23) 5 0
      (LinearRegression.foldSizeOf (Samples.numbered 23) 5) = Ok (train0, valid0)
    /\ LinearRegression.splitFold (Samples.numbered 23) 5 4
         (LinearRegression.foldSizeOf (Samples.numbered 23) 5) = Ok (train4, valid4)
    /\ length valid0 = 4 /\ length valid0 <> 5
    /\ length valid4 = 7 /\ length valid4 <> 3.
Proof.
  do 4 eexists. split; [vm_compute; reflexivity|].
  split; [vm_compute; reflexivity|].
  simpl. repeat split; lia.
Qed.

(** * Matrix: accessors and the pivot search *)

Section MatrixShape.
Context {D : Type} {DA : Double D}.

Lemma forReturn_app (S R : Type) (l1 l2 : list nat)
      (body : nat -> S -> Result (flow S R)) (s : S) :
  forReturn (l1 ++ l2) body s
  = (f <- forReturn l1 body s ;;
     match f with
     | Continue s' => forReturn l2 body s'
     | Return r => Ok (Return r)
     end).
Proof.
  revert s; induction l1 as [|i l1 IH]; intros s; simpl; [reflexivity|].
  destruct (body i s) as [[s'|r]|e]; simpl; auto.
Qed.

(** A loop that cannot throw while an invariant of its state holds is a
    left fold, and the invariant holds of the result. *)
Lemma forM_pure_inv (S : Type) (P : S -> Prop) (l : list nat)
      (body : nat -> S -> Result S) (g : nat -> S -> S) (s : S) :
  P s ->
  (forall i s, In i l -> P s -> body i s = Ok (g i s) /\ P (g i s)) ->
  forM l body s = Ok (fold_left (fun s i => g i s) l s)
  /\ P (fold_left (fun s i => g i s) l s).
Proof.
  revert s; induction l as [|i l IH]; intros s HP H; simpl; [auto|].
  destruct (H i s) as [E HP']; [left; reflexivity|assumption|].
  rewrite E; simpl. apply IH; [assumption|].
  intros; apply H; [right|]; assumption.
Qed.

Lemma length_upd (A : Type) (n : nat) (x : A) (l : list A) :
  length (upd n x l) = length l.
Proof.
  revert n; induction l as [|h l IH]; intros [|n]; simpl; auto.
Qed.

Lemma nth_upd_same (A : Type) (n : nat) (x d : A) (l : list A) :
  n < length l -> nth n (upd n x l) d = x.
Proof.
  revert n; induction l as [|h l IH]; intros [|n] H; simpl in *; try lia; auto.
  apply IH; lia.
Qed.

Lemma nth_upd_other (A : Type) (n k : nat) (x d : A) (l : list A) :
  n <> k -> nth k (upd n x l) d = nth k l d.
Proof.
  revert n k; induction l as [|h l IH]; intros [|n] [|k] H; simpl; auto; try lia.
Qed.

Lemma get_ok (m : (Matrix.t D)) (r c : nat) :
  r < Matrix.rows m -> c < Matrix.cols m ->
  Matrix.get m r c = Ok (Matrix.cell m r c).
Proof.
  intros Hr Hc. unfold Matrix.get.
  destruct (Nat.leb_spec (Matrix.rows m) r); [lia|].
  destruct (Nat.leb_spec (Matrix.cols m) c); [lia|]. reflexivity.
Qed.

Lemma set_ok (m : (Matrix.t D)) (r c : nat) (v : D) :
  r < Matrix.rows m -> c < Matrix.cols m ->
  Matrix.set m r c v = Ok (Matrix.poke m r c v).
Proof.
  intros Hr Hc. unfold Matrix.set.
  destruct (Nat.leb_spec (Matrix.rows m) r); [lia|].
  destruct (Nat.leb_spec (Matrix.cols m) c); [lia|]. reflexivity.
Qed.

(** The pivot search cannot throw and returns the partial-pivoting choice,
    a row between [i] and [n - 1]. *)
Lemma findPivot_ok (a : (Matrix.t D)) (n c i : nat) :
  Spec.shaped a n c -> i < n -> i < c ->
  Matrix.findPivot a n i = Ok (Spec.pivotRow a n i)
  /\ i <= Spec.pivotRow a n i < n.
Proof.
  intros (Hr & Hc & _) Hi Hic. unfold Matrix.findPivot, Spec.pivotRow.
  apply (forM_pure_inv (fun maxRow => i <= maxRow < n)); [lia|].
  intros k maxRow Hk Hm. apply in_seq in Hk.
  rewrite !get_ok by lia. simpl. split; [reflexivity|].
  destruct (dltb _ _); lia.
Qed.

End MatrixShape.

(** * Partial pivoting *)

Section Pivot.
Context {D : Type} {DA : Double D}.

(** The order facts the pivot search relies on, true of exact and of
    IEEE-754 comparison (where a comparison with a NaN is false): nothing
    is below itself, and [y < z] together with [not (y < x)] excludes
    [z < x]. *)
Hypothesis lt_irrefl : forall x, dltb x x = false.
Hypothesis lt_chain :
  forall x y z, dltb y z = true -> dltb y x = false -> dltb z x = false.

Lemma scan_max (v : nat -> D) (seen : nat -> Prop) (l : list nat) (p0 : nat) :
  (forall k, seen k -> dltb (v p0) (v k) = false) ->
  forall k, seen k \/ In k l ->
    dltb (v (fold_left (fun maxRow k => if dltb (v maxRow) (v k) then k else maxRow)
                       l p0)) (v k) = false.
Proof.
  revert seen p0; induction l as [|k1 l IH]; intros seen p0 H0 k Hk; simpl.
  - destruct Hk as [Hk|[]]. now apply H0.
  - apply (IH (fun k => seen k \/ k = k1)).
    + intros k' [Hs| ->].
      * destruct (dltb (v p0) (v k1)) eqn:E; [|now apply H0].
        apply (@lt_chain _ _ _ E). now apply H0.
      * destruct (dltb (v p0) (v k1)) eqn:E; [apply lt_irrefl|assumption].
    + destruct Hk as [Hk|[Hk|Hk]]; [left; left; assumption
                                  |left; right; symmetry; assumption
                                  |right; assumption].
Qed.

(** The row chosen for column [i] has a magnitude in that column that no
    row from [i] on exceeds. *)
Lemma pivotRow_max (a : Matrix.t D) (n i k : nat) :
  i <= k < n ->
  dltb (dabs (Matrix.cell a (Spec.pivotRow a n i) i)) (dabs (Matrix.cell a k i))
  = false.
Proof.
  intros Hk. unfold Spec.pivotRow.
  apply (scan_max (fun k => dabs (Matrix.cell a k i)) (fun k => k = i)).
  - intros k' ->. apply lt_irrefl.
  - destruct (Nat.eq_dec k i) as [->|Hne]; [left; reflexivity|right].
    apply in_seq. lia.
Qed.

End Pivot.

(** ** The order facts on binary64

    From the specification of the kernel's comparison ([ltb_spec]). *)

Lemma SFltb_irrefl (x : spec_float) : SFltb x x = false.
Proof.
  unfold SFltb. destruct x as [s|s| |s m e]; simpl; try reflexivity.
  - destruct s; reflexivity.
  - destruct s; rewrite Z.compare_refl, Pos.compare_cont_refl; reflexivity.
Qed.

Lemma SFltb_chain (x y z : spec_float) :
  SFltb y z = true -> SFltb y x = false -> SFltb z x = false.
Proof.
  unfold SFltb.
  destruct x as [sx|sx| |sx mx ex], y as [sy|sy| |sy my ey], z as [sz|sz| |sz mz ez];
    try destruct sx; try destruct sy; try destruct sz; simpl; try congruence;
    try (destruct (Z.compare_spec ey ez); try congruence);
    try (destruct (Z.compare_spec ey ex); try congruence);
    try (destruct (Z.compare_spec ez ex); try congruence);
    try lia; subst;
    repeat match goal with
    | |- context [Pos.compare_cont Eq ?a ?b] =>
        change (Pos.compare_cont Eq a b) with (Pos.compare a b);
        destruct (Pos.compare_spec a b)
    end; simpl; try congruence; try lia.
Qed.

Lemma Float64_lt_irrefl (x : float) : dltb x x = false.
Proof. simpl. rewrite ltb_spec. apply SFltb_irrefl. Qed.

Lemma Float64_lt_chain (x y z : float) :
  dltb y z = true -> dltb y x = false -> dltb z x = false.
Proof. simpl. rewrite !ltb_spec. apply SFltb_chain. Qed.

(** * Matrix: entries *)

Section MatrixCells.
Context {D : Type} {DA : Double D}.

Lemma Forall_upd (A : Type) (P : A -> Prop) (n : nat) (x : A) (l : list A) :
  Forall P l -> (n < length l -> P x) -> Forall P (upd n x l).
Proof.
  revert n; induction l as [|h l IH]; intros [|n] Hl Hx; simpl; auto.
  - inversion Hl; subst. constructor; [apply Hx; simpl; lia|assumption].
  - inversion Hl; subst. constructor; [assumption|].
    apply IH; [assumption|]. intros; apply Hx; simpl; lia.
Qed.

Lemma wf_new (r c : nat) : Matrix.wf (Matrix.new (D := D) r c).
Proof.
  split; simpl; [apply repeat_length|].
  apply Forall_forall. intros x Hx. apply repeat_spec in Hx. subst.
  apply repeat_length.
Qed.

Lemma cell_new (r c i j : nat) : Matrix.cell (Matrix.new r c) i j = d0.
Proof.
  unfold Matrix.cell; simpl.
  destruct (Nat.lt_ge_cases i r) as [Hi|Hi].
  - rewrite nth_repeat_lt by assumption.
    destruct (Nat.lt_ge_cases j c) as [Hj|Hj].
    + now rewrite nth_repeat_lt.
    + apply nth_overflow. now rewrite repeat_length.
  - rewrite (nth_overflow (repeat (repeat d0 c) r) [])
      by (now rewrite repeat_length).
    now destruct j.
Qed.

Lemma wf_row (m : Matrix.t D) (r : nat) :
  Matrix.wf m -> r < Matrix.rows m ->
  length (nth r (Matrix.data m) []) = Matrix.cols m.
Proof.
  intros [Hl Hf] Hr. rewrite Forall_forall in Hf. apply Hf.
  apply nth_In. lia.
Qed.

Lemma wf_poke (m : Matrix.t D) (r c : nat) (v : D) :
  Matrix.wf m -> Matrix.wf (Matrix.poke m r c v).
Proof.
  intros Hwf. assert (Hwf' := Hwf). destruct Hwf' as [Hl Hf].
  split; simpl; [now rewrite length_upd|].
  apply Forall_upd; [assumption|]. intros Hr.
  rewrite length_upd. apply wf_row; [assumption|lia].
Qed.

Lemma cell_poke (m : Matrix.t D) (r c i j : nat) (v : D) :
  Matrix.wf m -> r < Matrix.rows m -> c < Matrix.cols m ->
  Matrix.cell (Matrix.poke m r c v) i j
  = if (i =? r) && (j =? c) then v else Matrix.cell m i j.
Proof.
  intros Hwf Hr Hc. assert (Hwf' := Hwf). destruct Hwf' as [Hl Hf].
  unfold Matrix.cell; simpl.
  destruct (Nat.eqb_spec i r) as [->|Hir]; simpl.
  - rewrite nth_upd_same by lia.
    destruct (Nat.eqb_spec j c) as [->|Hjc].
    + apply nth_upd_same. rewrite (wf_row Hwf Hr). assumption.
    + apply nth_upd_other. congruence.
  - rewrite nth_upd_other by congruence. reflexivity.
Qed.

(** A checked assignment inside the bounds, entry by entry. *)
Lemma set_spec (m : Matrix.t D) (r c : nat) (v : D) :
  Matrix.wf m -> r < Matrix.rows m -> c < Matrix.cols m ->
  exists m',
    Matrix.set m r c v = Ok m' /\ Matrix.wf m'
    /\ Matrix.rows m' = Matrix.rows m /\ Matrix.cols m' = Matrix.cols m
    /\ forall i j, Matrix.cell m' i j
                   = if (i =? r) && (j =? c) then v else Matrix.cell m i j.
Proof.
  intros Hwf Hr Hc. exists (Matrix.poke m r c v).
  split; [now apply set_ok|]. split; [now apply wf_poke|].
  split; [reflexivity|]. split; [reflexivity|].
  intros; now apply cell_poke.
Qed.

(** Two well-formed matrices with the same dimensions and entries are the
    same matrix. *)
Lemma matrix_ext (a b : Matrix.t D) :
  Matrix.wf a -> Matrix.wf b ->
  Matrix.rows a = Matrix.rows b -> Matrix.cols a = Matrix.cols b ->
  (forall i j, i < Matrix.rows a -> j < Matrix.cols a ->
               Matrix.cell a i j = Matrix.cell b i j) ->
  a = b.
Proof.
  intros Ha Hb Hr Hc Hcell.
  assert (Hd : Matrix.data a = Matrix.data b).
  { destruct Ha as [Hla Hfa], Hb as [Hlb Hfb].
    apply (nth_ext _ _ [] []); [lia|].
    intros i Hi.
    apply (nth_ext _ _ d0 d0).
    - rewrite (@wf_row a i), (@wf_row b i); [assumption| split; assumption | lia
                                            | split; assumption | lia].
    - intros j Hj. rewrite (@wf_row a i) in Hj; [|split; assumption|lia].
      apply Hcell; lia. }
  destruct a, b; simpl in *; subst; reflexivity.
Qed.

Lemma wf_table (r c : nat) (f : nat -> nat -> D) : Matrix.wf (Spec.table r c f).
Proof.
  split; simpl; [now rewrite length_map, length_seq|].
  apply Forall_forall. intros x Hx. apply in_map_iff in Hx.
  destruct Hx as (i & <- & _). now rewrite length_map, length_seq.
Qed.

Lemma cell_table (r c : nat) (f : nat -> nat -> D) (i j : nat) :
  i < r -> j < c -> Matrix.cell (Spec.table r c f) i j = f i j.
Proof.
  intros Hi Hj. unfold Matrix.cell, Spec.table; simpl.
  rewrite (nth_indep _ [] (map (fun j => f 0 j) (seq 0 c)))
    by (now rewrite length_map, length_seq).
  rewrite (map_nth (fun i => map (fun j => f i j) (seq 0 c)) (seq 0 r) 0 i).
  rewrite seq_nth by assumption. simpl.
  rewrite (nth_indep _ d0 (f i 0)) by (now rewrite length_map, length_seq).
  rewrite (map_nth (fun j => f i j) (seq 0 c) 0 j).
  now rewrite seq_nth.
Qed.

(** A loop that builds the result one row at a time, from the zero matrix,
    builds the table of the entries it writes. *)
Lemma rows_table (r c : nat) (rowbody : nat -> Matrix.t D -> Result (Matrix.t D))
      (f : nat -> nat -> D) :
  (forall i M, i < r -> Matrix.wf M -> Matrix.rows M = r -> Matrix.cols M = c ->
     (forall j, j < c -> Matrix.cell M i j = d0) ->
     exists M', rowbody i M = Ok M' /\ Matrix.wf M'
                /\ Matrix.rows M' = r /\ Matrix.cols M' = c
                /\ forall i' j', i' < r -> j' < c ->
                     Matrix.cell M' i' j'
                     = if i' =? i then f i j' else Matrix.cell M i' j') ->
  forM (seq 0 r) rowbody (Matrix.new r c) = Ok (Spec.table r c f).
Proof.
  intros Hrow.
  destruct (@forM_inv _
              (fun i M => Matrix.wf M /\ Matrix.rows M = r /\ Matrix.cols M = c
                          /\ forall i' j', i' < r -> j' < c ->
                               Matrix.cell M i' j'
                               = if i' <? i then f i' j' else d0)
              rowbody r 0 (Matrix.new r c)) as (M & E & Hwf & Hr & Hc & Hcell).
  - split; [apply wf_new|]. split; [reflexivity|]. split; [reflexivity|].
    intros; apply cell_new.
  - intros i M Hi (Hwf & Hr & Hc & Hcell).
    destruct (Hrow i M) as (M' & E' & Hwf' & Hr' & Hc' & Hcell');
      [lia|assumption|assumption|assumption| |].
    + intros j Hj. rewrite Hcell by lia. now rewrite Nat.ltb_irrefl.
    + exists M'. split; [assumption|]. split; [assumption|].
      split; [assumption|]. split; [assumption|].
      intros i' j' Hi' Hj'. rewrite Hcell' by assumption.
      destruct (Nat.eqb_spec i' i) as [->|Hne].
      * destruct (Nat.ltb_spec i (S i)); [reflexivity|lia].
      * rewrite Hcell by assumption.
        destruct (Nat.ltb_spec i' i), (Nat.ltb_spec i' (S i)); try reflexivity; lia.
  - rewrite E. f_equal.
    apply matrix_ext; [assumption|apply wf_table|assumption|assumption|].
    intros i j Hi Hj. rewrite Hcell by lia. rewrite cell_table by lia.
    simpl in *. destruct (Nat.ltb_spec i r); [reflexivity|lia].
Qed.

(** The inner loop of a fill: the entries [0 .. k - 1] of row [i]. *)
Lemma fill_row (r c k i : nat) (body : nat -> Matrix.t D -> Result (Matrix.t D))
      (g : nat -> D) (M : Matrix.t D) :
  i < r -> k <= c -> Matrix.wf M -> Matrix.rows M = r -> Matrix.cols M = c ->
  (forall j M, j < k -> Matrix.rows M = r -> Matrix.cols M = c ->
               body j M = Matrix.set M i j (g j)) ->
  exists M', forM (seq 0 k) body M = Ok M' /\ Matrix.wf M'
             /\ Matrix.rows M' = r /\ Matrix.cols M' = c
             /\ forall i' j', i' < r -> j' < c ->
                  Matrix.cell M' i' j'
                  = if (i' =? i) && (j' <? k) then g j' else Matrix.cell M i' j'.
Proof.
  intros Hi Hk Hwf Hr Hc Hbody.
  destruct (@forM_inv _
              (fun j N => Matrix.wf N /\ Matrix.rows N = r /\ Matrix.cols N = c
                          /\ forall i' j', i' < r -> j' < c ->
                               Matrix.cell N i' j'
                               = if (i' =? i) && (j' <? j) then g j'
                                 else Matrix.cell M i' j')
              body k 0 M) as (N & E & HwfN & HrN & HcN & Hcell).
  - split; [assumption|]. split; [assumption|]. split; [assumption|].
    intros i' j' _ _. now rewrite andb_false_r.
  - intros j N Hj (HwfN & HrN & HcN & Hcell).
    rewrite Hbody by (lia || assumption).
    destruct (@set_spec N i j (g j) HwfN) as (N' & E' & Hwf' & Hr' & Hc' & Hcell');
      [lia|lia|].
    exists N'. split; [assumption|]. split; [assumption|].
    split; [lia|]. split; [lia|].
    intros i' j' Hi' Hj'. rewrite Hcell', Hcell by assumption.
    destruct (Nat.eqb_spec i' i) as [->|Hne]; simpl; [|reflexivity].
    destruct (Nat.eqb_spec j' j) as [->|Hnj].
    + destruct (Nat.ltb_spec j (S j)); [reflexivity|lia].
    + destruct (Nat.ltb_spec j' j), (Nat.ltb_spec j' (S j)); try reflexivity; lia.
  - exists N. split; [assumption|]. split; [assumption|].
    split; [assumption|]. split; [assumption|]. assumption.
Qed.

(** The two nested loops that assign every entry of the result once. *)
Lemma fill_table (r c : nat)
      (body : nat -> nat -> Matrix.t D -> Result (Matrix.t D))
      (f : nat -> nat -> D) :
  (forall i j M, i < r -> j < c -> Matrix.rows M = r -> Matrix.cols M = c ->
                 body i j M = Matrix.set M i j (f i j)) ->
  forM (seq 0 r) (fun i M => forM (seq 0 c) (body i) M) (Matrix.new r c)
  = Ok (Spec.table r c f).
Proof.
  intros Hbody. apply rows_table.
  intros i M Hi Hwf Hr Hc _.
  destruct (@fill_row r c c i (body i) (f i) M Hi (Nat.le_refl c) Hwf Hr Hc)
    as (M' & E & Hwf' & Hr' & Hc' & Hcell).
  - intros j N Hj HrN HcN. now apply Hbody.
  - exists M'. split; [assumption|]. split; [assumption|].
    split; [assumption|]. split; [assumption|].
    intros i' j' Hi' Hj'. rewrite Hcell by assumption.
    destruct (Nat.ltb_spec j' c); [|lia]. now rewrite andb_true_r.
Qed.

Lemma table_ext (r c : nat) (f g : nat -> nat -> D) :
  (forall i j, i < r -> j < c -> f i j = g i j) ->
  Spec.table r c f = Spec.table r c g.
Proof.
  intros H. unfold Spec.table. f_equal.
  apply map_ext_in. intros i Hi. apply in_seq in Hi.
  apply map_ext_in. intros j Hj. apply in_seq in Hj.
  apply H; lia.
Qed.

End MatrixCells.

(** * Matrix: the row operations, entry by entry *)

Section RowOperations.
Context {D : Type} {DA : Double D}.

(** A well-formed matrix is the table of its entries. *)
Lemma table_of_cells (m : Matrix.t D) :
  Matrix.wf m -> Spec.table (Matrix.rows m) (Matrix.cols m) (Matrix.cell m) = m.
Proof.
  intros Hwf. apply matrix_ext; [apply wf_table|assumption|reflexivity..|].
  intros i j Hi Hj. simpl in Hi, Hj. now apply cell_table.
Qed.

(** The loop of a row helper: the entries [0 .. k - 1] of one row are
    reassigned, from left to right. *)
Lemma pokes_row (m : Matrix.t D) (row : nat) (h : Matrix.t D -> nat -> D)
      (g : nat -> D) (k : nat) :
  Matrix.wf m -> row < Matrix.rows m -> k <= Matrix.cols m ->
  (forall j M, j < k ->
     (forall r j', Matrix.cell M r j'
                   = if (r =? row) && (j' <? j) then g j' else Matrix.cell m r j') ->
     h M j = g j) ->
  let M' := fold_left (fun M j => Matrix.poke M row j (h M j)) (seq 0 k) m in
  Matrix.wf M' /\ Matrix.rows M' = Matrix.rows m /\ Matrix.cols M' = Matrix.cols m
  /\ forall r j', Matrix.cell M' r j'
                  = if (r =? row) && (j' <? k) then g j' else Matrix.cell m r j'.
Proof.
  intros Hwf Hrow. induction k as [|k IH]; intros Hk Hh; cbn zeta.
  - simpl. split; [assumption|]. split; [reflexivity|]. split; [reflexivity|].
    intros r j'. now rewrite andb_false_r.
  - rewrite seq_S, fold_left_app. cbn [fold_left Nat.add].
    destruct IH as (Hwf' & Hr' & Hc' & Hcell'); [lia|intros; apply Hh; [lia|assumption]|].
    set (M := fold_left _ (seq 0 k) m) in *.
    split; [now apply wf_poke|]. split; [assumption|]. split; [assumption|].
    intros r j'. rewrite cell_poke by (try assumption; lia).
    rewrite (Hh k M) by (try lia; assumption). rewrite Hcell'.
    destruct (Nat.eqb_spec r row) as [->|Hne]; simpl; [|reflexivity].
    destruct (Nat.eqb_spec j' k) as [->|Hnk].
    + destruct (Nat.ltb_spec k (S k)); [reflexivity|lia].
    + destruct (Nat.ltb_spec j' k), (Nat.ltb_spec j' (S k)); try reflexivity; lia.
Qed.

Lemma swapRows_spec (m : Matrix.t D) (i p : nat) :
  Matrix.wf m -> i < Matrix.rows m -> p < Matrix.rows m ->
  Matrix.swapRows m i p = Ok (Spec.swapped m i p).
Proof.
  intros Hwf Hi Hp. assert (Hwf' := Hwf). destruct Hwf' as [Hl Hf].
  unfold Matrix.swapRows.
  destruct (Nat.leb_spec (Matrix.rows m) i); [lia|].
  destruct (Nat.leb_spec (Matrix.rows m) p); [lia|]. cbn [orb]. f_equal.
  symmetry. apply matrix_ext; [apply wf_table| |reflexivity..|].
  - split; simpl; [now rewrite !length_upd|].
    apply Forall_upd; [apply Forall_upd; [assumption|]|];
      intros _; now apply wf_row.
  - intros r j Hr Hj. simpl in Hr, Hj. unfold Spec.swapped.
    rewrite cell_table by assumption. unfold Matrix.cell; simpl.
    destruct (Nat.eqb_spec r p) as [->|Hrp].
    + rewrite nth_upd_same by (rewrite length_upd; lia).
      destruct (Nat.eqb_spec p i) as [->|]; reflexivity.
    + rewrite nth_upd_other by lia.
      destruct (Nat.eqb_spec r i) as [->|Hri].
      * now rewrite nth_upd_same by lia.
      * now rewrite nth_upd_other by lia.
Qed.

Lemma multiplyRow_spec (m : Matrix.t D) (row : nat) (factor : D) :
  Matrix.wf m -> row < Matrix.rows m ->
  Matrix.multiplyRow m row factor
  = Ok (Spec.table (Matrix.rows m) (Matrix.cols m)
          (fun r j => if r =? row then dmul (Matrix.cell m row j) factor
                      else Matrix.cell m r j)).
Proof.
  intros Hwf Hrow. unfold Matrix.multiplyRow.
  destruct (Nat.leb_spec (Matrix.rows m) row); [lia|]. f_equal.
  destruct (@pokes_row m row (fun M j => dmul (Matrix.cell M row j) factor)
              (fun j => dmul (Matrix.cell m row j) factor) (Matrix.cols m)
              Hwf Hrow (Nat.le_refl _)) as (Hwf' & Hr' & Hc' & Hcell').
  - intros j M Hj HM. rewrite HM, Nat.eqb_refl, Nat.ltb_irrefl. reflexivity.
  - symmetry. apply matrix_ext; [apply wf_table|assumption|simpl; congruence..|].
    intros r j Hr Hj. simpl in Hr, Hj. rewrite cell_table by assumption.
    rewrite Hcell'. destruct (Nat.ltb_spec j (Matrix.cols m)); [|lia].
    now rewrite andb_true_r.
Qed.

Lemma addRowMultiple_spec (m : Matrix.t D) (src tgt : nat) (factor : D) :
  Matrix.wf m -> src < Matrix.rows m -> tgt < Matrix.rows m -> src <> tgt ->
  Matrix.addRowMultiple m src tgt factor
  = Ok (Spec.table (Matrix.rows m) (Matrix.cols m)
          (fun r j => if r =? tgt
                      then dadd (Matrix.cell m tgt j) (dmul factor (Matrix.cell m src j))
                      else Matrix.cell m r j)).
Proof.
  intros Hwf Hsrc Htgt Hne. unfold Matrix.addRowMultiple.
  destruct (Nat.leb_spec (Matrix.rows m) src); [lia|].
  destruct (Nat.leb_spec (Matrix.rows m) tgt); [lia|]. cbn [orb]. f_equal.
  destruct (@pokes_row m tgt
              (fun M j => dadd (Matrix.cell M tgt j) (dmul factor (Matrix.cell M src j)))
              (fun j => dadd (Matrix.cell m tgt j) (dmul factor (Matrix.cell m src j)))
              (Matrix.cols m) Hwf Htgt (Nat.le_refl _)) as (Hwf' & Hr' & Hc' & Hcell').
  - intros j M Hj HM. rewrite !HM, Nat.eqb_refl, Nat.ltb_irrefl.
    destruct (Nat.eqb_spec src tgt); [lia|]. reflexivity.
  - symmetry. apply matrix_ext; [apply wf_table|assumption|simpl; congruence..|].
    intros r j Hr Hj. simpl in Hr, Hj. rewrite cell_table by assumption.
    rewrite Hcell'. destruct (Nat.ltb_spec j (Matrix.cols m)); [|lia].
    now rewrite andb_true_r.
Qed.


(** The last loop of a turn of [inverse]: column [i] leaves every row but
    row [i]. *)
Lemma eliminateOthers_spec (b : Matrix.t D) (i : nat) :
  Matrix.wf b -> i < Matrix.rows b -> i < Matrix.cols b ->
  forM (seq 0 (Matrix.rows b))
       (fun k augmented =>
          if negb (k =? i) then
            factor <- Matrix.get augmented k i ;;
            Matrix.addRowMultiple augmented i k (dopp factor)
          else Ok augmented) b
  = Ok (Spec.cleared b i).
Proof.
  intros Hwf Hi Hic. set (n := Matrix.rows b). set (c := Matrix.cols b).
  set (T := fun k =>
              Spec.table n c
                (fun r j => if (r <? k) && negb (r =? i)
                            then dadd (Matrix.cell b r j)
                                      (dmul (dopp (Matrix.cell b r i)) (Matrix.cell b i j))
                            else Matrix.cell b r j)).
  destruct (@forM_inv _ (fun k M => M = T k)
              (fun k augmented =>
                 if negb (k =? i) then
                   factor <- Matrix.get augmented k i ;;
                   Matrix.addRowMultiple augmented i k (dopp factor)
                 else Ok augmented) n 0 b) as (M & E & HM).
  - rewrite <- (table_of_cells Hwf) at 1. apply table_ext.
    intros r j Hr Hj. reflexivity.
  - intros k M Hk ->. exists (T (S k)). split; [|reflexivity].
    assert (Hcell : forall r j, r < n -> j < c ->
              Matrix.cell (T k) r j
              = if (r <? k) && negb (r =? i)
                then dadd (Matrix.cell b r j)
                          (dmul (dopp (Matrix.cell b r i)) (Matrix.cell b i j))
                else Matrix.cell b r j)
      by (intros; unfold T; now rewrite cell_table).
    destruct (Nat.eqb_spec k i) as [->|Hne]; cbn [negb].
    + f_equal. apply table_ext. intros r j Hr Hj.
      destruct (Nat.eqb_spec r i) as [->|Hri]; cbn [negb];
        [now rewrite !andb_false_r|].
      rewrite !andb_true_r.
      destruct (Nat.ltb_spec r i), (Nat.ltb_spec r (S i)); try reflexivity; lia.
    + rewrite get_ok by (simpl; lia). cbn [bind].
      rewrite addRowMultiple_spec by (try apply wf_table; simpl; lia).
      f_equal. apply table_ext. intros r j Hr Hj. simpl in Hr, Hj.
      rewrite !Hcell by lia.
      rewrite Nat.ltb_irrefl, Nat.eqb_refl. cbn [andb negb].
      rewrite andb_false_r.
      destruct (Nat.eqb_spec r k) as [->|Hrk].
      * destruct (Nat.ltb_spec k (S k)); [|lia].
        destruct (Nat.eqb_spec k i); [lia|]. reflexivity.
      * destruct (Nat.ltb_spec r k), (Nat.ltb_spec r (S k)); try reflexivity; lia.
  - rewrite E. f_equal. subst M. unfold T, Spec.cleared. apply table_ext.
    intros r j Hr Hj. simpl. destruct (Nat.ltb_spec r n); [|lia].
    destruct (Nat.eqb_spec r i) as [->|]; reflexivity.
Qed.

(** The inner loop of a turn of [determinant]: column [i] leaves the rows
    below row [i]. *)
Lemma eliminateBelow_spec (b : Matrix.t D) (i : nat) :
  Matrix.wf b -> i < Matrix.rows b -> i < Matrix.cols b ->
  forM (seq (i + 1) (Matrix.rows b - (i + 1)))
       (fun k temp =>
          x <- Matrix.get temp k i ;;
          y <- Matrix.get temp i i ;;
          Matrix.addRowMultiple temp i k (dopp (ddiv x y))) b
  = Ok (Spec.eliminatedBelow b i).
Proof.
  intros Hwf Hi Hic. set (n := Matrix.rows b). set (c := Matrix.cols b).
  set (T := fun k =>
              Spec.table n c
                (fun r j => if (i <? r) && (r <? k)
                            then dadd (Matrix.cell b r j)
                                      (dmul (dopp (ddiv (Matrix.cell b r i)
                                                        (Matrix.cell b i i)))
                                            (Matrix.cell b i j))
                            else Matrix.cell b r j)).
  destruct (@forM_inv _ (fun k M => M = T k)
              (fun k temp =>
                 x <- Matrix.get temp k i ;;
                 y <- Matrix.get temp i i ;;
                 Matrix.addRowMultiple temp i k (dopp (ddiv x y)))
              (n - (i + 1)) (i + 1) b) as (M & E & HM).
  - rewrite <- (table_of_cells Hwf) at 1. apply table_ext.
    intros r j Hr Hj.
    destruct (Nat.ltb_spec i r), (Nat.ltb_spec r (i + 1)); try reflexivity; lia.
  - intros k M Hk ->. exists (T (S k)). split; [|reflexivity].
    assert (Hcell : forall r j, r < n -> j < c ->
              Matrix.cell (T k) r j
              = if (i <? r) && (r <? k)
                then dadd (Matrix.cell b r j)
                          (dmul (dopp (ddiv (Matrix.cell b r i) (Matrix.cell b i i)))
                                (Matrix.cell b i j))
                else Matrix.cell b r j)
      by (intros; unfold T; now rewrite cell_table).
    rewrite !get_ok by (simpl; lia). cbn [bind].
    rewrite addRowMultiple_spec by (try apply wf_table; simpl; lia).
    f_equal. apply table_ext. intros r j Hr Hj. simpl in Hr, Hj.
    rewrite !Hcell by lia.
    rewrite !Nat.ltb_irrefl. cbn [andb]. rewrite andb_false_r.
    destruct (Nat.eqb_spec r k) as [->|Hrk].
    + destruct (Nat.ltb_spec i k), (Nat.ltb_spec k (S k)); try reflexivity; lia.
    + destruct (Nat.ltb_spec i r), (Nat.ltb_spec r k), (Nat.ltb_spec r (S k));
        try reflexivity; lia.
  - rewrite E. f_equal. subst M. unfold T, Spec.eliminatedBelow. apply table_ext.
    intros r j Hr Hj. simpl.
    destruct (Nat.ltb_spec i r), (Nat.ltb_spec r (i + 1 + (n - (i + 1))));
      try reflexivity; lia.
Qed.


Lemma swapped_same (a : Matrix.t D) (i : nat) :
  Matrix.wf a -> Spec.swapped a i i = a.
Proof.
  intros Hwf. unfold Spec.swapped.
  transitivity (Spec.table (Matrix.rows a) (Matrix.cols a) (Matrix.cell a));
    [|now apply table_of_cells].
  apply table_ext. intros r j _ _.
  destruct (Nat.eqb_spec r i) as [->|]; reflexivity.
Qed.

(** The swap of a turn, made or skipped, leaves the pivot row in
    position [i]. *)
Lemma swap_if_needed (a : Matrix.t D) (i p : nat) :
  Matrix.wf a -> i < Matrix.rows a -> p < Matrix.rows a ->
  (if negb (p =? i) then Matrix.swapRows a i p else Ok a)
  = Ok (Spec.swapped a i p).
Proof.
  intros Hwf Hi Hp. destruct (Nat.eqb_spec p i) as [->|]; cbn [negb].
  - now rewrite swapped_same.
  - now apply swapRows_spec.
Qed.

(** A turn of the main loop of [inverse] that does not fail is one
    Gauss-Jordan step. *)
Lemma pivotStep_spec (a : Matrix.t D) (n i : nat) :
  Matrix.wf a -> Matrix.rows a = n -> i < n -> i < Matrix.cols a ->
  Spec.pivotRejected a n i = false ->
  Matrix.pivotStep n i a = Ok (Spec.gaussJordanStep a n i).
Proof.
  intros Hwf Hn Hi Hic Hb.
  assert (Hs : Spec.shaped a n (Matrix.cols a))
    by (destruct Hwf; repeat split; congruence).
  destruct (findPivot_ok Hs Hi Hic) as [Ef Hp].
  unfold Spec.pivotRejected in Hb. unfold Spec.gaussJordanStep.
  set (p := Spec.pivotRow a n i) in *.
  unfold Matrix.pivotStep. rewrite Ef; cbn [bind].
  rewrite get_ok by lia. cbn [bind]. rewrite Hb.
  rewrite swap_if_needed by (try assumption; lia). cbn [bind].
  rewrite get_ok by (simpl; lia). cbn [bind].
  rewrite multiplyRow_spec by (try apply wf_table; simpl; lia). cbn [bind].
  fold (Spec.normalized (Spec.swapped a i p) i).
  rewrite <- Hn.
  apply (@eliminateOthers_spec (Spec.normalized (Spec.swapped a i p) i) i);
    [apply wf_table|simpl; lia|simpl; lia].
Qed.

(** A turn of the loop of [determinant] that does not return is one
    elimination step; the product takes the sign change of the swap and
    the pivot. *)
Lemma detStep_spec (temp : Matrix.t D) (det : D) (n i : nat) :
  Matrix.wf temp -> Matrix.rows temp = n -> Matrix.cols temp = n -> i < n ->
  Spec.pivotRejected temp n i = false ->
  Matrix.detStep n i (temp, det)
  = Ok (Continue
          (Spec.eliminationStep temp n i,
           dmul (if negb (Spec.pivotRow temp n i =? i)
                 then dmul det (dopp d1) else det)
                (Matrix.cell temp (Spec.pivotRow temp n i) i))).
Proof.
  intros Hwf Hn Hc Hi Hb.
  assert (Hs : Spec.shaped temp n n)
    by (destruct Hwf; repeat split; congruence).
  destruct (findPivot_ok Hs Hi Hi) as [Ef Hp].
  unfold Spec.pivotRejected in Hb. unfold Spec.eliminationStep.
  set (p := Spec.pivotRow temp n i) in *.
  unfold Matrix.detStep. rewrite Ef; cbn [bind].
  rewrite get_ok by lia. cbn [bind]. rewrite Hb.
  assert (Hsw : (if negb (p =? i)
                 then temp0 <- Matrix.swapRows temp i p ;;
                      Ok (temp0, dmul det (dopp d1))
                 else Ok (temp, det))
                = Ok (Spec.swapped temp i p,
                      if negb (p =? i) then dmul det (dopp d1) else det)).
  { destruct (Nat.eqb_spec p i) as [->|]; cbn [negb].
    - now rewrite swapped_same.
    - now rewrite swapRows_spec by (try assumption; lia). }
  rewrite Hsw; cbn [bind].
  rewrite get_ok by (simpl; lia). cbn [bind].
  assert (Hpiv : Matrix.cell (Spec.swapped temp i p) i i = Matrix.cell temp p i).
  { unfold Spec.swapped. rewrite cell_table by lia. now rewrite Nat.eqb_refl. }
  rewrite Hpiv. rewrite <- Hn at 1.
  rewrite (@eliminateBelow_spec (Spec.swapped temp i p) i)
    by (try apply wf_table; simpl; lia).
  reflexivity.
Qed.

(** When the literal [1e-10] is the rounded quotient of 1 by [10^10], the
    comparison of the loops is the comparison with the tolerance of the
    specification. *)
Lemma pivotRejected_tolerance :
  d1em10 = ddiv d1 (of_int 10000000000) ->
  @Spec.pivotBelowTolerance D DA = @Spec.pivotRejected D DA.
Proof.
  intros H. unfold Spec.pivotBelowTolerance, Spec.pivotRejected.
  unfold Spec.tolerance, Matrix.EPSILON. now rewrite H.
Qed.

End RowOperations.

(** * Matrix: determinant *)

Section Determinant.
Context {D : Type} {DA : Double D}.

(** One turn of the elimination loop of [determinant]: the early return
    of [0.0], or one elimination step. *)
Lemma detStep_cases (temp : Matrix.t D) (det : D) (n i : nat) :
  Matrix.wf temp -> Matrix.rows temp = n -> Matrix.cols temp = n -> i < n ->
  (Spec.pivotRejected temp n i = true
   /\ Matrix.detStep n i (temp, det) = Ok (Return d0))
  \/ (Spec.pivotRejected temp n i = false
      /\ Matrix.detStep n i (temp, det)
         = Ok (Continue
                 (Spec.eliminationStep temp n i,
                  dmul (if negb (Spec.pivotRow temp n i =? i)
                        then dmul det (dopp d1) else det)
                       (Matrix.cell temp (Spec.pivotRow temp n i) i)))).
Proof.
  intros Hwf Hn Hc Hi.
  destruct (Spec.pivotRejected temp n i) eqn:Hb; [left|right];
    (split; [reflexivity|]).
  - assert (Hs : Spec.shaped temp n n)
      by (destruct Hwf; repeat split; congruence).
    destruct (findPivot_ok Hs Hi Hi) as [Ef Hp].
    unfold Matrix.detStep. rewrite Ef; cbn [bind].
    rewrite get_ok by lia. cbn [bind].
    unfold Spec.pivotRejected in Hb. now rewrite Hb.
  - now apply detStep_spec.
Qed.

(** The loop either reaches column [k] with a well-formed matrix of the
    same dimensions or has returned [0.0]. *)
Lemma det_run (m : Matrix.t D) (n k : nat) :
  Matrix.wf m -> Matrix.rows m = n -> Matrix.cols m = n -> k <= n ->
  (exists temp det,
      forReturn (seq 0 k) (Matrix.detStep n) (m, d1) = Ok (Continue (temp, det))
      /\ Matrix.wf temp /\ Matrix.rows temp = n /\ Matrix.cols temp = n)
  \/ forReturn (seq 0 k) (Matrix.detStep n) (m, d1) = Ok (Return d0).
Proof.
  intros Hwf Hn Hc. induction k as [|k IH]; intros Hk.
  - left. exists m, d1. split; [reflexivity|]. split; [assumption|]. split; assumption.
  - rewrite seq_S, forReturn_app.
    destruct IH as [(temp & det & E & Hwt & Hrt & Hct)|E]; [lia| |]; rewrite E;
      cbn [forReturn bind Nat.add].
    + destruct (@detStep_cases temp det n k Hwt Hrt Hct) as [[_ Es]|[_ Es]];
        [lia| |]; rewrite Es; cbn [bind].
      * right; reflexivity.
      * left. eexists; eexists; split; [reflexivity|].
        split; [apply wf_table|]. split; assumption.
    + right; reflexivity.
Qed.

(** Once the loop has returned, the later columns are not looked at. *)
Lemma forReturn_returned (S R : Type) (l1 l2 : list nat)
      (body : nat -> S -> Result (flow S R)) (s : S) (r : R) :
  forReturn l1 body s = Ok (Return r) ->
  forReturn (l1 ++ l2) body s = Ok (Return r).
Proof. intros E. now rewrite forReturn_app, E. Qed.

(** ** The receiver and the scratch copy

    While the loop of [determinant] runs, the store is the store of the
    caller followed by the scratch copy; the calls on [temp] change the
    scratch copy and nothing else. *)
Lemma load_temp (h : Matrix.store D) (t : Matrix.t D) :
  Matrix.load (h ++ [t]) (length h) = t.
Proof. unfold Matrix.load. now rewrite nth_middle. Qed.

Lemma upd_temp (h : Matrix.store D) (t t' : Matrix.t D) :
  upd (length h) t' (h ++ [t]) = h ++ [t'].
Proof. induction h as [|a h IH]; simpl; [reflexivity|]. now rewrite IH. Qed.

Lemma query_temp (A : Type) (f : Matrix.t D -> Result A)
      (h : Matrix.store D) (t : Matrix.t D) :
  Matrix.query (length h) f (h ++ [t]) = (f t, h ++ [t]).
Proof. unfold Matrix.query. now rewrite load_temp. Qed.

Lemma mutate_temp (f : Matrix.t D -> Result (Matrix.t D))
      (h : Matrix.store D) (t : Matrix.t D) :
  Matrix.mutate (length h) f (h ++ [t])
  = match f t with
    | Ok t' => (Ok tt, h ++ [t'])
    | Err e => (Err e, h ++ [t])
    end.
Proof.
  unfold Matrix.mutate. rewrite load_temp.
  destruct (f t); [now rewrite upd_temp|reflexivity].
Qed.

Lemma forOp_temp (body : nat -> Matrix.Op D unit)
      (step : nat -> Matrix.t D -> Result (Matrix.t D)) (l : list nat)
      (h : Matrix.store D) :
  (forall k t,
      body k (h ++ [t])
      = match step k t with
        | Ok t' => (Ok tt, h ++ [t'])
        | Err e => (Err e, h ++ [t])
        end) ->
  forall t,
  exists t',
    Matrix.forOp l body (h ++ [t])
    = (match forM l step t with Ok _ => Ok tt | Err e => Err e end, h ++ [t'])
    /\ forall t1, forM l step t = Ok t1 -> t' = t1.
Proof.
  intros Hbody. induction l as [|k l IH]; intros t.
  - exists t. split; [reflexivity|]. now intros t1 [= <-].
  - cbn [Matrix.forOp forM]. unfold Matrix.obind at 1. rewrite Hbody.
    destruct (step k t) as [t0|e]; cbn [bind].
    + apply IH.
    + exists t. split; [reflexivity|discriminate].
Qed.

(** A turn of the loop on the store is the turn on the scratch copy. *)
Lemma detStepAt_temp (n i : nat) (h : Matrix.store D) (t : Matrix.t D)
      (det : D) :
  exists t',
    Matrix.detStepAt n i (length h) det (h ++ [t])
    = (match Matrix.detStep n i (t, det) with
       | Ok (Continue (_, d)) => Ok (Continue d)
       | Ok (Return r) => Ok (Return r)
       | Err e => Err e
       end, h ++ [t'])
    /\ forall t1 d, Matrix.detStep n i (t, det) = Ok (Continue (t1, d)) -> t' = t1.
Proof.
  unfold Matrix.detStepAt, Matrix.detStep.
  unfold Matrix.obind at 1. rewrite query_temp.
  destruct (Matrix.findPivot t n i) as [maxRow|e]; cbn [bind];
    [|exists t; split; [reflexivity|discriminate]].
  unfold Matrix.obind at 1. rewrite query_temp.
  destruct (Matrix.get t maxRow i) as [p|e]; cbn [bind];
    [|exists t; split; [reflexivity|discriminate]].
  destruct (dltb (dabs p) Matrix.EPSILON);
    [exists t; split; [reflexivity|discriminate]|].
  unfold Matrix.obind at 1.
  assert (Hswap : exists t0,
    (if negb (maxRow =? i)
     then Matrix.obind (Matrix.mutate (length h) (fun a => Matrix.swapRows a i maxRow))
            (fun _ => Matrix.ret (dmul det (dopp d1)))
     else Matrix.ret det) (h ++ [t])
    = (match (if negb (maxRow =? i)
              then temp <- Matrix.swapRows t i maxRow ;; Ok (temp, dmul det (dopp d1))
              else Ok (t, det)) with
       | Ok (_, d) => Ok d
       | Err e => Err e
       end, h ++ [t0])
    /\ forall t1 d,
         (if negb (maxRow =? i)
          then temp <- Matrix.swapRows t i maxRow ;; Ok (temp, dmul det (dopp d1))
          else Ok (t, det)) = Ok (t1, d) -> t0 = t1).
  { destruct (negb (maxRow =? i)).
    - unfold Matrix.obind. rewrite mutate_temp.
      destruct (Matrix.swapRows t i maxRow) as [t0|e]; cbn [bind].
      + exists t0. split; [reflexivity|]. now intros t1 d [= <- _].
      + exists t. split; [reflexivity|discriminate].
    - exists t. split; [reflexivity|]. now intros t1 d [= <- _]. }
  destruct Hswap as (t0 & -> & Ht0).
  destruct (if negb (maxRow =? i)
            then temp <- Matrix.swapRows t i maxRow ;; Ok (temp, dmul det (dopp d1))
            else Ok (t, det)) as [[t0' det0]|e]; cbn [bind];
    [|exists t0; split; [reflexivity|discriminate]].
  rewrite (Ht0 t0' det0 eq_refl). clear Ht0 t0.
  unfold Matrix.obind at 1. rewrite query_temp.
  destruct (Matrix.get t0' i i) as [pivot|e]; cbn [bind];
    [|exists t0'; split; [reflexivity|discriminate]].
  unfold Matrix.obind at 1.
  destruct (@forOp_temp
              (fun k =>
                 Matrix.obind (Matrix.query (length h) (fun a => Matrix.get a k i))
                   (fun x =>
                      Matrix.obind (Matrix.query (length h) (fun a => Matrix.get a i i))
                        (fun y =>
                           Matrix.mutate (length h)
                             (fun a => Matrix.addRowMultiple a i k (dopp (ddiv x y))))))
              (fun k temp =>
                 x <- Matrix.get temp k i ;;
                 y <- Matrix.get temp i i ;;
                 Matrix.addRowMultiple temp i k (dopp (ddiv x y)))
              (seq (i + 1) (n - (i + 1))) h) with (t := t0')
    as (t2 & -> & Ht2).
  { intros k t1. unfold Matrix.obind. rewrite !query_temp.
    destruct (Matrix.get t1 k i) as [x|e]; cbn [bind]; [|reflexivity].
    destruct (Matrix.get t1 i i) as [y|e]; cbn [bind]; [|reflexivity].
    apply mutate_temp. }
  destruct (forM _ _ t0') as [t3|e]; cbn [bind].
  - exists t2. split; [reflexivity|]. intros t1 d [= <- _]. now apply Ht2.
  - exists t2. split; [reflexivity|discriminate].
Qed.

Lemma detLoopAt_temp (n : nat) (l : list nat) (h : Matrix.store D)
      (t : Matrix.t D) (det : D) :
  exists t',
    Matrix.detLoopAt n (length h) l det (h ++ [t])
    = (match forReturn l (Matrix.detStep n) (t, det) with
       | Ok (Continue (_, d)) => Ok d
       | Ok (Return r) => Ok r
       | Err e => Err e
       end, h ++ [t']).
Proof.
  revert t det. induction l as [|i l IH]; intros t det.
  - exists t. reflexivity.
  - cbn [Matrix.detLoopAt forReturn]. unfold Matrix.obind at 1.
    destruct (detStepAt_temp n i h t det) as (t' & -> & Ht').
    destruct (Matrix.detStep n i (t, det)) as [[[t1 d]|r]|e]; cbn [bind].
    + rewrite (Ht' t1 d eq_refl). apply IH.
    + exists t'. reflexivity.
    + exists t'. reflexivity.
Qed.

(** A call of [determinant] returns what the elimination on the value of
    the receiver gives and leaves the store, the receiver in it, as it
    found it. *)
Lemma determinantAt_spec (h : Matrix.store D) (this : nat) :
  Matrix.determinantAt this h = (Matrix.determinant (Matrix.load h this), h).
Proof.
  unfold Matrix.determinantAt, Matrix.determinant.
  set (m := Matrix.load h this).
  destruct (negb (Matrix.isSquare m)); [reflexivity|].
  destruct (Matrix.rows m =? 1); [reflexivity|].
  destruct (Matrix.rows m =? 2); [reflexivity|].
  unfold Matrix.obind, Matrix.construct.
  destruct (detLoopAt_temp (Matrix.rows m) (seq 0 (Matrix.rows m)) h m d1)
    as (t' & ->).
  unfold Matrix.destroy. rewrite removelast_last. unfold bind.
  now destruct (forReturn _ _ (m, d1)) as [[[t1 d]|r]|e].
Qed.

(** The order facts the pivot search relies on. *)
Hypothesis lt_irrefl : forall x, dltb x x = false.
Hypothesis lt_chain :
  forall x y z, dltb y z = true -> dltb y x = false -> dltb z x = false.

(** The literal [1e-10] denotes the quotient of 1 by [10^10], rounded. *)
Hypothesis tolerance_rounded : d1em10 = ddiv d1 (of_int 10000000000).

(** C4.  [determinant] fails with [NotSquare] on a matrix that is not
    square, returns the entry of a 1x1 matrix and [ad - bc] for a 2x2
    matrix.  On a larger square matrix the loop starts from a copy of the
    receiver and the product [1.0]; in column [i] it picks the row [p] of
    largest magnitude among the rows [i .. n - 1] (partial pivoting: no
    such row has a strictly larger magnitude in that column),
    returns exactly [0.0] (not an error) as soon as that magnitude is
    below [1e-10], and otherwise multiplies the product by [-1.0] when a
    swap is needed ([p <> i]) and then by the pivot, and goes on with the
    copy in which the pivot row is swapped into place and column [i] is
    eliminated below it; after the last column the product is the result.
    The tolerance is [Spec.tolerance], the quotient of 1 by [10^10]; that
    the literal of the code denotes it is [tolerance_rounded].  No call on
    a square matrix throws.  A call on an object of a store returns what
    the value of the receiver gives and leaves the store, the receiver in
    it, as it found it: the row operations reach the scratch copy only,
    which ends its life with the call. *)
Theorem determinant_correct (m : Matrix.t D) :
  (Matrix.rows m <> Matrix.cols m -> Matrix.determinant m = Err NotSquare)
  /\ (Matrix.rows m = 1 -> Matrix.cols m = 1 ->
      Matrix.determinant m = Ok (Matrix.cell m 0 0))
  /\ (Matrix.rows m = 2 -> Matrix.cols m = 2 ->
      Matrix.determinant m
      = Ok (dsub (dmul (Matrix.cell m 0 0) (Matrix.cell m 1 1))
                 (dmul (Matrix.cell m 0 1) (Matrix.cell m 1 0))))
  /\ (Matrix.wf m -> 3 <= Matrix.rows m -> Matrix.rows m = Matrix.cols m ->
      Spec.detReach m 0 (m, d1)
      /\ (forall i temp det,
            i < Matrix.rows m -> Spec.detReach m i (temp, det) ->
            i <= Spec.pivotRow temp (Matrix.rows m) i < Matrix.rows m
            /\ (forall k, i <= k < Matrix.rows m ->
                  dltb (dabs (Matrix.cell temp (Spec.pivotRow temp (Matrix.rows m) i) i))
                       (dabs (Matrix.cell temp k i)) = false)
            /\ (Spec.pivotBelowTolerance temp (Matrix.rows m) i = true ->
                Matrix.determinant m = Ok d0)
            /\ (Spec.pivotBelowTolerance temp (Matrix.rows m) i = false ->
                Spec.detReach m (S i)
                  (Spec.eliminationStep temp (Matrix.rows m) i,
                   dmul (if negb (Spec.pivotRow temp (Matrix.rows m) i =? i)
                         then dmul det (dopp d1) else det)
                        (Matrix.cell temp (Spec.pivotRow temp (Matrix.rows m) i) i))))
      /\ (forall temp det,
            Spec.detReach m (Matrix.rows m) (temp, det) ->
            Matrix.determinant m = Ok det)
      /\ exists v, Matrix.determinant m = Ok v)
  /\ (forall h this,
        Matrix.load h this = m ->
        Matrix.determinantAt this h = (Matrix.determinant m, h)).
Proof.
  rewrite (pivotRejected_tolerance tolerance_rounded).
  split; [|split; [|split; [|split]]].
  - intros H. unfold Matrix.determinant, Matrix.isSquare.
    apply Nat.eqb_neq in H. now rewrite H.
  - intros Hr Hc. unfold Matrix.determinant, Matrix.isSquare.
    now rewrite Hr, Hc.
  - intros Hr Hc. unfold Matrix.determinant, Matrix.isSquare.
    now rewrite Hr, Hc.
  - intros Hwf H3 Hsq. symmetry in Hsq.
    set (n := Matrix.rows m) in *.
    assert (Hdet : Matrix.determinant m
                   = (f <- forReturn (seq 0 n) (Matrix.detStep n) (m, d1) ;;
                      match f with
                      | Continue (_, det) => Ok det
                      | Return r => Ok r
                      end)).
    { unfold Matrix.determinant, Matrix.isSquare. fold n. rewrite Hsq.
      rewrite Nat.eqb_refl; simpl.
      destruct (Nat.eqb_spec n 1); [lia|].
      destruct (Nat.eqb_spec n 2); [lia|]. reflexivity. }
    split; [reflexivity|]. split; [|split].
    + intros i temp det Hi Hreach. unfold Spec.detReach in Hreach. fold n in Hreach.
      assert (Ht : Matrix.wf temp /\ Matrix.rows temp = n /\ Matrix.cols temp = n).
      { destruct (@det_run m n i Hwf eq_refl Hsq) as [(t & d & E & Ht)|E]; [lia| |];
          rewrite E in Hreach; [|discriminate].
        now inversion Hreach; subst. }
      destruct Ht as (Hwt & Hrt & Hct).
      assert (Hs : Spec.shaped temp n n)
        by (destruct Hwt; repeat split; congruence).
      destruct (findPivot_ok Hs Hi Hi) as [_ Hp]. split; [assumption|].
      split; [intros k Hk; now apply (pivotRow_max lt_irrefl lt_chain)|].
      destruct (@detStep_cases temp det n i Hwt Hrt Hct Hi) as [[Hb Es]|[Hb Es]].
      * split; [|intros Hb'; rewrite Hb in Hb'; discriminate].
        intros _. rewrite Hdet.
        replace (seq 0 n) with (seq 0 (S i) ++ seq (S i) (n - S i))
          by (rewrite <- seq_app; f_equal; lia).
        rewrite (@forReturn_returned _ _ (seq 0 (S i)) _ _ _ d0); [reflexivity|].
        rewrite seq_S, forReturn_app, Hreach; cbn [forReturn bind Nat.add].
        now rewrite Es.
      * split; [intros Hb'; rewrite Hb in Hb'; discriminate|].
        intros _. unfold Spec.detReach. fold n.
        rewrite seq_S, forReturn_app, Hreach; cbn [forReturn bind Nat.add].
        now rewrite Es.
    + intros temp det Hreach. unfold Spec.detReach in Hreach. fold n in Hreach.
      now rewrite Hdet, Hreach.
    + rewrite Hdet.
      destruct (@det_run m n n Hwf eq_refl Hsq) as [(t & d & E & _)|E]; [lia| |];
        rewrite E; simpl; eexists; reflexivity.
  - intros h this <-. apply determinantAt_spec.
Qed.

End Determinant.

(** On binary64 the literal [1e-10] is the rounded quotient of 1 by
    [10^10]. *)
Lemma Float64_tolerance_rounded :
  d1em10 (D := float) = ddiv d1 (of_int 10000000000).
Proof. vm_compute. reflexivity. Qed.

(** On binary64.  A 3x3 matrix whose first column makes the loop swap rows
    0 and 1, so that the product of the pivots [2 * 1 * 4] changes sign.
    Two matrices at the tolerance: with the largest number below [1e-10]
    as the only entry of the first column the result is [0.0], although
    no entry of the diagonal is zero; with [1e-10] itself, which is not
    below the tolerance, it is the product of the diagonal.  And a call on
    the second object of a store of two. *)
Lemma determinant_correct_witness :
  Matrix.determinant (Matrix.of_rows [[0; 1; 0]; [2; 0; 0]; [0; 0; 4]]%float)
  = Ok (-8)%float
  /\ Matrix.determinant
       (Matrix.of_rows [[0x1.b7cdfd9d7bdbap-34; 0; 0]; [0; 1; 0]; [0; 0; 1]]%float)
     = Ok 0%float
  /\ Matrix.determinant
       (Matrix.of_rows [[0x1.b7cdfd9d7bdbbp-34; 0; 0]; [0; 1; 0]; [0; 0; 1]]%float)
     = Ok 0x1.b7cdfd9d7bdbbp-34%float
  /\ Matrix.determinantAt 1
       [Matrix.of_rows [[1; 2]; [3; 4]]%float;
        Matrix.of_rows [[0; 1; 0]; [2; 0; 0]; [0; 0; 4]]%float]
     = (Ok (-8)%float,
        [Matrix.of_rows [[1; 2]; [3; 4]]%float;
         Matrix.of_rows [[0; 1; 0]; [2; 0; 0]; [0; 0; 4]]%float]).
Proof.
  pose proof (@determinant_correct float Float64 Float64_lt_irrefl
                Float64_lt_chain Float64_tolerance_rounded) as T.
  split; [|split; [|split]].
  - destruct (T (Matrix.of_rows [[0; 1; 0]; [2; 0; 0]; [0; 0; 4]]%float))
      as (_ & _ & _ & H & _).
    destruct H as (_ & _ & Hend & _);
      [ split; [reflexivity | repeat constructor] | simpl; lia | reflexivity | ].
    apply (Hend (Matrix.of_rows [[2; 0; 0]; [0; 1; 0]; [0; 0; 4]]%float)).
    vm_compute. reflexivity.
  - destruct (T (Matrix.of_rows
                   [[0x1.b7cdfd9d7bdbap-34; 0; 0]; [0; 1; 0]; [0; 0; 1]]%float))
      as (_ & _ & _ & H & _).
    destruct H as (H0 & Hstep & _);
      [ split; [reflexivity | repeat constructor] | simpl; lia | reflexivity | ].
    destruct (Hstep 0 _ _ ltac:(simpl; lia) H0) as (_ & _ & Hlow & _).
    apply Hlow. vm_compute. reflexivity.
  - destruct (T (Matrix.of_rows
                   [[0x1.b7cdfd9d7bdbbp-34; 0; 0]; [0; 1; 0]; [0; 0; 1]]%float))
      as (_ & _ & _ & H & _).
    destruct H as (_ & _ & Hend & _);
      [ split; [reflexivity | repeat constructor] | simpl; lia | reflexivity | ].
    apply (Hend (Matrix.of_rows
                   [[0x1.b7cdfd9d7bdbbp-34; 0; 0]; [0; 1; 0]; [0; 0; 1]]%float)).
    vm_compute. reflexivity.
  - destruct (T (Matrix.of_rows [[0; 1; 0]; [2; 0; 0]; [0; 0; 4]]%float))
      as (_ & _ & _ & _ & Hat).
    rewrite (Hat [Matrix.of_rows [[1; 2]; [3; 4]]%float;
                  Matrix.of_rows [[0; 1; 0]; [2; 0; 0]; [0; 0; 4]]%float]
                 1 eq_refl).
    vm_compute. reflexivity.
Defined.

(** * Matrix: inverse *)

Section Inverse.
Context {D : Type} {DA : Double D}.

Lemma forM_failed (S : Type) (l1 l2 : list nat) (body : nat -> S -> Result S)
      (s : S) (e : exn) :
  forM l1 body s = Err e -> forM (l1 ++ l2) body s = Err e.
Proof. intros E. now rewrite forM_app, E. Qed.

(** The first loop of [inverse] builds [[A | I]]. *)
Lemma augment_table (m : Matrix.t D) :
  Matrix.augment m = Ok (Spec.augmented m).
Proof.
  unfold Matrix.augment, Spec.augmented.
  set (n := Matrix.rows m). apply rows_table.
  intros i M Hi Hwf Hr Hc Hzero.
  destruct (@fill_row _ _ n (2 * n) n i
              (fun j augmented => Matrix.set augmented i j (Matrix.cell m i j))
              (fun j => Matrix.cell m i j) M Hi) as (N & E & HwfN & HrN & HcN & Hcell);
    [lia|assumption|assumption|assumption|reflexivity|].
  rewrite E; cbn [bind].
  destruct (@set_spec _ _ N i (i + n) d1 HwfN) as (N' & E' & Hwf' & Hr' & Hc' & Hcell');
    [lia|lia|].
  exists N'. split; [assumption|]. split; [assumption|].
  split; [lia|]. split; [lia|].
  intros i' j' Hi' Hj'. rewrite Hcell', Hcell by assumption.
  destruct (Nat.eqb_spec i' i) as [->|Hne]; simpl; [|reflexivity].
  destruct (Nat.ltb_spec j' n), (Nat.eqb_spec j' (i + n)); try reflexivity; try lia.
  now apply Hzero.
Qed.

(** The last loop of [inverse] copies the right half. *)
Lemma extract_table (n : nat) (a : Matrix.t D) :
  Matrix.rows a = n -> Matrix.cols a = 2 * n ->
  Matrix.extract n a = Ok (Spec.rightHalf n a).
Proof.
  intros Hr Hc. unfold Matrix.extract, Spec.rightHalf.
  apply (fill_table
           (fun i j result => v <- Matrix.get a i (j + n) ;; Matrix.set result i j v)).
  intros i j M Hi Hj _ _. rewrite get_ok by lia. reflexivity.
Qed.

(** One turn of the main loop of [inverse]: the failure, or one
    Gauss-Jordan step. *)
Lemma pivotStep_cases (a : Matrix.t D) (n i : nat) :
  Matrix.wf a -> Matrix.rows a = n -> i < n -> i < Matrix.cols a ->
  (Spec.pivotRejected a n i = true /\ Matrix.pivotStep n i a = Err Singular)
  \/ (Spec.pivotRejected a n i = false
      /\ Matrix.pivotStep n i a = Ok (Spec.gaussJordanStep a n i)).
Proof.
  intros Hwf Hn Hi Hic.
  destruct (Spec.pivotRejected a n i) eqn:Hb; [left|right];
    (split; [reflexivity|]).
  - assert (Hs : Spec.shaped a n (Matrix.cols a))
      by (destruct Hwf; repeat split; congruence).
    destruct (findPivot_ok Hs Hi Hic) as [Ef Hp].
    unfold Matrix.pivotStep. rewrite Ef; cbn [bind].
    rewrite get_ok by lia. cbn [bind].
    unfold Spec.pivotRejected in Hb. now rewrite Hb.
  - now apply pivotStep_spec.
Qed.

(** The main loop either reaches column [k] with a well-formed matrix of
    the same dimensions, or has thrown [Singular] at an earlier column. *)
Lemma inverse_run (a0 : Matrix.t D) (n k : nat) :
  Matrix.wf a0 -> Matrix.rows a0 = n -> Matrix.cols a0 = 2 * n -> k <= n ->
  (exists a, forM (seq 0 k) (Matrix.pivotStep n) a0 = Ok a
             /\ Matrix.wf a /\ Matrix.rows a = n /\ Matrix.cols a = 2 * n)
  \/ (forM (seq 0 k) (Matrix.pivotStep n) a0 = Err Singular
      /\ exists i a, i < k
                     /\ forM (seq 0 i) (Matrix.pivotStep n) a0 = Ok a
                     /\ Spec.pivotRejected a n i = true).
Proof.
  intros Hwf Hr Hc. induction k as [|k IH]; intros Hk.
  - left. exists a0. split; [reflexivity|]. split; [assumption|]. split; assumption.
  - rewrite seq_S, forM_app.
    destruct IH as [(a & E & Hwa & Hra & Hca)|(E & i & a & Hi & Ei & Hb)]; [lia| |].
    + rewrite E; cbn [forM bind Nat.add].
      destruct (@pivotStep_cases a n k Hwa Hra) as [[Hb Es]|[_ Es]];
        [lia|lia| |]; rewrite Es; cbn [bind].
      * right. split; [reflexivity|]. exists k, a. repeat split; [lia|assumption..].
      * left. eexists. split; [reflexivity|].
        split; [apply wf_table|]. split; assumption.
    + rewrite E; cbn [bind]. right. split; [reflexivity|].
      exists i, a. repeat split; [lia|assumption..].
Qed.

(** On a square matrix [inverse] either fails with [Singular] or returns
    the right half of the fully reduced augmented matrix. *)
Lemma inverse_cases (m : Matrix.t D) :
  Matrix.rows m = Matrix.cols m ->
  Matrix.inverse m = Err Singular
  \/ exists a, Spec.reduced m (Matrix.rows m) = Ok a
               /\ Spec.shaped a (Matrix.rows m) (2 * Matrix.rows m)
               /\ Matrix.inverse m = Ok (Spec.rightHalf (Matrix.rows m) a).
Proof.
  intros Hsq. set (n := Matrix.rows m).
  unfold Matrix.inverse, Matrix.isSquare, Spec.reduced.
  rewrite <- Hsq, Nat.eqb_refl, augment_table. cbn [negb bind]. fold n.
  destruct (@inverse_run (Spec.augmented m) n n (wf_table _ _ _) eq_refl eq_refl
              (Nat.le_refl n))
    as [(a & Ea & Hwa & Hra & Hca)|(Ea & _)]; rewrite Ea; cbn [bind].
  - right. exists a. split; [reflexivity|].
    split; [destruct Hwa; repeat split; congruence|].
    now apply extract_table.
  - left; reflexivity.
Qed.

(** The order facts the pivot search relies on. *)
Hypothesis lt_irrefl : forall x, dltb x x = false.
Hypothesis lt_chain :
  forall x y z, dltb y z = true -> dltb y x = false -> dltb z x = false.

(** The literal [1e-10] denotes the quotient of 1 by [10^10], rounded. *)
Hypothesis tolerance_rounded : d1em10 = ddiv d1 (of_int 10000000000).

(** C3.  [inverse] fails with [NotSquare] on every matrix that is not
    square.  On a square matrix it starts from [[A | I]] and treats the
    pivot columns in order: in column [i] it picks the row of largest
    magnitude among the rows [i .. n - 1], fails with [Singular] when
    that magnitude is below [1e-10], and otherwise makes one Gauss-Jordan
    step (swap, normalise the pivot row, eliminate the column from every
    other row).  So it fails with [Singular] exactly when the pivot of
    some column reached is below the tolerance, it fails in no other way
    (no matrix is returned then), and when all [n] columns are treated it
    returns the right half of the reduced augmented matrix.  The tolerance
    is [Spec.tolerance], the quotient of 1 by [10^10]; that the literal of
    the code denotes it is [tolerance_rounded]. *)
Theorem inverse_correct (m : Matrix.t D) :
  (Matrix.rows m <> Matrix.cols m -> Matrix.inverse m = Err NotSquare)
  /\ (Matrix.rows m = Matrix.cols m ->
      Spec.reduced m 0 = Ok (Spec.augmented m)
      /\ (forall i a,
            i < Matrix.rows m -> Spec.reduced m i = Ok a ->
            (Spec.pivotBelowTolerance a (Matrix.rows m) i = true ->
             Spec.reduced m (S i) = Err Singular)
            /\ (Spec.pivotBelowTolerance a (Matrix.rows m) i = false ->
                Spec.reduced m (S i)
                = Ok (Spec.gaussJordanStep a (Matrix.rows m) i)))
      /\ (Matrix.inverse m = Err Singular <->
          exists i a, i < Matrix.rows m /\ Spec.reduced m i = Ok a
                      /\ Spec.pivotBelowTolerance a (Matrix.rows m) i = true)
      /\ (forall i a k,
            Spec.reduced m i = Ok a -> i <= k < Matrix.rows m ->
            i <= Spec.pivotRow a (Matrix.rows m) i < Matrix.rows m
            /\ dltb (dabs (Matrix.cell a (Spec.pivotRow a (Matrix.rows m) i) i))
                    (dabs (Matrix.cell a k i)) = false)
      /\ (forall e, Matrix.inverse m = Err e -> e = Singular)
      /\ (forall a, Spec.reduced m (Matrix.rows m) = Ok a ->
                    Matrix.inverse m = Ok (Spec.rightHalf (Matrix.rows m) a))).
Proof.
  rewrite (pivotRejected_tolerance tolerance_rounded).
  split.
  - intros H. unfold Matrix.inverse, Matrix.isSquare.
    apply Nat.eqb_neq in H. now rewrite H.
  - intros Hsq. set (n := Matrix.rows m).
    assert (Hw0 : Matrix.wf (Spec.augmented m)) by apply wf_table.
    assert (Hrun := fun k => @inverse_run (Spec.augmented m) n k Hw0 eq_refl eq_refl).
    assert (Hred : forall i, Spec.reduced m i
                             = forM (seq 0 i) (Matrix.pivotStep n) (Spec.augmented m)).
    { intros i. unfold Spec.reduced. now rewrite augment_table. }
    assert (Hinv : Matrix.inverse m
                   = (a <- forM (seq 0 n) (Matrix.pivotStep n) (Spec.augmented m) ;;
                      Matrix.extract n a)).
    { unfold Matrix.inverse, Matrix.isSquare. rewrite <- Hsq, Nat.eqb_refl.
      now rewrite augment_table. }
    assert (Hshape : forall i a, i <= n -> Spec.reduced m i = Ok a ->
                       Matrix.wf a /\ Matrix.rows a = n /\ Matrix.cols a = 2 * n).
    { intros i a Hi E. rewrite Hred in E.
      destruct (Hrun i Hi) as [(a' & E' & Ha)|(E' & _)];
        rewrite E' in E; [|discriminate].
      now inversion E; subst. }
    assert (Hstep : forall i a, i < n -> Spec.reduced m i = Ok a ->
              (Spec.pivotRejected a n i = true
               /\ Spec.reduced m (S i) = Err Singular)
              \/ (Spec.pivotRejected a n i = false
                  /\ Spec.reduced m (S i) = Ok (Spec.gaussJordanStep a n i))).
    { intros i a Hi E.
      destruct (Hshape i a (Nat.lt_le_incl _ _ Hi) E) as (Hwa & Hra & Hca).
      rewrite (Hred (S i)), seq_S, forM_app, <- Hred, E. cbn [forM bind Nat.add].
      destruct (@pivotStep_cases a n i Hwa Hra) as [[Hb Es]|[Hb Es]];
        [lia|lia| |]; rewrite Es; [left|right]; split; auto. }
    split; [apply Hred|]. split; [|split; [|split; [|split]]].
    + intros i a Hi E.
      destruct (Hstep i a Hi E) as [[Hb Es]|[Hb Es]]; fold n; rewrite Hb, Es;
        split; intros; congruence.
    + split.
      * intros E. rewrite Hinv in E.
        destruct (Hrun n (Nat.le_refl n))
          as [(a & Ea & Hwa & Hra & Hca)|(_ & i & a & Hi & Ei & Hb)].
        -- rewrite Ea in E; cbn [bind] in E.
           rewrite (@extract_table n a Hra Hca) in E. discriminate.
        -- exists i, a. rewrite Hred. repeat split; assumption.
      * intros (i & a & Hi & Ei & Hb). rewrite Hinv. fold n in Hi, Hb.
        replace (seq 0 n) with (seq 0 (S i) ++ seq (S i) (n - S i))
          by (rewrite <- seq_app; f_equal; lia).
        rewrite (@forM_failed _ (seq 0 (S i)) _ _ _ Singular); [reflexivity|].
        rewrite <- Hred.
        destruct (Hstep i a Hi Ei) as [[_ Es]|[Hb' _]]; [assumption|congruence].
    + intros i a k E Hk. fold n in Hk.
      destruct (Hshape i a) as (Hwa & Hra & Hca); [lia|assumption|].
      assert (Ha : Spec.shaped a n (2 * n))
        by (destruct Hwa; repeat split; congruence).
      split; [|now apply (pivotRow_max lt_irrefl lt_chain)].
      apply (findPivot_ok Ha); lia.
    + intros e E. rewrite Hinv in E.
      destruct (Hrun n (Nat.le_refl n))
        as [(a & Ea & Hwa & Hra & Hca)|(Ea & _)]; rewrite Ea in E; cbn [bind] in E.
      * rewrite (@extract_table n a Hra Hca) in E. discriminate.
      * congruence.
    + intros a E. rewrite Hinv. rewrite Hred in E. rewrite E; cbn [bind].
      destruct (Hshape n a) as (Hwa & Hra & Hca); [lia|now rewrite Hred|].
      now apply extract_table.
Qed.

End Inverse.

(** On binary64.  The singular matrix [[1, 2], [2, 4]]: after column 0
    the second row is zero, and the pivot of column 1 is below the
    tolerance.  Two matrices at the tolerance: the largest number below
    [1e-10] as the only entry is refused although it is not zero; [1e-10]
    itself, which is not below the tolerance, is inverted. *)
Lemma inverse_correct_witness :
  Matrix.inverse (Matrix.of_rows [[1; 2]; [2; 4]]%float) = Err Singular
  /\ Matrix.inverse (Matrix.of_rows [[0x1.b7cdfd9d7bdbap-34]]%float)
     = Err Singular
  /\ Matrix.inverse (Matrix.of_rows [[0x1.b7cdfd9d7bdbbp-34]]%float)
     = Ok (Matrix.of_rows [[10000000000]]%float).
Proof.
  pose proof (@inverse_correct float Float64 Float64_lt_irrefl Float64_lt_chain
                Float64_tolerance_rounded) as T.
  split; [|split].
  - destruct (T (Matrix.of_rows [[1; 2]; [2; 4]]%float)) as [_ H].
    destruct (H eq_refl) as (_ & _ & Hiff & _).
    apply Hiff. exists 1. eexists.
    split; [simpl; lia|].
    split; vm_compute; reflexivity.
  - destruct (T (Matrix.of_rows [[0x1.b7cdfd9d7bdbap-34]]%float)) as [_ H].
    destruct (H eq_refl) as (_ & _ & Hiff & _).
    apply Hiff. exists 0. eexists.
    split; [simpl; lia|].
    split; vm_compute; reflexivity.
  - destruct (T (Matrix.of_rows [[0x1.b7cdfd9d7bdbbp-34]]%float)) as [_ H].
    destruct (H eq_refl) as (_ & _ & _ & _ & _ & Hlast).
    rewrite (Hlast (Matrix.mk [[1; 10000000000]]%float 1 2));
      vm_compute; reflexivity.
Defined.

(** The matrix of the test program, [[4, 7], [2, 6]], is inverted. *)
Example inverse_test_matrix :
  Matrix.inverse (Matrix.of_rows [[4; 7]; [2; 6]]%float)
  = Ok (Matrix.of_rows [[0x1.3333333333334p-1; -0x1.6666666666667p-1];
                        [-0x1.999999999999ap-3; 0x1.999999999999ap-2]]%float).
Proof. vm_compute. reflexivity. Qed.

(** * The matrices of the regression *)

Section RegressionMatrices.
Context {D : Type} {DA : Double D}.

Lemma fold_left_snoc (A B : Type) (f : A -> B) (l : list A) (acc : list B) :
  fold_left (fun acc x => acc ++ [f x]) l acc = acc ++ map f l.
Proof.
  revert acc; induction l as [|x l IH]; intros acc; simpl.
  - now rewrite app_nil_r.
  - rewrite IH, <- app_assoc. reflexivity.
Qed.

Lemma createDesignMatrix_table (data : Dataset.t) :
  LinearRegression.createDesignMatrix data = Ok (Spec.designMatrix data).
Proof.
  unfold LinearRegression.createDesignMatrix, Spec.designMatrix.
  apply rows_table. intros i M Hi Hwf Hr Hc _.
  rewrite (at_nth data Hi); cbn [bind].
  destruct (@fill_row _ _ (Dataset.size data) 6 6 i
              (fun j X =>
                 Matrix.set X i j
                   (nth j (DataPoint.getFeatureVector (nth i data DataPoint.default)) d0))
              (fun j => nth j (DataPoint.getFeatureVector (nth i data DataPoint.default)) d0)
              M Hi (Nat.le_refl 6) Hwf Hr Hc) as (M' & E & Hwf' & Hr' & Hc' & Hcell);
    [reflexivity|].
  exists M'. split; [assumption|]. split; [assumption|].
  split; [assumption|]. split; [assumption|].
  intros i' j' Hi' Hj'. rewrite Hcell by assumption.
  destruct (Nat.ltb_spec j' 6); [|lia]. now rewrite andb_true_r.
Qed.

Lemma createTargetVector_actuals (data : Dataset.t) :
  LinearRegression.createTargetVector data = Ok (Spec.actuals data).
Proof.
  unfold LinearRegression.createTargetVector.
  rewrite (forM_dataset data _ (fun y p => y ++ [DataPoint.getTarget p])).
  - now rewrite fold_left_snoc.
  - intros i y Hi. now rewrite (at_nth data Hi).
Qed.

Lemma columnOf_table (v : list D) :
  LinearRegression.columnOf v = Ok (Spec.column v).
Proof.
  unfold LinearRegression.columnOf, Spec.column.
  apply rows_table. intros i M Hi Hwf Hr Hc _.
  destruct (@set_spec _ _ M i 0 (nth i v d0) Hwf) as (M' & E & Hwf' & Hr' & Hc' & Hcell);
    [lia|lia|].
  exists M'. split; [assumption|]. split; [assumption|].
  split; [lia|]. split; [lia|].
  intros i' j' Hi' Hj'. rewrite Hcell.
  assert (j' = 0) by lia. subst j'. simpl. now rewrite andb_true_r.
Qed.

Lemma identity_table (n : nat) :
  Matrix.identity n = Ok (Spec.identityMatrix n).
Proof.
  unfold Matrix.identity, Spec.identityMatrix.
  apply rows_table. intros i M Hi Hwf Hr Hc Hzero.
  destruct (@set_spec _ _ M i i d1 Hwf) as (M' & E & Hwf' & Hr' & Hc' & Hcell);
    [lia|lia|].
  exists M'. split; [assumption|]. split; [assumption|].
  split; [lia|]. split; [lia|].
  intros i' j' Hi' Hj'. rewrite Hcell.
  destruct (Nat.eqb_spec i' i) as [->|Hne]; simpl; [|reflexivity].
  destruct (j' =? i); [reflexivity|]. now apply Hzero.
Qed.

Lemma scale_table (a : Matrix.t D) (x : D) :
  Matrix.scale a x = Ok (Spec.scaled a x).
Proof.
  unfold Matrix.scale, Spec.scaled.
  apply (fill_table
           (fun i j result => Matrix.set result i j (dmul (Matrix.cell a i j) x))).
  reflexivity.
Qed.

Lemma add_table (a b : Matrix.t D) :
  Matrix.rows a = Matrix.rows b -> Matrix.cols a = Matrix.cols b ->
  Matrix.add a b = Ok (Spec.plus a b).
Proof.
  intros Hr Hc. unfold Matrix.add, Spec.plus.
  rewrite Hr, Hc, !Nat.eqb_refl. cbn [negb orb]. rewrite <- Hr, <- Hc.
  apply (fill_table
           (fun i j result =>
              o <- Matrix.get b i j ;;
              Matrix.set result i j (dadd (Matrix.cell a i j) o))).
  intros i j M Hi Hj _ _. rewrite get_ok by lia. reflexivity.
Qed.

Lemma mul_table (a b : Matrix.t D) :
  Matrix.cols a = Matrix.rows b ->
  Matrix.mul a b = Ok (Spec.product a b).
Proof.
  intros Hd. unfold Matrix.mul, Spec.product.
  rewrite Hd, Nat.eqb_refl. cbn [negb]. rewrite <- Hd.
  apply (fill_table
           (fun i j result =>
              sum <- forM (seq 0 (Matrix.cols a))
                       (fun k sum =>
                          o <- Matrix.get b k j ;;
                          Ok (dadd sum (dmul (Matrix.cell a i k) o))) d0 ;;
              Matrix.set result i j sum)).
  intros i j M Hi Hj _ _.
  rewrite (forM_pure _ _
             (fun k sum => dadd sum (dmul (Matrix.cell a i k) (Matrix.cell b k j)))).
  - reflexivity.
  - intros k sum Hk. apply in_seq in Hk. rewrite get_ok by lia. reflexivity.
Qed.

(** The two nested loops of [transpose] assign every entry of the result
    once, column by column. *)
Lemma transpose_table (a : Matrix.t D) :
  Matrix.transpose a = Ok (Spec.transposed a).
Proof.
  unfold Matrix.transpose, Spec.transposed.
  set (r := Matrix.rows a). set (c := Matrix.cols a).
  destruct (@forM_inv _
              (fun i M => Matrix.wf M /\ Matrix.rows M = c /\ Matrix.cols M = r
                          /\ forall i' j', i' < c -> j' < r ->
                               Matrix.cell M i' j'
                               = if j' <? i then Matrix.cell a j' i' else d0)
              (fun i result =>
                 forM (seq 0 c)
                      (fun j result => Matrix.set result j i (Matrix.cell a i j)) result)
              r 0 (Matrix.new c r)) as (M & E & Hwf & Hr & Hc & Hcell).
  - split; [apply wf_new|]. split; [reflexivity|]. split; [reflexivity|].
    intros; apply cell_new.
  - intros i M Hi (Hwf & Hr & Hc & Hcell).
    destruct (@forM_inv _
                (fun j N => Matrix.wf N /\ Matrix.rows N = c /\ Matrix.cols N = r
                            /\ forall i' j', i' < c -> j' < r ->
                                 Matrix.cell N i' j'
                                 = if (j' =? i) && (i' <? j) then Matrix.cell a i i'
                                   else Matrix.cell M i' j')
                (fun j result => Matrix.set result j i (Matrix.cell a i j))
                c 0 M) as (N & EN & HwfN & HrN & HcN & HcellN).
    + split; [assumption|]. split; [assumption|]. split; [assumption|].
      intros i' j' _ _. now rewrite andb_false_r.
    + intros j N Hj (HwfN & HrN & HcN & HcellN).
      destruct (@set_spec _ _ N j i (Matrix.cell a i j) HwfN)
        as (N' & E' & Hwf' & Hr' & Hc' & Hcell'); [lia|lia|].
      exists N'. split; [assumption|]. split; [assumption|].
      split; [lia|]. split; [lia|].
      intros i' j' Hi' Hj'. rewrite Hcell', HcellN by assumption.
      destruct (Nat.eqb_spec j' i) as [->|Hne]; simpl;
        [|now rewrite andb_false_r].
      destruct (Nat.eqb_spec i' j) as [->|Hnj]; simpl.
      * destruct (Nat.ltb_spec j (S j)); [reflexivity|lia].
      * destruct (Nat.ltb_spec i' j), (Nat.ltb_spec i' (S j)); try reflexivity; lia.
    + exists N. split; [assumption|]. split; [assumption|].
      split; [assumption|]. split; [assumption|].
      intros i' j' Hi' Hj'. rewrite HcellN, Hcell by assumption. simpl.
      destruct (Nat.eqb_spec j' i) as [->|Hne]; simpl.
      * destruct (Nat.ltb_spec i' c); [|lia].
        destruct (Nat.ltb_spec i (S i)); [reflexivity|lia].
      * destruct (Nat.ltb_spec j' i), (Nat.ltb_spec j' (S i)); try reflexivity; lia.
  - rewrite E. f_equal.
    apply matrix_ext; [assumption|apply wf_table|assumption|assumption|].
    intros i j Hi Hj. rewrite Hcell by lia. rewrite cell_table by lia.
    simpl in *. destruct (Nat.ltb_spec j r); [reflexivity|lia].
Qed.

End RegressionMatrices.

(** * Training *)

Section Training.
Context {D : Type} {DA : Double D}.

Lemma calculateRMSE_spec (this : LinearRegression.t D) (data : Dataset.t) :
  LinearRegression.isTrained this = true ->
  LinearRegression.calculateRMSE this data
  = Ok (Spec.RMSE (Spec.actuals data) (Spec.predictions this data)).
Proof.
  intros Ht. unfold LinearRegression.calculateRMSE, LinearRegression.sumSquaredErrors.
  rewrite Ht; cbn [negb].
  rewrite (forM_dataset data _
             (fun sum p =>
                dadd sum
                     (Spec.sq (dsub (LinearRegression.predictionLoop this
                                       (DataPoint.getFeatureVector p))
                                    (DataPoint.getTarget p))))).
  2:{ intros i s Hi. rewrite (at_nth data Hi); cbn [bind].
      rewrite predictPoint_trained by assumption. reflexivity. }
  cbn [bind]. unfold Spec.RMSE, Spec.sum, Spec.actuals, Spec.predictions.
  rewrite combine_map, map_map, length_map. cbn [fst snd].
  now rewrite fold_left_add_map.
Qed.

Lemma inverse_shape (m inv : Matrix.t D) :
  Matrix.rows m = Matrix.cols m -> Matrix.inverse m = Ok inv ->
  Matrix.rows inv = Matrix.rows m /\ Matrix.cols inv = Matrix.rows m.
Proof.
  intros Hsq E.
  destruct (inverse_cases m Hsq) as [E'|(a & _ & _ & E')]; rewrite E' in E;
    [discriminate|].
  inversion E; subst. split; reflexivity.
Qed.

Lemma inverse_fails_singular (m : Matrix.t D) (e : exn) :
  Matrix.rows m = Matrix.cols m -> Matrix.inverse m = Err e -> e = Singular.
Proof.
  intros Hsq E.
  destruct (inverse_cases m Hsq) as [E'|(a & _ & _ & E')]; rewrite E' in E;
    congruence.
Qed.

(** What the two trainings compute before they touch the model:
    [theta = inverse(A) * (Xt y)] for [A = Xt X], respectively
    [A = Xt X + lambda I]. *)
Lemma normalEquation_eq (data : Dataset.t) :
  LinearRegression.normalEquation data
  = (XtX_inv <- Matrix.inverse (Spec.normalMatrix data) ;;
     Ok (Spec.product XtX_inv (Spec.momentVector data))).
Proof.
  unfold LinearRegression.normalEquation.
  rewrite createDesignMatrix_table; cbn [bind].
  rewrite createTargetVector_actuals; cbn [bind].
  rewrite columnOf_table; cbn [bind].
  rewrite transpose_table; cbn [bind].
  rewrite mul_table by reflexivity. cbn [bind].
  fold (Spec.normalMatrix data).
  destruct (Matrix.inverse (Spec.normalMatrix data)) as [inv|e] eqn:E;
    cbn [bind]; [|reflexivity].
  rewrite mul_table
    by (unfold Spec.actuals; simpl; now rewrite length_map).
  cbn [bind]. fold (Spec.momentVector data).
  destruct (@inverse_shape (Spec.normalMatrix data) inv eq_refl E) as [_ Hc].
  rewrite mul_table by (rewrite Hc; reflexivity).
  reflexivity.
Qed.

Lemma ridgeEquation_eq (data : Dataset.t) (lambda : D) :
  LinearRegression.ridgeEquation data lambda
  = (regularized_inv <- Matrix.inverse (Spec.ridgeMatrix data lambda) ;;
     Ok (Spec.product regularized_inv (Spec.momentVector data))).
Proof.
  unfold LinearRegression.ridgeEquation.
  rewrite createDesignMatrix_table; cbn [bind].
  rewrite createTargetVector_actuals; cbn [bind].
  rewrite columnOf_table; cbn [bind].
  rewrite transpose_table; cbn [bind].
  rewrite mul_table by reflexivity. cbn [bind].
  fold (Spec.normalMatrix data).
  change (Matrix.rows (Spec.normalMatrix data)) with 6.
  rewrite identity_table; cbn [bind].
  rewrite scale_table; cbn [bind].
  rewrite add_table by reflexivity. cbn [bind].
  fold (Spec.ridgeMatrix data lambda).
  destruct (Matrix.inverse (Spec.ridgeMatrix data lambda)) as [inv|e] eqn:E;
    cbn [bind]; [|reflexivity].
  rewrite mul_table
    by (unfold Spec.actuals; simpl; now rewrite length_map).
  cbn [bind]. fold (Spec.momentVector data).
  destruct (@inverse_shape (Spec.ridgeMatrix data lambda) inv eq_refl E) as [_ Hc].
  rewrite mul_table by (rewrite Hc; reflexivity).
  reflexivity.
Qed.

(** With a 6x1 [theta] the second half of a training cannot throw: it
    stores the six entries, sets the flag and records the training error. *)
Lemma storeModel_fitted (theta : Matrix.t D) (data : Dataset.t)
      (s : LinearRegression.t D) :
  Matrix.rows theta = 6 -> Matrix.cols theta = 1 ->
  LinearRegression.storeModel theta data s = (Ok true, Spec.fitted s theta data).
Proof.
  intros Hr Hc. unfold LinearRegression.storeModel.
  cbn [LinearRegression.forS seq].
  unfold LinearRegression.mbind, LinearRegression.modify, LinearRegression.lift,
    LinearRegression.read, LinearRegression.ret.
  rewrite !get_ok by lia.
  cbn [LinearRegression.set_coefficients LinearRegression.coefficients
       LinearRegression.set_isTrained LinearRegression.isTrained
       LinearRegression.trainRMSE LinearRegression.testRMSE
       LinearRegression.rSquared repeat upd].
  rewrite calculateRMSE_spec by reflexivity.
  reflexivity.
Qed.

(** The three ways a training can go. *)
Lemma train_cases (data : Dataset.t) (this : LinearRegression.t D) :
  (data = [] /\ LinearRegression.train data this = (Ok false, this))
  \/ (data <> [] /\ Matrix.inverse (Spec.normalMatrix data) = Err Singular
      /\ LinearRegression.train data this = (Ok false, this))
  \/ (data <> [] /\ exists inv,
        Matrix.inverse (Spec.normalMatrix data) = Ok inv
        /\ LinearRegression.train data this
           = (Ok true,
              Spec.fitted this (Spec.product inv (Spec.momentVector data)) data)).
Proof.
  destruct data as [|p data']; [left; split; reflexivity|right].
  set (data := p :: data').
  assert (Hne : data <> []) by discriminate.
  unfold LinearRegression.train. cbn [Dataset.empty data].
  unfold LinearRegression.try_catch, LinearRegression.mbind,
    LinearRegression.lift.
  fold data. rewrite normalEquation_eq.
  destruct (Matrix.inverse (Spec.normalMatrix data)) as [inv|e] eqn:E; cbn [bind].
  - right. split; [assumption|]. exists inv. split; [reflexivity|].
    destruct (@inverse_shape (Spec.normalMatrix data) inv eq_refl E) as [Hr _].
    now rewrite storeModel_fitted.
  - left. split; [assumption|].
    rewrite (@inverse_fails_singular (Spec.normalMatrix data) e eq_refl E).
    split; reflexivity.
Qed.

Lemma ridge_cases (data : Dataset.t) (lambda : D) (this : LinearRegression.t D) :
  (data = [] /\ LinearRegression.trainWithRegularization data lambda this
                = (Ok false, this))
  \/ (data <> [] /\ Matrix.inverse (Spec.ridgeMatrix data lambda) = Err Singular
      /\ LinearRegression.trainWithRegularization data lambda this = (Ok false, this))
  \/ (data <> [] /\ exists inv,
        Matrix.inverse (Spec.ridgeMatrix data lambda) = Ok inv
        /\ LinearRegression.trainWithRegularization data lambda this
           = (Ok true,
              Spec.fitted this (Spec.product inv (Spec.momentVector data)) data)).
Proof.
  destruct data as [|p data']; [left; split; reflexivity|right].
  set (data := p :: data').
  assert (Hne : data <> []) by discriminate.
  unfold LinearRegression.trainWithRegularization. cbn [Dataset.empty data].
  unfold LinearRegression.try_catch, LinearRegression.mbind,
    LinearRegression.lift.
  fold data. rewrite ridgeEquation_eq.
  destruct (Matrix.inverse (Spec.ridgeMatrix data lambda)) as [inv|e] eqn:E;
    cbn [bind].
  - right. split; [assumption|]. exists inv. split; [reflexivity|].
    destruct (@inverse_shape (Spec.ridgeMatrix data lambda) inv eq_refl E) as [Hr _].
    now rewrite storeModel_fitted.
  - left. split; [assumption|].
    rewrite (@inverse_fails_singular (Spec.ridgeMatrix data lambda) e eq_refl E).
    split; reflexivity.
Qed.

End Training.

(** * Failure of a training leaves the model alone *)

Section Atomicity.
Context {D : Type} {DA : Double D}.

(** C10.  [train] and [trainWithRegularization] never let an exception
    escape.  They report failure exactly when the dataset is empty or the
    matrix to invert ([Xt X], respectively [Xt X + lambda I]) is singular,
    and then the model after the call is the model before it: the flag,
    the coefficients and the recorded errors keep their values, so a
    trained model stays trained with its coefficients. *)
Theorem training_atomic (this : LinearRegression.t D) (data : Dataset.t)
        (lambda : D) :
  ((exists b, fst (LinearRegression.train data this) = Ok b)
   /\ (fst (LinearRegression.train data this) = Ok false <->
       data = [] \/ Matrix.inverse (Spec.normalMatrix data) = Err Singular)
   /\ (fst (LinearRegression.train data this) = Ok false ->
       snd (LinearRegression.train data this) = this
       /\ LinearRegression.isTrained (snd (LinearRegression.train data this))
          = LinearRegression.isTrained this
       /\ LinearRegression.coefficients (snd (LinearRegression.train data this))
          = LinearRegression.coefficients this))
  /\ ((exists b, fst (LinearRegression.trainWithRegularization data lambda this) = Ok b)
      /\ (fst (LinearRegression.trainWithRegularization data lambda this) = Ok false <->
          data = []
          \/ Matrix.inverse (Spec.ridgeMatrix data lambda) = Err Singular)
      /\ (fst (LinearRegression.trainWithRegularization data lambda this) = Ok false ->
          snd (LinearRegression.trainWithRegularization data lambda this) = this
          /\ LinearRegression.isTrained
               (snd (LinearRegression.trainWithRegularization data lambda this))
             = LinearRegression.isTrained this
          /\ LinearRegression.coefficients
               (snd (LinearRegression.trainWithRegularization data lambda this))
             = LinearRegression.coefficients this)).
Proof.
  split.
  - destruct (train_cases data this)
      as [[He E]|[(Hne & Hs & E)|(Hne & inv & Hi & E)]]; rewrite E; cbn [fst snd].
    + split; [eexists; reflexivity|]. split; [tauto|]. now repeat split.
    + split; [eexists; reflexivity|]. split; [tauto|]. now repeat split.
    + split; [eexists; reflexivity|]. split; [|discriminate].
      split; [discriminate|]. intros [He|Hs]; [contradiction|congruence].
  - destruct (ridge_cases data lambda this)
      as [[He E]|[(Hne & Hs & E)|(Hne & inv & Hi & E)]]; rewrite E; cbn [fst snd].
    + split; [eexists; reflexivity|]. split; [tauto|]. now repeat split.
    + split; [eexists; reflexivity|]. split; [tauto|]. now repeat split.
    + split; [eexists; reflexivity|]. split; [|discriminate].
      split; [discriminate|]. intros [He|Hs]; [contradiction|congruence].
Qed.

End Atomicity.

(** On binary64: the model trained on [Samples.seven] is then trained on
    the three examples of [Samples.three]; the second training fails and
    the model is the one the first training left. *)
Lemma training_atomic_witness :
  LinearRegression.train Samples.three
    (snd (LinearRegression.train (D := float) Samples.seven LinearRegression.new))
  = (Ok false,
     snd (LinearRegression.train (D := float) Samples.seven LinearRegression.new)).
Proof.
  destruct (@training_atomic float Float64
              (snd (LinearRegression.train Samples.seven LinearRegression.new))
              Samples.three 0%float) as [(_ & _ & H) _].
  assert (E : fst (LinearRegression.train Samples.three
                     (snd (LinearRegression.train (D := float) Samples.seven
                             LinearRegression.new))) = Ok false)
    by (vm_compute; reflexivity).
  destruct (H E) as [Hs _].
  rewrite (surjective_pairing (LinearRegression.train Samples.three _)).
  now rewrite E, Hs.
Defined.

(** * Prediction is the dot product *)

Section Dot.
Context {D : Type} {DA : Double D}.

(** Every model has six coefficients. *)
Lemma reachable_coefficients (this : LinearRegression.t D) :
  Spec.reachable this -> length (LinearRegression.coefficients this) = 6.
Proof.
  induction 1 as [|this data _ IH|this data lambda _ IH].
  - reflexivity.
  - destruct (train_cases data this)
      as [[_ E]|[(_ & _ & E)|(_ & inv & _ & E)]]; rewrite E; cbn [snd];
      [assumption|assumption|reflexivity].
  - destruct (ridge_cases data lambda this)
      as [[_ E]|[(_ & _ & E)|(_ & inv & _ & E)]]; rewrite E; cbn [snd];
      [assumption|assumption|reflexivity].
Qed.

(** C6.  On a trained model, [predict] applied to six features returns
    the sum, accumulated from [0.0] in the order of the features, of the
    products [coefficient_i * feature_i]; nothing else is added. *)
Theorem predict_dot (this : LinearRegression.t D) (features : list D) :
  Spec.reachable this -> LinearRegression.isTrained this = true ->
  length features = 6 ->
  LinearRegression.predict this features
  = Ok (Spec.dot (LinearRegression.coefficients this) features)
  /\ exists c0 c1 c2 c3 c4 c5 f0 f1 f2 f3 f4 f5,
       LinearRegression.coefficients this = [c0; c1; c2; c3; c4; c5]
       /\ features = [f0; f1; f2; f3; f4; f5]
       /\ LinearRegression.predict this features
          = Ok (dadd (dadd (dadd (dadd (dadd (dadd d0 (dmul c0 f0)) (dmul c1 f1))
                                       (dmul c2 f2)) (dmul c3 f3)) (dmul c4 f4))
                     (dmul c5 f5)).
Proof.
  intros Hreach Ht Hlen.
  pose proof (reachable_coefficients Hreach) as Hc.
  rewrite predict_trained by assumption.
  unfold LinearRegression.predictionLoop.
  destruct (LinearRegression.coefficients this)
    as [|c0 [|c1 [|c2 [|c3 [|c4 [|c5 [|]]]]]]]; try discriminate.
  destruct features as [|f0 [|f1 [|f2 [|f3 [|f4 [|f5 [|]]]]]]]; try discriminate.
  split; [reflexivity|].
  exists c0, c1, c2, c3, c4, c5, f0, f1, f2, f3, f4, f5.
  repeat split; reflexivity.
Qed.

End Dot.

(** On binary64, with the model trained on [Samples.seven]. *)
Lemma predict_dot_witness :
  LinearRegression.predict
    (snd (LinearRegression.train (D := float) Samples.seven LinearRegression.new))
    [1; 2; 3; 4; 5; 6]%float
  = Ok (Spec.dot
          (LinearRegression.coefficients
             (snd (LinearRegression.train (D := float) Samples.seven
                     LinearRegression.new)))
          [1; 2; 3; 4; 5; 6]%float).
Proof.
  apply (@predict_dot float Float64
           (snd (LinearRegression.train Samples.seven LinearRegression.new))
           [1; 2; 3; 4; 5; 6]%float).
  - apply Spec.reach_train, Spec.reach_new.
  - vm_compute; reflexivity.
  - reflexivity.
Defined.

(** * Ridge training with [lambda = 0.0] *)

Section RidgeZero.
Context {D : Type} {DA : Double D}.

(** The arithmetic the degenerate case rests on, true of exact arithmetic
    and of IEEE-754 in the default rounding mode: [0.0 + 0.0], [1.0 * 0.0]
    and [0.0 * 0.0] are [0.0]; and a sum whose left operand is unchanged by
    adding [0.0] (it is not [-0.0]) is itself unchanged by adding [0.0]. *)
Hypothesis add_0_0 : dadd d0 d0 = d0.
Hypothesis mul_1_0 : dmul d1 d0 = d0.
Hypothesis mul_0_0 : dmul d0 d0 = d0.
Hypothesis add_0_keeps :
  forall s p, dadd s d0 = s -> dadd (dadd s p) d0 = dadd s p.

(** An accumulation that starts from [0.0] is unchanged by adding [0.0]. *)
Lemma accumulated_add_0 (A : Type) (f : A -> D) (l : list A) (s : D) :
  dadd s d0 = s ->
  dadd (fold_left (fun sum k => dadd sum (f k)) l s) d0
  = fold_left (fun sum k => dadd sum (f k)) l s.
Proof.
  revert s; induction l as [|k l IH]; intros s Hs; simpl; [assumption|].
  apply IH. now apply add_0_keeps.
Qed.

(** [Xt X + 0.0 * I] is [Xt X]. *)
Lemma ridgeMatrix_zero (data : Dataset.t) :
  Spec.ridgeMatrix data d0 = Spec.normalMatrix data.
Proof.
  unfold Spec.ridgeMatrix, Spec.plus.
  change (Matrix.rows (Spec.normalMatrix data)) with 6.
  change (Matrix.cols (Spec.normalMatrix data)) with 6.
  unfold Spec.normalMatrix at 2, Spec.product.
  change (Matrix.rows (Spec.transposed (Spec.designMatrix data))) with 6.
  change (Matrix.cols (Spec.designMatrix data)) with 6.
  apply table_ext. intros i j Hi Hj.
  unfold Spec.normalMatrix, Spec.product, Spec.scaled, Spec.identityMatrix.
  rewrite !cell_table by (simpl; lia).
  replace (dmul (if j =? i then d1 else d0) d0) with d0
    by (destruct (j =? i); symmetry; assumption).
  now apply accumulated_add_0.
Qed.

(** C5.  With [lambda = 0.0], [trainWithRegularization] gives the outcome
    and the model that [train] gives on the same dataset: the same success
    or failure and, on success, the same coefficient vector. *)
Theorem ridge_zero_is_ordinary (this : LinearRegression.t D) (data : Dataset.t) :
  LinearRegression.trainWithRegularization data d0 this
  = LinearRegression.train data this
  /\ fst (LinearRegression.trainWithRegularization data d0 this)
     = fst (LinearRegression.train data this)
  /\ LinearRegression.coefficients
       (snd (LinearRegression.trainWithRegularization data d0 this))
     = LinearRegression.coefficients (snd (LinearRegression.train data this)).
Proof.
  assert (E : LinearRegression.trainWithRegularization data d0 this
              = LinearRegression.train data this).
  { unfold LinearRegression.trainWithRegularization, LinearRegression.train.
    destruct (Dataset.empty data); [reflexivity|].
    unfold LinearRegression.try_catch, LinearRegression.mbind,
      LinearRegression.lift.
    now rewrite ridgeEquation_eq, normalEquation_eq, ridgeMatrix_zero. }
  rewrite E. repeat split; reflexivity.
Qed.

End RidgeZero.

(** ** The four facts on binary64

    The first three by evaluation.  The last one from the specification of
    the kernel's addition ([add_spec]) and the validity of every float
    ([Prim2SF_valid]): rounding a non-zero sum of two floats never gives a
    zero, so a sum is [-0.0] only when both operands are. *)

Section NoNegativeZero.
Local Open Scope Z_scope.

Lemma shr_1_lower (mrs : shr_record) (k : Z) :
  0 <= k -> 2 ^ (k + 1) <= shr_m mrs -> 2 ^ k <= shr_m (shr_1 mrs).
Proof.
  intros Hk. rewrite Z.pow_add_r, Z.pow_1_r by lia.
  assert (0 < 2 ^ k) by (apply Z.pow_pos_nonneg; lia).
  destruct mrs as [m r s]. simpl.
  destruct m as [|[p|p|]|[p|p|]]; simpl; lia.
Qed.

Lemma iter_shr_1_lower (n : positive) :
  forall (mrs : shr_record) (k : Z),
    0 <= k -> 2 ^ (k + Z.pos n) <= shr_m mrs ->
    2 ^ k <= shr_m (iter_pos shr_1 n mrs).
Proof.
  induction n as [n IH|n IH|]; intros mrs k Hk H; simpl.
  - apply IH; [assumption|]. apply IH; [lia|].
    apply shr_1_lower; [lia|].
    replace (k + Z.pos n + Z.pos n + 1) with (k + Z.pos n~1) by lia. assumption.
  - apply IH; [assumption|]. apply IH; [lia|].
    replace (k + Z.pos n + Z.pos n) with (k + Z.pos n~0) by lia. assumption.
  - now apply shr_1_lower.
Qed.

Lemma digits2_pos_lower (p : positive) :
  2 ^ (Z.pos (digits2_pos p) - 1) <= Z.pos p.
Proof.
  induction p as [p IH|p IH|]; simpl digits2_pos.
  - rewrite Pos2Z.inj_succ.
    replace (Z.succ (Z.pos (digits2_pos p)) - 1) with (Z.pos (digits2_pos p) - 1 + 1) by lia.
    rewrite Z.pow_add_r, Z.pow_1_r by lia. lia.
  - rewrite Pos2Z.inj_succ.
    replace (Z.succ (Z.pos (digits2_pos p)) - 1) with (Z.pos (digits2_pos p) - 1 + 1) by lia.
    rewrite Z.pow_add_r, Z.pow_1_r by lia. lia.
  - simpl. lia.
Qed.

Lemma fexp_lower (e : Z) : emin <= fexp prec emax e.
Proof. unfold fexp. apply Z.le_max_r. Qed.

(** Shifting a positive mantissa to its format exponent leaves it positive
    when the exponent is at least [emin]. *)
Lemma shr_fexp_pos (m : positive) (e : Z) (l : location) :
  emin <= e ->
  1 <= shr_m (fst (shr_fexp prec emax (Z.pos m) e l))
  /\ emin <= snd (shr_fexp prec emax (Z.pos m) e l).
Proof.
  intros He. unfold shr_fexp, shr. simpl Zdigits2.
  assert (Hm : shr_m (shr_record_of_loc (Z.pos m) l) = Z.pos m)
    by (destruct l as [|[| |]]; reflexivity).
  pose proof (fexp_lower (Z.pos (digits2_pos m) + e)) as Hf.
  destruct (fexp prec emax (Z.pos (digits2_pos m) + e) - e) as [|n|n] eqn:En;
    simpl fst; simpl snd.
  - rewrite Hm. lia.
  - split; [|lia].
    change 1 with (2 ^ 0). apply iter_shr_1_lower; [lia|]. rewrite Hm.
    pose proof (digits2_pos_lower m) as Hd.
    apply Z.le_trans with (2 ^ (Z.pos (digits2_pos m) - 1)); [|assumption].
    apply Z.pow_le_mono_r; [lia|].
    assert (0 < prec) by reflexivity. unfold fexp in En. lia.
  - rewrite Hm. lia.
Qed.

Lemma round_nearest_even_lower (m : Z) (l : location) :
  m <= round_nearest_even m l.
Proof.
  unfold round_nearest_even. destruct l as [|[| |]]; try lia.
  destruct (Z.even m); lia.
Qed.

Lemma binary_round_aux_nonzero (sx : bool) (m : positive) (e : Z) (l : location) :
  emin <= e -> nonzero_number (binary_round_aux prec emax sx (Z.pos m) e l) = true.
Proof.
  intros He. unfold binary_round_aux.
  destruct (@shr_fexp_pos m e l He) as [H1 H2].
  destruct (shr_fexp prec emax (Z.pos m) e l) as [mrs' e']. simpl in H1, H2.
  pose proof (round_nearest_even_lower (shr_m mrs') (loc_of_shr_record mrs')) as Hr.
  destruct (round_nearest_even (shr_m mrs') (loc_of_shr_record mrs')) as [|q|q];
    try lia.
  destruct (@shr_fexp_pos q e' loc_Exact H2) as [H3 _].
  destruct (shr_fexp prec emax (Z.pos q) e' loc_Exact) as [mrs'' e'']. simpl in H3.
  destruct (shr_m mrs''); try lia.
  destruct (_ <=? _); reflexivity.
Qed.

Lemma binary_round_nonzero (sx : bool) (m : positive) (e : Z) :
  emin <= e -> nonzero_number (binary_round prec emax sx m e) = true.
Proof.
  intros He. unfold binary_round, shl_align.
  pose proof (fexp_lower (Z.pos (digits2_pos m) + e)) as Hf.
  destruct (fexp prec emax (Z.pos (digits2_pos m) + e) - e) as [|d|d] eqn:Ed;
    apply binary_round_aux_nonzero; lia.
Qed.

Lemma valid_finite_exponent (s : bool) (m : positive) (e : Z) :
  valid_binary (S754_finite s m e) = true -> emin <= e.
Proof.
  simpl. unfold bounded, canonical_mantissa. intros H.
  apply andb_prop in H. destruct H as [H _]. apply Z.eqb_eq in H.
  rewrite <- H. apply fexp_lower.
Qed.

(** A sum of two binary64 values is [-0.0] only when both are. *)
Lemma SFadd_negzero (x y : spec_float) :
  valid_binary x = true -> valid_binary y = true ->
  SFadd prec emax x y = S754_zero true ->
  x = S754_zero true.
Proof.
  intros Hx Hy.
  destruct x as [sx|sx| |sx mx ex], y as [sy|sy| |sy my ey];
    try destruct sx; try destruct sy; cbn [SFadd]; try congruence.
  all: apply valid_finite_exponent in Hx, Hy.
  all: match goal with
       | |- binary_normalize _ _ ?M ?E _ = _ -> _ =>
           assert (HE : emin <= E) by (apply Z.min_glb; assumption);
           destruct M as [|p|p]; cbn [binary_normalize]; [discriminate| |];
           intros H;
           pose proof (@binary_round_nonzero false p E HE) as N1;
           pose proof (@binary_round_nonzero true p E HE) as N2;
           rewrite H in *; discriminate
       end.
Qed.

End NoNegativeZero.

Lemma Float64_mul_1_0 : dmul (D := float) d1 d0 = d0.
Proof. reflexivity. Qed.

Lemma Float64_add_0_keeps (s p : float) :
  dadd s d0 = s -> dadd (dadd s p) d0 = dadd s p.
Proof.
  simpl. intros Hs. apply Prim2SF_inj. rewrite !add_spec.
  change (Prim2SF 0) with (S754_zero false).
  assert (Hx : Prim2SF s <> S754_zero true).
  { intros E. apply (f_equal Prim2SF) in Hs. rewrite add_spec, E in Hs.
    discriminate. }
  assert (Hz : SF64add (Prim2SF s) (Prim2SF p) <> S754_zero true).
  { intros E. apply Hx.
    apply (@SFadd_negzero (Prim2SF s) (Prim2SF p));
      [apply Prim2SF_valid|apply Prim2SF_valid|assumption]. }
  destruct (SF64add (Prim2SF s) (Prim2SF p)) as [[|]| | |]; try reflexivity.
  congruence.
Qed.

(** On binary64, on seven examples: both trainings succeed and leave the
    same model. *)
Lemma ridge_zero_is_ordinary_witness :
  LinearRegression.trainWithRegularization (D := float) Samples.seven d0
    LinearRegression.new
  = LinearRegression.train Samples.seven LinearRegression.new
  /\ fst (LinearRegression.train (D := float) Samples.seven LinearRegression.new)
     = Ok true.
Proof.
  split.
  - apply (@ridge_zero_is_ordinary float Float64 Float64_add_0_0 Float64_mul_1_0
             Float64_mul_0_0 Float64_add_0_keeps LinearRegression.new Samples.seven).
  - vm_compute. reflexivity.
Defined.

(** In exact arithmetic the two trainings recover the coefficients the
    targets of [Samples.seven] were made with. *)
Example ridge_zero_exact :
  LinearRegression.trainWithRegularization (D := Q) Samples.seven d0
    LinearRegression.new
  = LinearRegression.train Samples.seven LinearRegression.new
  /\ LinearRegression.coefficients
       (snd (LinearRegression.train (D := Q) Samples.seven LinearRegression.new))
     = [2; 3; 4; 5; 6; 7]%Q.
Proof. split; vm_compute; reflexivity. Qed.

(** * Cross-validation: the result *)

Section CrossValidation.
Context {D : Type} {DA : Double D}.

Lemma fold_left_app_flat_map (A B : Type) (c : A -> list B) (l : list A)
      (acc : list B) :
  fold_left (fun acc x => acc ++ c x) l acc = acc ++ flat_map c l.
Proof.
  revert acc; induction l as [|x l IH]; intros acc; simpl.
  - now rewrite app_nil_r.
  - rewrite IH, <- app_assoc. reflexivity.
Qed.

(** The inner loop cannot throw. *)
Lemma splitFold_ok (data : Dataset.t) (folds fold foldSize : Z) :
  exists trainSet validSet,
    LinearRegression.splitFold data folds fold foldSize = Ok (trainSet, validSet).
Proof.
  unfold LinearRegression.splitFold.
  rewrite (forM_pure _ _
             (fun i (sets : Dataset.t * Dataset.t) =>
                let '(trainSet, validSet) := sets in
                if LinearRegression.inValidSet folds fold foldSize (Z.of_nat i)
                then (trainSet,
                      Dataset.addDataPoint validSet (nth i data DataPoint.default))
                else (Dataset.addDataPoint trainSet (nth i data DataPoint.default),
                      validSet))).
  - destruct (fold_left _ _ _) as [tr va]. now exists tr, va.
  - intros i [tr va] Hi. apply in_seq in Hi.
    rewrite at_nth by (unfold Dataset.size in Hi; lia). cbn [bind].
    destruct (LinearRegression.inValidSet _ _ _ _); reflexivity.
Qed.

(** One turn of the loop over the folds: a failed training adds nothing to
    the recorded errors, a successful one adds its RMSE on the held-out
    fold; no exception. *)
Lemma foldStep_spec (data : Dataset.t) (folds : Z) (fold : nat) (acc : list D) :
  LinearRegression.foldStep data folds (LinearRegression.foldSizeOf data folds)
    fold acc
  = Ok (acc ++ Spec.foldRMSE data folds fold).
Proof.
  unfold LinearRegression.foldStep, Spec.foldRMSE.
  destruct (splitFold_ok data folds (Z.of_nat fold)
              (LinearRegression.foldSizeOf data folds)) as (tr & va & E).
  rewrite E; cbn [bind].
  destruct (train_cases tr LinearRegression.new)
    as [[_ Et]|[(_ & _ & Et)|(_ & inv & _ & Et)]]; rewrite Et.
  - now rewrite app_nil_r.
  - now rewrite app_nil_r.
  - now rewrite calculateRMSE_spec by reflexivity.
Qed.

Lemma crossValidate_spec (this : LinearRegression.t D) (data : Dataset.t)
      (folds : Z) :
  (1 <= folds <= Z.of_nat (length data))%Z -> (folds < 2 ^ 31)%Z ->
  LinearRegression.crossValidate this data folds
  = Ok (match Spec.foldRMSEs data folds with
        | [] => dopp d1
        | _ :: _ => Spec.mean (Spec.foldRMSEs data folds)
        end).
Proof.
  intros Hf Hint. unfold LinearRegression.crossValidate.
  assert (Hs : LinearRegression.to_size_t folds = folds).
  { unfold LinearRegression.to_size_t. apply Z.mod_small. lia. }
  rewrite Hs. unfold Dataset.size.
  destruct (Z.ltb_spec (Z.of_nat (length data)) folds); [lia|].
  destruct (Z.eqb_spec folds 0); [lia|].
  rewrite (forM_pure _ _ (fun fold acc => acc ++ Spec.foldRMSE data folds fold))
    by (intros; apply foldStep_spec).
  cbn [bind]. rewrite fold_left_app_flat_map. cbn [app].
  fold (Spec.foldRMSEs data folds).
  destruct (Spec.foldRMSEs data folds); reflexivity.
Qed.

(** The sign facts the sentinel rests on, true of exact arithmetic and of
    IEEE-754: [0.0 < 0.0] is false and [-1.0 < 0.0] is true; a square
    root is never below zero; the sum of two numbers that are not below
    zero is not below zero, and neither is such a number divided by a
    positive count. *)
Hypothesis zero_not_neg : dltb d0 d0 = false.
Hypothesis minus_one_neg : dltb (dopp d1) d0 = true.
Hypothesis sqrt_not_neg : forall x, dltb (dsqrt x) d0 = false.
Hypothesis add_not_neg :
  forall x y, dltb x d0 = false -> dltb y d0 = false -> dltb (dadd x y) d0 = false.
Hypothesis div_count_not_neg :
  forall x n, dltb x d0 = false -> dltb (ddiv x (of_size (S n))) d0 = false.


Lemma sum_not_neg (l : list D) (s : D) :
  dltb s d0 = false -> (forall r, In r l -> dltb r d0 = false) ->
  dltb (fold_left dadd l s) d0 = false.
Proof.
  revert s; induction l as [|x l IH]; intros s Hs Hl; simpl; [assumption|].
  apply IH.
  - apply add_not_neg; [assumption|]. apply Hl; left; reflexivity.
  - intros; apply Hl; right; assumption.
Qed.



End CrossValidation.

(** ** The sign facts on binary64

    From the specifications of the kernel's operations ([ltb_spec],
    [sqrt_spec], [add_spec], [div_spec], [of_uint63_spec]). *)

Lemma SFltb_zero (f : spec_float) :
  SFltb f (S754_zero false) = negb (signless f).
Proof. destruct f as [s|s| |s m e]; try destruct s; reflexivity. Qed.

Lemma positive_signless (f : spec_float) :
  positive_sign f = true -> signless f = true.
Proof. destruct f as [s|s| |s m e]; simpl; auto. Qed.

Lemma binary_round_aux_sign (mx ex : Z) (lx : location) :
  positive_sign (binary_round_aux prec emax false mx ex lx) = true.
Proof.
  unfold binary_round_aux.
  destruct (shr_fexp prec emax mx ex lx) as [mrs' e'].
  destruct (shr_fexp prec emax _ e' loc_Exact) as [mrs'' e''].
  destruct (shr_m mrs''); [reflexivity| |reflexivity].
  destruct (_ <=? _)%Z; reflexivity.
Qed.

Lemma binary_round_sign (m : positive) (e : Z) :
  positive_sign (binary_round prec emax false m e) = true.
Proof.
  unfold binary_round.
  destruct (shl_align _ _ _) as [mz ez]. apply binary_round_aux_sign.
Qed.

Lemma binary_normalize_sign (m e : Z) :
  (0 <= m)%Z -> positive_sign (binary_normalize prec emax m e false) = true.
Proof.
  intros Hm. destruct m as [|p|p]; [reflexivity| |lia].
  apply binary_round_sign.
Qed.

Lemma SFsqrt_signless (f : spec_float) : signless (SFsqrt prec emax f) = true.
Proof.
  destruct f as [s|s| |s m e]; try destruct s; try reflexivity.
  unfold SFsqrt. destruct (SFsqrt_core_binary _ _ _ _) as [[mz ez] lz].
  apply positive_signless, binary_round_aux_sign.
Qed.

Lemma SFadd_signless (x y : spec_float) :
  signless x = true -> signless y = true ->
  signless (SFadd prec emax x y) = true.
Proof.
  destruct x as [sx|sx| |sx mx ex], y as [sy|sy| |sy my ey];
    try destruct sx; try destruct sy; simpl; try congruence; intros _ _.
  apply positive_signless, binary_round_sign.
Qed.

Lemma SFdiv_signless (x y : spec_float) :
  signless x = true -> positive_sign y = true ->
  signless (SFdiv prec emax x y) = true.
Proof.
  destruct x as [sx|sx| |sx mx ex], y as [sy|sy| |sy my ey];
    try destruct sx; try destruct sy; simpl; try congruence; intros _ _.
  destruct (SFdiv_core_binary _ _ _ _ _ _) as [[mz ez] lz].
  apply positive_signless, binary_round_aux_sign.
Qed.

Lemma Float64_not_neg (x : float) : dltb x d0 = negb (signless (Prim2SF x)).
Proof. simpl. rewrite ltb_spec. apply SFltb_zero. Qed.

Lemma Float64_zero_not_neg : dltb (D := float) d0 d0 = false.
Proof. reflexivity. Qed.


Lemma Float64_sqrt_not_neg (x : float) : dltb (dsqrt x) d0 = false.
Proof.
  rewrite Float64_not_neg. simpl. rewrite sqrt_spec.
  unfold SF64sqrt. now rewrite SFsqrt_signless.
Qed.

Lemma Float64_add_not_neg (x y : float) :
  dltb x d0 = false -> dltb y d0 = false -> dltb (dadd x y) d0 = false.
Proof.
  rewrite !Float64_not_neg. simpl. rewrite add_spec. unfold SF64add.
  intros Hx Hy. apply negb_false_iff in Hx, Hy.
  now rewrite SFadd_signless.
Qed.

Lemma Float64_of_size_sign (n : nat) :
  positive_sign (Prim2SF (of_size (S n))) = true.
Proof.
  change (of_size (S n)) with (float_of_Z (Z.of_nat (S n))). unfold float_of_Z.
  destruct (Z.ltb_spec (Z.of_nat (S n)) 0); [lia|].
  rewrite of_uint63_spec. apply binary_normalize_sign.
  apply Uint63.to_Z_bounded.
Qed.

Lemma Float64_div_count_not_neg (x : float) (n : nat) :
  dltb x d0 = false -> dltb (ddiv x (of_size (S n))) d0 = false.
Proof.
  rewrite !Float64_not_neg. intros Hx. apply negb_false_iff in Hx.
  change (ddiv x (of_size (S n))) with (PrimFloat.div x (of_size (S n))).
  rewrite div_spec. unfold SF64div.
  rewrite SFdiv_signless; [reflexivity|assumption|apply Float64_of_size_sign].
Qed.




(** * R squared on binary64

    The two conditions of the perfect-prediction case hold of every set of
    examples of a size below [2^63]: a converted [int] is finite, and the
    total sum of squares of finite values is a number (it may be
    [+infinity], it is never a NaN). *)

Section Finite.
Local Open Scope Z_scope.

Lemma shr_1_upper (mrs : shr_record) :
  0 <= shr_m mrs -> 0 <= shr_m (shr_1 mrs) <= shr_m mrs.
Proof.
  destruct mrs as [m r s]. simpl.
  destruct m as [|[p|p|]|[p|p|]]; simpl; lia.
Qed.

Lemma iter_shr_1_upper (n : positive) :
  forall mrs : shr_record,
    0 <= shr_m mrs -> 0 <= shr_m (iter_pos shr_1 n mrs) <= shr_m mrs.
Proof.
  induction n as [n IH|n IH|]; intros mrs H; simpl.
  - pose proof (shr_1_upper mrs H) as H1.
    pose proof (IH (shr_1 mrs) (proj1 H1)) as H2.
    pose proof (IH _ (proj1 H2)) as H3. lia.
  - pose proof (IH mrs H) as H2.
    pose proof (IH _ (proj1 H2)) as H3. lia.
  - now apply shr_1_upper.
Qed.

Lemma digits2_upper (m k : Z) :
  0 <= k -> 0 <= m < 2 ^ k -> Zdigits2 m <= k.
Proof.
  intros Hk [H0 Hm]. destruct m as [|p|p]; simpl; [lia| |lia].
  pose proof (digits2_pos_lower p) as Hd.
  assert (2 ^ (Z.pos (digits2_pos p) - 1) < 2 ^ k) by lia.
  apply Z.pow_lt_mono_r_iff in H; lia.
Qed.

Lemma shr_fexp_upper (m e k : Z) (l : location) :
  0 <= k -> 0 <= m < 2 ^ k ->
  0 <= shr_m (fst (shr_fexp prec emax m e l)) <= m
  /\ snd (shr_fexp prec emax m e l) <= Z.max e (Z.max (k + e - prec) emin).
Proof.
  intros Hk Hm. unfold shr_fexp, shr.
  assert (Hr : shr_m (shr_record_of_loc m l) = m)
    by (destruct l as [|[| |]]; reflexivity).
  pose proof (digits2_upper Hk Hm) as Hd.
  assert (Hf : fexp prec emax (Zdigits2 m + e) <= Z.max (k + e - prec) emin)
    by (unfold fexp; lia).
  destruct (fexp prec emax (Zdigits2 m + e) - e) as [|n|n] eqn:En;
    simpl fst; simpl snd.
  - rewrite Hr. lia.
  - split; [|lia].
    rewrite <- Hr at 3. apply iter_shr_1_upper. rewrite Hr. lia.
  - rewrite Hr. lia.
Qed.

Lemma round_nearest_even_upper (m : Z) (l : location) :
  m <= round_nearest_even m l <= m + 1.
Proof.
  unfold round_nearest_even. destruct l as [|[| |]]; try lia.
  destruct (Z.even m); lia.
Qed.

Lemma binary_round_aux_number (sx : bool) (m e : Z) (l : location) :
  0 <= m -> number (binary_round_aux prec emax sx m e l) = true.
Proof.
  intros Hm. unfold binary_round_aux.
  assert (Hk : 0 <= Z.log2_up (m + 1)) by apply Z.log2_up_nonneg.
  assert (Hb : 0 <= m < 2 ^ Z.log2_up (m + 1)).
  { split; [assumption|].
    pose proof (Z.log2_up_spec (m + 1)).
    destruct (Z.eq_dec m 0) as [->|]; [reflexivity|]. lia. }
  destruct (shr_fexp_upper e l Hk Hb) as [H1 _].
  destruct (shr_fexp prec emax m e l) as [mrs' e']. simpl in H1.
  pose proof (round_nearest_even_upper (shr_m mrs') (loc_of_shr_record mrs')) as Hr.
  set (m2 := round_nearest_even (shr_m mrs') (loc_of_shr_record mrs')) in *.
  assert (Hk2 : 0 <= Z.log2_up (m2 + 1)) by apply Z.log2_up_nonneg.
  assert (Hb2 : 0 <= m2 < 2 ^ Z.log2_up (m2 + 1)).
  { split; [lia|].
    pose proof (Z.log2_up_spec (m2 + 1)).
    destruct (Z.eq_dec m2 0) as [->|]; [reflexivity|]. lia. }
  destruct (shr_fexp_upper e' loc_Exact Hk2 Hb2) as [H3 _].
  destruct (shr_fexp prec emax m2 e' loc_Exact) as [mrs'' e'']. simpl in H3.
  destruct (shr_m mrs''); [reflexivity| |lia].
  destruct (_ <=? _); reflexivity.
Qed.

Lemma binary_round_aux_finite (sx : bool) (m e k : Z) (l : location) :
  0 <= k -> 0 <= m < 2 ^ k -> e <= 0 -> 2 * k <= 900 ->
  finite_number (binary_round_aux prec emax sx m e l) = true.
Proof.
  intros Hk Hm He Hs. unfold binary_round_aux.
  destruct (shr_fexp_upper e l Hk Hm) as [H1 H2].
  destruct (shr_fexp prec emax m e l) as [mrs' e']. simpl in H1, H2.
  pose proof (round_nearest_even_upper (shr_m mrs') (loc_of_shr_record mrs')) as Hr.
  set (m2 := round_nearest_even (shr_m mrs') (loc_of_shr_record mrs')) in *.
  assert (Hk2 : 0 <= k + 1) by lia.
  assert (Hb2 : 0 <= m2 < 2 ^ (k + 1)).
  { rewrite Z.pow_add_r, Z.pow_1_r by lia. lia. }
  destruct (shr_fexp_upper e' loc_Exact Hk2 Hb2) as [H3 H4].
  destruct (shr_fexp prec emax m2 e' loc_Exact) as [mrs'' e'']. simpl in H3, H4.
  destruct (shr_m mrs''); [reflexivity| |lia].
  assert (0 < prec /\ prec = 53 /\ emax = 1024 /\ emin = -1074) as (? & ? & ? & ?)
      by (repeat split).
  destruct (Z.leb_spec e'' (emax - prec)); [reflexivity|]. lia.
Qed.

Lemma digits2_pos_upper (p : positive) :
  Z.pos p < 2 ^ Z.pos (digits2_pos p).
Proof.
  induction p as [p IH|p IH|]; simpl digits2_pos;
    [rewrite Pos2Z.inj_succ, Z.pow_succ_r by lia; lia
    |rewrite Pos2Z.inj_succ, Z.pow_succ_r by lia; lia
    |reflexivity].
Qed.

Lemma binary_round_number (sx : bool) (m : positive) (e : Z) :
  number (binary_round prec emax sx m e) = true.
Proof.
  unfold binary_round. destruct (shl_align _ _ _) as [mz ez].
  apply binary_round_aux_number. lia.
Qed.

Lemma binary_normalize_number (m e : Z) (s : bool) :
  number (binary_normalize prec emax m e s) = true.
Proof. destruct m; [reflexivity| |]; apply binary_round_number. Qed.

Lemma iter_xO (d m : positive) :
  Z.pos (Pos.iter xO m d) = Z.pos m * 2 ^ Z.pos d.
Proof.
  induction d as [|d IH] using Pos.peano_ind; [simpl; lia|].
  rewrite Pos.iter_succ, Pos2Z.inj_succ, Z.pow_succ_r, Pos2Z.inj_xO, IH by lia.
  lia.
Qed.

(** An integer below [2^63] converts to a finite binary64 value. *)
Lemma binary_round_finite (sx : bool) (m : positive) :
  Z.pos m < 2 ^ 63 -> finite_number (binary_round prec emax sx m 0) = true.
Proof.
  intros Hm. unfold binary_round, shl_align.
  pose proof (digits2_pos_upper m) as Hu.
  pose proof (digits2_pos_lower m) as Hl.
  assert (Hd : Z.pos (digits2_pos m) <= 63).
  { assert (H : 2 ^ (Z.pos (digits2_pos m) - 1) < 2 ^ 63) by lia.
    apply Z.pow_lt_mono_r_iff in H; lia. }
  assert (0 < prec /\ prec = 53 /\ emax = 1024 /\ emin = -1074) as (? & ? & ? & ?)
      by (repeat split).
  destruct (fexp prec emax (Z.pos (digits2_pos m) + 0) - 0) as [|d|d] eqn:Ed.
  - apply binary_round_aux_finite with (k := 63); lia.
  - apply binary_round_aux_finite with (k := 63); lia.
  - apply binary_round_aux_finite with (k := 63 + 53); try lia.
    + split; [lia|]. rewrite iter_xO.
      unfold fexp in Ed.
      assert (Z.pos d <= 53) by lia.
      rewrite Z.pow_add_r by lia.
      assert (2 ^ Z.pos d <= 2 ^ 53) by (apply Z.pow_le_mono_r; lia).
      assert (0 < 2 ^ Z.pos d) by (apply Z.pow_pos_nonneg; lia).
      nia.
Qed.

Lemma of_uint63_finite (n : PrimInt63.int) :
  finite_number (Prim2SF (of_uint63 n)) = true.
Proof.
  rewrite of_uint63_spec. pose proof (Uint63.to_Z_bounded n) as H.
  change Uint63.wB with (2 ^ 63) in H.
  destruct (Uint63.to_Z n) as [|p|p]; [reflexivity| |lia].
  apply binary_round_finite. lia.
Qed.

Lemma float_of_Z_finite (z : Z) : finite_number (Prim2SF (float_of_Z z)) = true.
Proof.
  unfold float_of_Z. destruct (z <? 0).
  - rewrite opp_spec. pose proof (of_uint63_finite (Uint63.of_Z (- z))) as H.
    destruct (Prim2SF _); simpl in *; congruence.
  - apply of_uint63_finite.
Qed.

Lemma SFsub_self (x : spec_float) :
  finite_number x = true -> SFsub prec emax x x = S754_zero false.
Proof.
  destruct x as [s|s| |s m e]; try discriminate; intros _.
  - destruct s; reflexivity.
  - cbn [SFsub]. rewrite Z.min_id.
    rewrite Z.sub_diag. reflexivity.
Qed.

Lemma Float64_int_minus_itself (z : Z) :
  dsub (D := float) (of_int z) (of_int z) = d0.
Proof.
  simpl. apply Prim2SF_inj. rewrite sub_spec.
  unfold SF64sub. now rewrite SFsub_self by apply float_of_Z_finite.
Qed.

Lemma binary_round_aux_nonneg (m e : Z) (l : location) :
  0 <= m -> nonneg_number (binary_round_aux prec emax false m e l) = true.
Proof.
  intros Hm. pose proof (binary_round_aux_number false e l Hm) as Hn.
  pose proof (binary_round_aux_sign m e l) as Hs.
  destruct (binary_round_aux _ _ _ _ _ _) as [s|s| |s p q]; simpl in *;
    try reflexivity; congruence.
Qed.

Lemma binary_round_nonneg (m : positive) (e : Z) :
  nonneg_number (binary_round prec emax false m e) = true.
Proof.
  unfold binary_round. destruct (shl_align _ _ _) as [mz ez].
  apply binary_round_aux_nonneg. lia.
Qed.

Lemma nonneg_is_number (x : spec_float) : nonneg_number x = true -> number x = true.
Proof. destruct x; simpl; congruence. Qed.

Lemma SFadd_nonneg (x y : spec_float) :
  nonneg_number x = true -> nonneg_number y = true ->
  nonneg_number (SFadd prec emax x y) = true.
Proof.
  destruct x as [sx|sx| |sx mx ex], y as [sy|sy| |sy my ey];
    try destruct sx; try destruct sy; simpl; try congruence; intros _ _.
  apply binary_round_nonneg.
Qed.

Lemma SFadd_number (x y : spec_float) :
  number x = true -> finite_number y = true ->
  number (SFadd prec emax x y) = true.
Proof.
  destruct x as [sx|sx| |sx mx ex], y as [sy|sy| |sy my ey];
    try destruct sx; try destruct sy; cbn [SFadd number finite_number Bool.eqb];
    try congruence; intros _ _; apply binary_normalize_number.
Qed.

Lemma SFsub_number (x y : spec_float) :
  finite_number x = true -> number y = true ->
  number (SFsub prec emax x y) = true.
Proof.
  destruct x as [sx|sx| |sx mx ex], y as [sy|sy| |sy my ey];
    try destruct sx; try destruct sy; cbn [SFsub number finite_number];
    try congruence; intros _ _; apply binary_normalize_number.
Qed.

Lemma SFdiv_number (x : spec_float) (s : bool) (m : positive) (e : Z) :
  number x = true -> number (SFdiv prec emax x (S754_finite s m e)) = true.
Proof.
  destruct x as [sx|sx| |sx mx ex]; cbn [SFdiv number]; try congruence; intros _.
  unfold SFdiv_core_binary.
  set (m' := match _ with Z0 => _ | Zpos _ => _ | Zneg _ => _ end).
  assert (Hm' : 0 <= m').
  { subst m'. destruct (_ - _ - _); [lia| |lia]. apply Z.shiftl_nonneg. lia. }
  pose proof (Z.div_pos m' (Z.pos m) Hm' eq_refl) as Hq.
  unfold Z.div in Hq. destruct (Z.div_eucl m' (Z.pos m)) as [q r].
  now apply binary_round_aux_number.
Qed.

Lemma SFmul_square (x : spec_float) :
  number x = true -> nonneg_number (SFmul prec emax x x) = true.
Proof.
  destruct x as [sx|sx| |sx mx ex]; cbn [SFmul number nonneg_number];
    try congruence; intros _; try (now destruct sx).
  rewrite xorb_nilpotent. apply binary_round_aux_nonneg. lia.
Qed.

Lemma SFeqb_refl (x : spec_float) : number x = true -> SFeqb x x = true.
Proof.
  destruct x as [s|s| |s m e]; try destruct s; try discriminate; intros _;
    try reflexivity; unfold SFeqb; simpl;
    now rewrite Z.compare_refl, Pos.compare_cont_refl.
Qed.

(** A count between 1 and [2^63 - 1] converts to a positive binary64
    number. *)
Lemma Float64_of_size_finite (n : nat) :
  0 < Z.of_nat n < 2 ^ 63 ->
  exists m e, Prim2SF (of_size (D := float) n) = S754_finite false m e.
Proof.
  intros Hn. change (of_size n) with (float_of_Z (Z.of_nat n)).
  pose proof (float_of_Z_finite (Z.of_nat n)) as Hf. revert Hf.
  unfold float_of_Z.
  destruct (Z.ltb_spec (Z.of_nat n) 0); [lia|].
  rewrite of_uint63_spec, Uint63.of_Z_spec.
  change Uint63.wB with (2 ^ 63). rewrite Z.mod_small by lia.
  destruct (Z.of_nat n) as [|p|p]; [lia| |lia]. cbn [binary_normalize].
  pose proof (@binary_round_nonzero false p 0 ltac:(discriminate)) as Hz.
  pose proof (binary_round_nonneg p 0) as Hs.
  destruct (binary_round prec emax false p 0) as [s|s| |s m e];
    try discriminate.
  destruct s; [discriminate|]. intros _. now exists m, e.
Qed.

Lemma sum_number (l : list float) :
  (forall a, In a l -> finite_number (Prim2SF a) = true) ->
  forall acc, number (Prim2SF acc) = true ->
  number (Prim2SF (fold_left PrimFloat.add l acc)) = true.
Proof.
  induction l as [|a l IH]; intros Hl acc Hacc; simpl; [assumption|].
  apply IH; [intros; apply Hl; now right|].
  rewrite add_spec. apply SFadd_number; [assumption|]. apply Hl; now left.
Qed.

Lemma sum_nonneg (l : list float) :
  (forall a, In a l -> nonneg_number (Prim2SF a) = true) ->
  forall acc, nonneg_number (Prim2SF acc) = true ->
  nonneg_number (Prim2SF (fold_left PrimFloat.add l acc)) = true.
Proof.
  induction l as [|a l IH]; intros Hl acc Hacc; simpl; [assumption|].
  apply IH; [intros; apply Hl; now right|].
  rewrite add_spec. apply SFadd_nonneg; [assumption|]. apply Hl; now left.
Qed.

(** The total sum of squares of finitely many finite values is a number. *)
Lemma Float64_TSS_number (l : list float) :
  (forall a, In a l -> finite_number (Prim2SF a) = true) ->
  0 < Z.of_nat (length l) < 2 ^ 63 ->
  deqb (Spec.TSS l) (Spec.TSS l) = true.
Proof.
  intros Hl Hn. simpl deqb. rewrite eqb_spec. apply SFeqb_refl, nonneg_is_number.
  unfold Spec.TSS, Spec.sum. apply sum_nonneg; [|reflexivity].
  intros x Hx. apply in_map_iff in Hx. destruct Hx as (a & <- & Ha).
  unfold Spec.sq. simpl dmul. rewrite mul_spec. apply SFmul_square.
  simpl dsub. rewrite sub_spec. apply SFsub_number; [now apply Hl|].
  unfold Spec.mean. simpl ddiv. rewrite div_spec.
  destruct (Float64_of_size_finite (length l) Hn) as (m & e & Hc).
  change (of_size (length l)) with (float_of_Z (Z.of_nat (length l))) in Hc.
  unfold SF64div. rewrite Hc. apply SFdiv_number. now apply sum_number.
Qed.

Lemma Float64_actuals_finite (data : Dataset.t) (a : float) :
  In a (Spec.actuals data) -> finite_number (Prim2SF a) = true.
Proof.
  unfold Spec.actuals. intros H. apply in_map_iff in H.
  destruct H as (p & <- & _). apply float_of_Z_finite.
Qed.

End Finite.

(** On binary64, for every trained model and every set of examples the
    model predicts exactly, R squared is [1.0]. *)
Lemma rSquared_perfect_binary64 (this : LinearRegression.t float) (data : Dataset.t) :
  LinearRegression.isTrained this = true ->
  (0 < Z.of_nat (length data) < 2 ^ 63)%Z ->
  Spec.predictions this data = Spec.actuals data ->
  LinearRegression.calculateRSquared this data = Ok 1%float.
Proof.
  intros Ht Hn Hp. rewrite calculateRSquared_spec by assumption. rewrite Hp.
  f_equal.
  apply (R2_self Float64_add_0_0 Float64_mul_0_0 Float64_one_minus_zero_over).
  - intros a Ha. simpl dsub. apply Prim2SF_inj. rewrite sub_spec.
    unfold SF64sub. rewrite SFsub_self; [reflexivity|].
    now apply (Float64_actuals_finite data).
  - apply Float64_TSS_number.
    + intros a Ha. now apply (Float64_actuals_finite data).
    + unfold Spec.actuals. now rewrite length_map.
Qed.

(** The static [calculateR2] takes any two sequences: on an actual value
    that is not finite, [a - a] is a NaN and so is the result. *)
Example calculateR2_infinite :
  Evaluator.calculateR2 [infinity] [infinity] = Ok nan.
Proof. reflexivity. Qed.

(** * Further evaluations on binary64

    The spec's examples about rank: three examples are too few for the
    normal equation, and ridge training with [lambda = 1.0] succeeds on
    them. *)

Example train_three_is_singular :
  Matrix.inverse (Spec.normalMatrix (D := float) Samples.three) = Err Singular
  /\ LinearRegression.train (D := float) Samples.three LinearRegression.new
     = (Ok false, LinearRegression.new).
Proof. split; vm_compute; reflexivity. Qed.

Example ridge_three_succeeds :
  fst (LinearRegression.trainWithRegularization (D := float) Samples.three 1%float
         LinearRegression.new) = Ok true.
Proof. vm_compute. reflexivity. Qed.

(** * Matrix.cpp: the arithmetic operators *)

Section MatrixOperators.
Context {D : Type} {DA : Double D}.

Lemma sub_table (a b : Matrix.t D) :
  Matrix.rows a = Matrix.rows b -> Matrix.cols a = Matrix.cols b ->
  Matrix.sub a b = Ok (Spec.minus a b).
Proof.
  intros Hr Hc. unfold Matrix.sub, Spec.minus.
  rewrite Hr, Hc, !Nat.eqb_refl. cbn [negb orb]. rewrite <- Hr, <- Hc.
  apply (fill_table
           (fun i j result =>
              o <- Matrix.get b i j ;;
              Matrix.set result i j (dsub (Matrix.cell a i j) o))).
  intros i j M Hi Hj _ _. rewrite get_ok by lia. reflexivity.
Qed.

(** X1.  [operator+] and [operator-] throw [invalid_argument] exactly
    when the two matrices differ in a dimension; otherwise they return a
    well-formed matrix of the dimensions of the operands whose entry
    [(i, j)] is [a(i, j) + b(i, j)], respectively [a(i, j) - b(i, j)]. *)
Theorem matrix_add_sub (a b : Matrix.t D) :
  (Matrix.rows a <> Matrix.rows b \/ Matrix.cols a <> Matrix.cols b ->
   Matrix.add a b = Err DimensionMismatch
   /\ Matrix.sub a b = Err DimensionMismatch)
  /\ (Matrix.wf a -> Matrix.wf b ->
      Matrix.rows a = Matrix.rows b -> Matrix.cols a = Matrix.cols b ->
      exists s d,
        Matrix.add a b = Ok s /\ Matrix.sub a b = Ok d
        /\ Matrix.wf s /\ Matrix.wf d
        /\ Matrix.rows s = Matrix.rows a /\ Matrix.cols s = Matrix.cols a
        /\ Matrix.rows d = Matrix.rows a /\ Matrix.cols d = Matrix.cols a
        /\ forall i j, i < Matrix.rows a -> j < Matrix.cols a ->
             Matrix.cell s i j = dadd (Matrix.cell a i j) (Matrix.cell b i j)
             /\ Matrix.cell d i j = dsub (Matrix.cell a i j) (Matrix.cell b i j)).
Proof.
  split.
  - intros H. unfold Matrix.add, Matrix.sub.
    destruct (Nat.eqb_spec (Matrix.rows a) (Matrix.rows b)) as [Hr|Hr];
      [|split; reflexivity].
    destruct (Nat.eqb_spec (Matrix.cols a) (Matrix.cols b)) as [Hc|Hc];
      [|split; reflexivity].
    destruct H; contradiction.
  - intros _ _ Hr Hc. exists (Spec.plus a b), (Spec.minus a b).
    split; [now apply add_table|]. split; [now apply sub_table|].
    split; [apply wf_table|]. split; [apply wf_table|].
    do 4 (split; [reflexivity|]).
    intros i j Hi Hj. unfold Spec.plus, Spec.minus.
    now rewrite !cell_table.
Qed.

(** X2.  [operator*(const Matrix&)] throws [invalid_argument] exactly when
    the column count of the left operand differs from the row count of
    the right one; otherwise it returns the well-formed
    [rows(a) x cols(b)] matrix whose entry [(i, j)] is the sum, accumulated
    from [0.0] for [k = 0, 1, ...], of [a(i, k) * b(k, j)]. *)
Theorem matrix_mul (a b : Matrix.t D) :
  (Matrix.cols a <> Matrix.rows b -> Matrix.mul a b = Err DimensionMismatch)
  /\ (Matrix.wf a -> Matrix.wf b -> Matrix.cols a = Matrix.rows b ->
      exists p,
        Matrix.mul a b = Ok p /\ Matrix.wf p
        /\ Matrix.rows p = Matrix.rows a /\ Matrix.cols p = Matrix.cols b
        /\ forall i j, i < Matrix.rows a -> j < Matrix.cols b ->
             Matrix.cell p i j
             = fold_left (fun sum k =>
                            dadd sum (dmul (Matrix.cell a i k) (Matrix.cell b k j)))
                         (seq 0 (Matrix.cols a)) d0).
Proof.
  split.
  - intros H. unfold Matrix.mul.
    destruct (Nat.eqb_spec (Matrix.cols a) (Matrix.rows b)); [contradiction|].
    reflexivity.
  - intros _ _ Hd. exists (Spec.product a b).
    split; [now apply mul_table|]. split; [apply wf_table|].
    do 2 (split; [reflexivity|]).
    intros i j Hi Hj. unfold Spec.product. now rewrite cell_table.
Qed.

(** X3.  [operator*(double)] never throws: it returns the well-formed
    matrix of the same dimensions whose entry [(i, j)] is
    [a(i, j) * scalar], the scalar being the right factor. *)
Theorem matrix_scale (a : Matrix.t D) (scalar : D) :
  Matrix.wf a ->
  exists s,
    Matrix.scale a scalar = Ok s /\ Matrix.wf s
    /\ Matrix.rows s = Matrix.rows a /\ Matrix.cols s = Matrix.cols a
    /\ forall i j, i < Matrix.rows a -> j < Matrix.cols a ->
         Matrix.cell s i j = dmul (Matrix.cell a i j) scalar.
Proof.
  intros _. exists (Spec.scaled a scalar).
  split; [apply scale_table|]. split; [apply wf_table|].
  do 2 (split; [reflexivity|]).
  intros i j Hi Hj. unfold Spec.scaled. now rewrite cell_table.
Qed.

(** X4.  [transpose] never throws: it returns the well-formed
    [cols x rows] matrix with [t(j, i) = a(i, j)], and transposing the
    result gives the matrix back. *)
Theorem matrix_transpose (a : Matrix.t D) :
  Matrix.wf a ->
  exists t,
    Matrix.transpose a = Ok t /\ Matrix.wf t
    /\ Matrix.rows t = Matrix.cols a /\ Matrix.cols t = Matrix.rows a
    /\ (forall i j, i < Matrix.rows a -> j < Matrix.cols a ->
          Matrix.cell t j i = Matrix.cell a i j)
    /\ Matrix.transpose t = Ok a.
Proof.
  intros Hwf. exists (Spec.transposed a).
  split; [apply transpose_table|]. split; [apply wf_table|].
  do 2 (split; [reflexivity|]). split.
  - intros i j Hi Hj. unfold Spec.transposed. now rewrite cell_table.
  - rewrite transpose_table. f_equal.
    rewrite <- (table_of_cells Hwf) at 2.
    unfold Spec.transposed at 1. apply table_ext. intros i j Hi Hj.
    simpl in Hi, Hj. unfold Spec.transposed. now rewrite cell_table.
Qed.

End MatrixOperators.

(** On binary64. *)
Lemma matrix_add_sub_witness :
  Matrix.add (Matrix.of_rows [[1; 2]; [3; 4]]%float)
             (Matrix.of_rows [[4; 3]; [2; 1]]%float)
  = Ok (Matrix.of_rows [[5; 5]; [5; 5]]%float)
  /\ Matrix.sub (Matrix.of_rows [[1; 2]; [3; 4]]%float)
                (Matrix.of_rows [[4; 3]; [2; 1]]%float)
     = Ok (Matrix.of_rows [[-3; -1]; [1; 3]]%float)
  /\ Matrix.add (Matrix.of_rows [[1; 2]; [3; 4]]%float)
                (Matrix.of_rows [[1; 2; 3]]%float)
     = Err DimensionMismatch.
Proof.
  destruct (@matrix_add_sub float Float64
              (Matrix.of_rows [[1; 2]; [3; 4]]%float)
              (Matrix.of_rows [[4; 3]; [2; 1]]%float)) as [_ H].
  destruct H as (s & d & Es & Ed & _);
    [split; [reflexivity|repeat constructor]
    |split; [reflexivity|repeat constructor]
    |reflexivity|reflexivity|].
  split; [rewrite Es; f_equal; vm_compute in Es; injection Es as <-; reflexivity|].
  split; [rewrite Ed; f_equal; vm_compute in Ed; injection Ed as <-; reflexivity|].
  apply (@matrix_add_sub float Float64
           (Matrix.of_rows [[1; 2]; [3; 4]]%float)
           (Matrix.of_rows [[1; 2; 3]]%float)).
  left. simpl. lia.
Defined.

Lemma matrix_mul_witness :
  Matrix.mul (Matrix.of_rows [[1; 2]; [3; 4]]%float)
             (Matrix.of_rows [[1; 3]; [2; 4]]%float)
  = Ok (Matrix.of_rows [[5; 11]; [11; 25]]%float)
  /\ Matrix.mul (Matrix.of_rows [[1; 2]; [3; 4]]%float)
                (Matrix.of_rows [[1; 2; 3]]%float)
     = Err DimensionMismatch.
Proof.
  split.
  - destruct (@matrix_mul float Float64
                (Matrix.of_rows [[1; 2]; [3; 4]]%float)
                (Matrix.of_rows [[1; 3]; [2; 4]]%float)) as [_ H].
    destruct H as (p & Ep & _);
      [split; [reflexivity|repeat constructor]
      |split; [reflexivity|repeat constructor]
      |reflexivity|].
    rewrite Ep; f_equal; vm_compute in Ep; injection Ep as <-; reflexivity.
  - apply (@matrix_mul float Float64
             (Matrix.of_rows [[1; 2]; [3; 4]]%float)
             (Matrix.of_rows [[1; 2; 3]]%float)).
    simpl. lia.
Defined.

Lemma matrix_scale_witness :
  Matrix.scale (Matrix.of_rows [[1; 2]; [3; 4]]%float) 2%float
  = Ok (Matrix.of_rows [[2; 4]; [6; 8]]%float).
Proof.
  destruct (@matrix_scale float Float64
              (Matrix.of_rows [[1; 2]; [3; 4]]%float) 2%float) as (s & Es & _);
    [split; [reflexivity|repeat constructor]|].
  rewrite Es; f_equal; vm_compute in Es; injection Es as <-; reflexivity.
Defined.

Lemma matrix_transpose_witness :
  Matrix.transpose (Matrix.of_rows [[1; 2; 3]; [4; 5; 6]]%float)
  = Ok (Matrix.of_rows [[1; 4]; [2; 5]; [3; 6]]%float)
  /\ Matrix.transpose (Matrix.of_rows [[1; 4]; [2; 5]; [3; 6]]%float)
     = Ok (Matrix.of_rows [[1; 2; 3]; [4; 5; 6]]%float).
Proof.
  destruct (@matrix_transpose float Float64
              (Matrix.of_rows [[1; 2; 3]; [4; 5; 6]]%float))
    as (t & Et & _ & _ & _ & _ & Eback);
    [split; [reflexivity|repeat constructor]|].
  assert (E : t = Matrix.of_rows [[1; 4]; [2; 5]; [3; 6]]%float)
    by (vm_compute in Et; injection Et as <-; reflexivity).
  rewrite E in Et, Eback. split; assumption.
Defined.

(** * Matrix.cpp: transposition and products *)

Section TransposeProduct.
Context {D : Type} {DA : Double D}.

Lemma fold_left_ext_in (A B : Type) (f g : A -> B -> A) (l : list B) (acc : A) :
  (forall k s, In k l -> f s k = g s k) ->
  fold_left f l acc = fold_left g l acc.
Proof.
  revert acc; induction l as [|k l IH]; intros acc H; simpl; [reflexivity|].
  rewrite (H k acc) by (left; reflexivity).
  apply IH. intros; apply H; right; assumption.
Qed.

(** Multiplication of two numbers does not depend on their order (true of
    IEEE-754). *)
Hypothesis mul_comm : forall x y : D, dmul x y = dmul y x.

(** X5.  The transpose of a product is the product of the transposes in
    the opposite order, entry for entry; in particular the matrix
    [Xt * X] both trainings invert is symmetric: transposing it gives it
    back. *)
Theorem transpose_of_product (a b : Matrix.t D) :
  Matrix.wf a -> Matrix.wf b ->
  (Matrix.cols a = Matrix.rows b ->
   exists p pt ta tb,
     Matrix.mul a b = Ok p /\ Matrix.transpose p = Ok pt
     /\ Matrix.transpose a = Ok ta /\ Matrix.transpose b = Ok tb
     /\ Matrix.mul tb ta = Ok pt)
  /\ (exists ta g,
        Matrix.transpose a = Ok ta /\ Matrix.mul ta a = Ok g
        /\ Matrix.transpose g = Ok g).
Proof.
  intros Hwa Hwb. split.
  - intros Hd.
    exists (Spec.product a b), (Spec.transposed (Spec.product a b)),
      (Spec.transposed a), (Spec.transposed b).
    split; [now apply mul_table|]. split; [apply transpose_table|].
    split; [apply transpose_table|]. split; [apply transpose_table|].
    rewrite mul_table by (simpl; congruence). f_equal.
    unfold Spec.product at 1, Spec.transposed at 3. simpl.
    apply table_ext. intros i j Hi Hj. simpl in Hi, Hj.
    unfold Spec.product. rewrite cell_table by assumption.
    rewrite <- Hd. apply fold_left_ext_in. intros k s Hk. apply in_seq in Hk.
    unfold Spec.transposed. rewrite !cell_table by lia.
    now rewrite mul_comm.
  - exists (Spec.transposed a), (Spec.product (Spec.transposed a) a).
    split; [apply transpose_table|].
    split; [now apply mul_table|].
    rewrite transpose_table. f_equal.
    unfold Spec.transposed at 1, Spec.product at 2 3. simpl.
    apply table_ext. intros i j Hi Hj. simpl in Hi, Hj.
    unfold Spec.product. rewrite cell_table by assumption. simpl.
    apply fold_left_ext_in. intros k s Hk. apply in_seq in Hk.
    unfold Spec.transposed. rewrite !cell_table by lia.
    now rewrite mul_comm.
Qed.

End TransposeProduct.

Lemma Float64_mul_comm (x y : float) : dmul x y = dmul y x.
Proof.
  simpl. apply Prim2SF_inj. rewrite !mul_spec. unfold SF64mul.
  destruct (Prim2SF x) as [sx|sx| |sx mx ex], (Prim2SF y) as [sy|sy| |sy my ey];
    simpl; try reflexivity; try (now rewrite xorb_comm).
  now rewrite xorb_comm, Pos.mul_comm, Z.add_comm.
Qed.

(** On binary64: a 3x2 matrix times a 2x2 matrix, and the Gram matrix of
    the former. *)
Lemma transpose_of_product_witness :
  (exists p pt,
     Matrix.mul (Matrix.of_rows [[1; 2]; [3; 4]; [5; 6]]%float)
                (Matrix.of_rows [[1; 1]; [0; 2]]%float) = Ok p
     /\ Matrix.transpose p = Ok pt
     /\ Matrix.mul (Matrix.of_rows [[1; 0]; [1; 2]]%float)
                   (Matrix.of_rows [[1; 3; 5]; [2; 4; 6]]%float) = Ok pt)
  /\ Matrix.transpose (Matrix.of_rows [[35; 44]; [44; 56]]%float)
     = Ok (Matrix.of_rows [[35; 44]; [44; 56]]%float).
Proof.
  destruct (@transpose_of_product float Float64 Float64_mul_comm
              (Matrix.of_rows [[1; 2]; [3; 4]; [5; 6]]%float)
              (Matrix.of_rows [[1; 1]; [0; 2]]%float)) as [H1 H2];
    [split; [reflexivity|repeat constructor]
    |split; [reflexivity|repeat constructor]|].
  split.
  - destruct (H1 eq_refl) as (p & pt & ta & tb & Ep & Ept & Eta & Etb & Em).
    exists p, pt. split; [assumption|]. split; [assumption|].
    vm_compute in Eta, Etb.
    injection Eta as <-. injection Etb as <-. exact Em.
  - destruct H2 as (ta & g & Eta & Eg & Et).
    vm_compute in Eta. injection Eta as <-.
    vm_compute in Eg. injection Eg as <-. exact Et.
Defined.

(** * Matrix.cpp: the identity matrix *)

Section IdentityMatrix.
Context {D : Type} {DA : Double D}.

(** The arithmetic on [0.0] and [1.0] that elimination on an identity
    matrix performs, true of exact arithmetic and of IEEE-754. *)
Hypothesis one_over_one : ddiv d1 d1 = d1.
Hypothesis zero_over_one : ddiv d0 d1 = d0.
Hypothesis times_one : forall x, x = d0 \/ x = d1 -> dmul x d1 = x.
Hypothesis minus_zero_multiple :
  forall x y, x = d0 \/ x = d1 -> y = d0 \/ y = d1 ->
              dadd y (dmul (dopp d0) x) = y.
Hypothesis one_is_largest : dltb (dabs d1) (dabs d0) = false.
Hypothesis one_above_tolerance : dltb (dabs d1) Matrix.EPSILON = false.
Hypothesis two_by_two : dsub (dmul d1 d1) (dmul d0 d0) = d1.

Lemma unit_choice (b : bool) : (if b then d1 else d0) = d0 \/ (if b then d1 else d0) = d1.
Proof. destruct b; [right|left]; reflexivity. Qed.

(** In a column whose entry in row [i] is [1.0] and whose other entries
    are [0.0], the pivot search stays on row [i]. *)
Lemma pivotRow_unit_column (a : Matrix.t D) (n i : nat) :
  Matrix.cell a i i = d1 ->
  (forall k, i < k < n -> Matrix.cell a k i = d0) ->
  Spec.pivotRow a n i = i.
Proof.
  intros Hii Hki. unfold Spec.pivotRow.
  assert (G : forall l, (forall k, In k l -> i < k < n) ->
                fold_left (fun maxRow k =>
                             if dltb (dabs (Matrix.cell a maxRow i))
                                     (dabs (Matrix.cell a k i))
                             then k else maxRow) l i = i).
  { induction l as [|k l IH]; intros Hl; simpl; [reflexivity|].
    rewrite Hii, (Hki k) by (apply Hl; left; reflexivity).
    rewrite one_is_largest. apply IH. intros; apply Hl; right; assumption. }
  apply G. intros k Hk. apply in_seq in Hk. lia.
Qed.

(** The augmented matrix of the identity, entry by entry. *)
Lemma augmented_identity (n : nat) :
  Spec.augmented (Spec.identityMatrix n)
  = Spec.table n (2 * n)
      (fun i j => if (j =? i) || (j =? i + n) then d1 else d0).
Proof.
  unfold Spec.augmented. simpl. apply table_ext. intros i j Hi Hj.
  destruct (Nat.ltb_spec j n) as [Hlt|Hge].
  - unfold Spec.identityMatrix. rewrite cell_table by assumption.
    destruct (Nat.eqb_spec j (i + n)); [lia|]. now rewrite orb_false_r.
  - destruct (Nat.eqb_spec j i); [lia|]. reflexivity.
Qed.

(** A Gauss-Jordan step on [[I | I]] changes nothing. *)
Lemma gaussJordanStep_identity (n i : nat) :
  i < n ->
  Spec.pivotRejected (Spec.augmented (Spec.identityMatrix n)) n i = false
  /\ Spec.gaussJordanStep (Spec.augmented (Spec.identityMatrix n)) n i
     = Spec.augmented (Spec.identityMatrix n).
Proof.
  intros Hi. rewrite augmented_identity.
  set (e := fun i j : nat => if (j =? i) || (j =? i + n) then d1 else d0).
  set (A := Spec.table n (2 * n) e).
  assert (Hcell : forall r j, r < n -> j < 2 * n -> Matrix.cell A r j = e r j)
    by (intros; unfold A; now rewrite cell_table).
  assert (Hp : Spec.pivotRow A n i = i).
  { apply pivotRow_unit_column.
    - rewrite Hcell by lia. unfold e. now rewrite Nat.eqb_refl.
    - intros k Hk. rewrite Hcell by lia. unfold e.
      destruct (Nat.eqb_spec i k); [lia|].
      destruct (Nat.eqb_spec i (k + n)); [lia|]. reflexivity. }
  assert (Hii : Matrix.cell A i i = d1).
  { rewrite Hcell by lia. unfold e. now rewrite Nat.eqb_refl. }
  split.
  - unfold Spec.pivotRejected. now rewrite Hp, Hii.
  - unfold Spec.gaussJordanStep. rewrite Hp.
    rewrite swapped_same by apply wf_table.
    assert (Hn : Spec.normalized A i = A).
    { unfold Spec.normalized. unfold A at 1 2 5. simpl. apply table_ext.
      intros r j Hr Hj. destruct (Nat.eqb_spec r i) as [->|Hne].
      - rewrite Hii, one_over_one, Hcell by assumption.
        apply times_one, unit_choice.
      - now apply Hcell. }
    rewrite Hn. unfold Spec.cleared. unfold A at 1 2 7. simpl. apply table_ext.
    intros r j Hr Hj. destruct (Nat.eqb_spec r i) as [->|Hne];
      [now apply Hcell|].
    rewrite !Hcell by lia.
    replace (e r i) with d0.
    + apply minus_zero_multiple; apply unit_choice.
    + unfold e. destruct (Nat.eqb_spec i r); [lia|].
      destruct (Nat.eqb_spec i (r + n)); [lia|]. reflexivity.
Qed.

(** X6.  [identity(n)] never throws: it is the well-formed [n x n] matrix
    with [1.0] on the diagonal and [0.0] elsewhere; and [inverse] of it is
    the identity matrix again, for every size. *)
Theorem identity_inverse (n : nat) :
  exists I,
    Matrix.identity n = Ok I /\ Matrix.wf I
    /\ Matrix.rows I = n /\ Matrix.cols I = n
    /\ (forall i j, i < n -> j < n ->
          Matrix.cell I i j = if i =? j then d1 else d0)
    /\ Matrix.inverse I = Ok I.
Proof.
  exists (Spec.identityMatrix n).
  split; [apply identity_table|]. split; [apply wf_table|].
  do 2 (split; [reflexivity|]). split.
  - intros i j Hi Hj. unfold Spec.identityMatrix. rewrite cell_table by assumption.
    now rewrite Nat.eqb_sym.
  - set (I := Spec.identityMatrix n).
    assert (Hrun : forall k, k <= n ->
              forM (seq 0 k) (Matrix.pivotStep n) (Spec.augmented I)
              = Ok (Spec.augmented I)).
    { induction k as [|k IH]; intros Hk; [reflexivity|].
      rewrite seq_S, forM_app, IH by lia. cbn [forM bind Nat.add].
      destruct (@gaussJordanStep_identity n k) as [Hb Hs]; [lia|].
      destruct (@pivotStep_cases _ _ (Spec.augmented I) n k)
        as [[Hb' _]|[_ Es]];
        [apply wf_table|reflexivity|lia|simpl; lia| |].
      - unfold I in Hb'. congruence.
      - rewrite Es. unfold I. now rewrite Hs. }
    unfold Matrix.inverse, Matrix.isSquare.
    change (Matrix.rows I) with n. change (Matrix.cols I) with n.
    rewrite Nat.eqb_refl. cbn [negb].
    rewrite augment_table. cbn [bind].
    change (Matrix.rows I) with n.
    rewrite Hrun by lia. cbn [bind].
    rewrite extract_table by reflexivity. f_equal.
    unfold Spec.rightHalf. unfold I at 2. unfold Spec.identityMatrix.
    apply table_ext. intros i j Hi Hj. unfold I.
    rewrite augmented_identity, cell_table by lia.
    destruct (Nat.eqb_spec (j + n) i); [lia|]. simpl.
    destruct (Nat.eqb_spec (j + n) (i + n)), (Nat.eqb_spec j i);
      try reflexivity; lia.
Qed.

(** An elimination step of [determinant] on the identity changes
    nothing. *)
Lemma eliminationStep_identity (n i : nat) :
  i < n ->
  Spec.pivotRow (Spec.identityMatrix n) n i = i
  /\ Spec.pivotRejected (Spec.identityMatrix n) n i = false
  /\ Spec.eliminationStep (Spec.identityMatrix n) n i = Spec.identityMatrix n.
Proof.
  intros Hi. set (I := Spec.identityMatrix n).
  assert (Hcell : forall r j, r < n -> j < n ->
            Matrix.cell I r j = if j =? r then d1 else d0)
    by (intros; unfold I, Spec.identityMatrix; now rewrite cell_table).
  assert (Hii : Matrix.cell I i i = d1)
    by (rewrite Hcell by lia; now rewrite Nat.eqb_refl).
  assert (Hp : Spec.pivotRow I n i = i).
  { apply pivotRow_unit_column; [assumption|].
    intros k Hk. rewrite Hcell by lia.
    destruct (Nat.eqb_spec i k); [lia|]. reflexivity. }
  split; [assumption|]. split.
  - unfold Spec.pivotRejected. now rewrite Hp, Hii.
  - unfold Spec.eliminationStep. rewrite Hp.
    rewrite swapped_same by apply wf_table.
    unfold Spec.eliminatedBelow. unfold I at 1 2 8. unfold Spec.identityMatrix at 1 2 3.
    simpl. apply table_ext. intros r j Hr Hj.
    destruct (Nat.ltb_spec i r) as [Hlt|Hge].
    + rewrite Hii, !Hcell by lia.
      destruct (Nat.eqb_spec i r); [lia|].
      rewrite zero_over_one. apply minus_zero_multiple; apply unit_choice.
    + now apply Hcell.
Qed.

(** X7.  [determinant] of the identity matrix is [1.0] for every size,
    the empty matrix included. *)
Theorem identity_determinant (n : nat) :
  exists I, Matrix.identity n = Ok I /\ Matrix.determinant I = Ok d1.
Proof.
  exists (Spec.identityMatrix n). split; [apply identity_table|].
  set (I := Spec.identityMatrix n).
  assert (Hcell : forall r j, r < n -> j < n ->
            Matrix.cell I r j = if j =? r then d1 else d0)
    by (intros; unfold I, Spec.identityMatrix; now rewrite cell_table).
  unfold Matrix.determinant, Matrix.isSquare.
  change (Matrix.rows I) with n. change (Matrix.cols I) with n.
  rewrite Nat.eqb_refl. cbn [negb].
  destruct (Nat.eqb_spec n 1) as [E1|N1].
  { rewrite Hcell by lia. reflexivity. }
  destruct (Nat.eqb_spec n 2) as [E2|N2].
  { rewrite !Hcell by lia. simpl. now rewrite two_by_two. }
  assert (Hrun : forall k, k <= n ->
            forReturn (seq 0 k) (Matrix.detStep n) (I, d1)
            = Ok (Continue (I, d1))).
  { induction k as [|k IH]; intros Hk; [reflexivity|].
    rewrite seq_S, forReturn_app, IH by lia. cbn [forReturn bind Nat.add].
    destruct (@eliminationStep_identity n k) as (Hp & Hb & Hs); [lia|].
    destruct (@detStep_cases _ _ I d1 n k) as [[Hb' _]|[_ Es]];
      [apply wf_table|reflexivity|reflexivity|lia| |].
    - unfold I in Hb'. congruence.
    - rewrite Es. unfold I. rewrite Hs, Hp, Nat.eqb_refl. cbn [negb].
      fold I. rewrite Hcell by lia. rewrite Nat.eqb_refl.
      rewrite times_one by (right; reflexivity). reflexivity. }
  rewrite Hrun by lia. reflexivity.
Qed.

End IdentityMatrix.

(** The facts on binary64. *)
Lemma Float64_times_one (x : float) : x = d0 \/ x = d1 -> dmul x d1 = x.
Proof. intros [->| ->]; reflexivity. Qed.

Lemma Float64_minus_zero_multiple (x y : float) :
  x = d0 \/ x = d1 -> y = d0 \/ y = d1 -> dadd y (dmul (dopp d0) x) = y.
Proof. intros [->| ->] [->| ->]; reflexivity. Qed.

(** On binary64: the identity of size 4 is its own inverse. *)
Lemma identity_inverse_witness :
  exists I,
    Matrix.identity (D := float) 4 = Ok I /\ Matrix.inverse I = Ok I
    /\ Matrix.cell I 2 2 = 1%float /\ Matrix.cell I 2 3 = 0%float.
Proof.
  destruct (@identity_inverse float Float64 eq_refl Float64_times_one
              Float64_minus_zero_multiple eq_refl eq_refl 4)
    as (I & E & _ & _ & _ & Hcell & Hinv).
  exists I. split; [exact E|]. split; [exact Hinv|].
  split; [apply (Hcell 2 2); lia | apply (Hcell 2 3); lia].
Defined.

(** On binary64: the determinant of the identity of size 5. *)
Lemma identity_determinant_witness :
  exists I,
    Matrix.identity (D := float) 5 = Ok I /\ Matrix.determinant I = Ok 1%float.
Proof.
  exact (@identity_determinant float Float64 eq_refl Float64_times_one
           Float64_minus_zero_multiple eq_refl eq_refl eq_refl 5).
Defined.

(** * Matrix.cpp: element access and [resize] *)

Section ElementAccess.
Context {D : Type} {DA : Double D}.

(** X8.  The checked accessors [operator()], [setElement] and
    [operator[]] throw [out_of_range] exactly when an index is not below
    the stored dimension.  In range, [setElement] keeps the matrix well
    formed and its dimensions, the entry written is the one read back,
    every other entry keeps its value, and the row read through
    [operator[]] has [cols] entries. *)
Theorem element_access (m : Matrix.t D) (row col : nat) (value : D) :
  (Matrix.get m row col = Err IndexOutOfRange
   <-> Matrix.rows m <= row \/ Matrix.cols m <= col)
  /\ (Matrix.setElement m row col value = Err IndexOutOfRange
      <-> Matrix.rows m <= row \/ Matrix.cols m <= col)
  /\ (Matrix.rowAt m row = Err IndexOutOfRange <-> Matrix.rows m <= row)
  /\ (Matrix.wf m -> row < Matrix.rows m -> col < Matrix.cols m ->
      exists m',
        Matrix.setElement m row col value = Ok m'
        /\ Matrix.set m row col value = Ok m'
        /\ Matrix.wf m'
        /\ Matrix.rows m' = Matrix.rows m /\ Matrix.cols m' = Matrix.cols m
        /\ Matrix.get m' row col = Ok value
        /\ (forall i j, i <> row \/ j <> col ->
              Matrix.cell m' i j = Matrix.cell m i j)
        /\ exists r, Matrix.rowAt m' row = Ok r
                     /\ length r = Matrix.cols m /\ nth col r d0 = value).
Proof.
  split; [|split; [|split]].
  - unfold Matrix.get.
    destruct (Nat.leb_spec (Matrix.rows m) row);
      destruct (Nat.leb_spec (Matrix.cols m) col); cbn [orb];
      split; intros H'; try reflexivity; try discriminate; try lia; auto.
  - unfold Matrix.setElement.
    destruct (Nat.leb_spec (Matrix.rows m) row);
      destruct (Nat.leb_spec (Matrix.cols m) col); cbn [orb];
      split; intros H'; try reflexivity; try discriminate; try lia; auto.
  - unfold Matrix.rowAt.
    destruct (Nat.leb_spec (Matrix.rows m) row);
      split; intros H'; try reflexivity; try discriminate; try lia; auto.
  - intros Hwf Hr Hc. exists (Matrix.poke m row col value).
    assert (Hwf' : Matrix.wf (Matrix.poke m row col value)) by now apply wf_poke.
    split.
    { unfold Matrix.setElement.
      destruct (Nat.leb_spec (Matrix.rows m) row); [lia|].
      destruct (Nat.leb_spec (Matrix.cols m) col); [lia|]. reflexivity. }
    split; [now apply set_ok|]. split; [assumption|].
    do 2 (split; [reflexivity|]). split.
    { rewrite get_ok by assumption. rewrite cell_poke by assumption.
      now rewrite !Nat.eqb_refl. }
    split.
    { intros i j Hij. rewrite cell_poke by assumption.
      destruct (Nat.eqb_spec i row), (Nat.eqb_spec j col); try reflexivity.
      destruct Hij; contradiction. }
    exists (nth row (Matrix.data (Matrix.poke m row col value)) []).
    split.
    { unfold Matrix.rowAt. simpl.
      destruct (Nat.leb_spec (Matrix.rows m) row); [lia|]. reflexivity. }
    split.
    { now apply (wf_row Hwf'). }
    change (Matrix.cell (Matrix.poke m row col value) row col = value).
    rewrite cell_poke by assumption. now rewrite !Nat.eqb_refl.
Qed.

Lemma length_vector_resize (A : Type) (n : nat) (x : A) (l : list A) :
  length (vector_resize n x l) = n.
Proof.
  unfold vector_resize. rewrite length_app, length_firstn, repeat_length. lia.
Qed.

Lemma nth_vector_resize (A : Type) (n i : nat) (x d : A) (l : list A) :
  i < n ->
  nth i (vector_resize n x l) d = if i <? length l then nth i l d else x.
Proof.
  intros Hi. unfold vector_resize.
  destruct (Nat.ltb_spec i (length l)) as [Hlt|Hge].
  - rewrite app_nth1 by (rewrite length_firstn; lia).
    now rewrite nth_firstn, (proj2 (Nat.ltb_lt i n) Hi).
  - rewrite app_nth2 by (rewrite length_firstn; lia).
    rewrite length_firstn. apply nth_repeat_lt. lia.
Qed.

(** The entries of a resized matrix, whatever the rows held before. *)
Lemma cell_resize (m : Matrix.t D) (r c i j : nat) :
  i < r -> j < c ->
  Matrix.cell (Matrix.resize m r c) i j
  = if (i <? length (Matrix.data m))
       && (j <? length (nth i (Matrix.data m) []))
    then Matrix.cell m i j else d0.
Proof.
  intros Hi Hj. unfold Matrix.cell, Matrix.resize. simpl.
  rewrite (nth_indep _ [] (vector_resize c d0 []))
    by (now rewrite length_map, length_vector_resize).
  rewrite (map_nth (vector_resize c d0)).
  rewrite !nth_vector_resize by assumption.
  destruct (Nat.ltb_spec i (length (Matrix.data m))) as [Hlt|Hge]; cbn [andb];
    [reflexivity|].
  now destruct j.
Qed.

(** X9.  [resize] always leaves a well-formed matrix of the new
    dimensions.  On a well-formed matrix the entries inside both the old
    and the new dimensions keep their values and every other entry is
    [0.0]; resizing to the dimensions the matrix has changes nothing; and
    resizing a default-constructed matrix gives the zero matrix
    [Matrix(rows, cols)]. *)
Theorem resize_correct (m : Matrix.t D) (newRows newCols : nat) :
  Matrix.wf (Matrix.resize m newRows newCols)
  /\ Matrix.rows (Matrix.resize m newRows newCols) = newRows
  /\ Matrix.cols (Matrix.resize m newRows newCols) = newCols
  /\ (Matrix.wf m ->
      forall i j, i < newRows -> j < newCols ->
        Matrix.cell (Matrix.resize m newRows newCols) i j
        = if (i <? Matrix.rows m) && (j <? Matrix.cols m)
          then Matrix.cell m i j else d0)
  /\ (Matrix.wf m -> Matrix.resize m (Matrix.rows m) (Matrix.cols m) = m)
  /\ Matrix.resize Matrix.default newRows newCols = Matrix.new newRows newCols.
Proof.
  assert (Hw : forall r c, Matrix.wf (Matrix.resize m r c)).
  { intros r c. split; simpl.
    - now rewrite length_map, length_vector_resize.
    - apply Forall_forall. intros x Hx. apply in_map_iff in Hx.
      destruct Hx as (l & <- & _). apply length_vector_resize. }
  assert (Hcell : Matrix.wf m ->
            forall r c i j, i < r -> j < c ->
              Matrix.cell (Matrix.resize m r c) i j
              = if (i <? Matrix.rows m) && (j <? Matrix.cols m)
                then Matrix.cell m i j else d0).
  { intros Hwf r c i j Hi Hj. rewrite cell_resize by assumption.
    destruct Hwf as [Hl Hf]. rewrite Hl.
    destruct (Nat.ltb_spec i (Matrix.rows m)) as [Hlt|Hge]; cbn [andb];
      [|reflexivity].
    now rewrite (wf_row (conj Hl Hf) Hlt). }
  split; [apply Hw|]. do 2 (split; [reflexivity|]).
  split; [intros Hwf i j; now apply Hcell|]. split.
  - intros Hwf. apply matrix_ext; [apply Hw|assumption|reflexivity..|].
    intros i j Hi Hj. simpl in Hi, Hj. rewrite Hcell by assumption.
    destruct (Nat.ltb_spec i (Matrix.rows m)); [|lia].
    destruct (Nat.ltb_spec j (Matrix.cols m)); [|lia]. reflexivity.
  - unfold Matrix.resize, Matrix.new, Matrix.default. simpl. f_equal.
    unfold vector_resize at 2. rewrite firstn_nil, Nat.sub_0_r. simpl.
    rewrite map_repeat. f_equal.
    unfold vector_resize. now rewrite firstn_nil, Nat.sub_0_r.
Qed.

End ElementAccess.

(** On binary64: an entry written and read back, and an index out of
    range. *)
Lemma element_access_witness :
  (exists m',
     Matrix.setElement (Matrix.of_rows [[1; 2]; [3; 4]]%float) 1 0 9%float = Ok m'
     /\ Matrix.get m' 1 0 = Ok 9%float)
  /\ Matrix.get (Matrix.of_rows [[1; 2]; [3; 4]]%float) 2 0 = Err IndexOutOfRange.
Proof.
  destruct (@element_access float Float64
              (Matrix.of_rows [[1; 2]; [3; 4]]%float) 1 0 9%float)
    as (_ & _ & _ & H).
  destruct H as (m' & E & _ & _ & _ & _ & Hg & _);
    [split; [reflexivity|repeat constructor]|simpl; lia|simpl; lia|].
  split; [exists m'; split; assumption|].
  apply (@element_access float Float64
           (Matrix.of_rows [[1; 2]; [3; 4]]%float) 2 0 0%float).
  left. simpl. lia.
Defined.

(** * LinearRegression.cpp: the error metrics and batch prediction *)

Section Metrics.
Context {D : Type} {DA : Double D}.

Lemma calculateMSE_spec (this : LinearRegression.t D) (data : Dataset.t) :
  LinearRegression.isTrained this = true ->
  LinearRegression.calculateMSE this data
  = Ok (Spec.MSE (Spec.actuals data) (Spec.predictions this data)).
Proof.
  intros Ht. unfold LinearRegression.calculateMSE, LinearRegression.sumSquaredErrors.
  rewrite Ht; cbn [negb].
  rewrite (forM_dataset data _
             (fun sum p =>
                dadd sum
                     (Spec.sq (dsub (LinearRegression.predictionLoop this
                                       (DataPoint.getFeatureVector p))
                                    (DataPoint.getTarget p))))).
  2:{ intros i s Hi. rewrite (at_nth data Hi); cbn [bind].
      rewrite predictPoint_trained by assumption. reflexivity. }
  cbn [bind]. unfold Spec.MSE, Spec.sum, Spec.actuals, Spec.predictions.
  rewrite combine_map, map_map, length_map. cbn [fst snd].
  now rewrite fold_left_add_map.
Qed.

Lemma calculateMAE_spec (this : LinearRegression.t D) (data : Dataset.t) :
  LinearRegression.isTrained this = true ->
  LinearRegression.calculateMAE this data
  = Ok (Spec.MAE (Spec.actuals data) (Spec.predictions this data)).
Proof.
  intros Ht. unfold LinearRegression.calculateMAE.
  rewrite Ht; cbn [negb].
  rewrite (forM_dataset data _
             (fun sum p =>
                dadd sum
                     (dabs (dsub (LinearRegression.predictionLoop this
                                    (DataPoint.getFeatureVector p))
                                 (DataPoint.getTarget p))))).
  2:{ intros i s Hi. rewrite (at_nth data Hi); cbn [bind].
      rewrite predictPoint_trained by assumption. reflexivity. }
  cbn [bind]. unfold Spec.MAE, Spec.sum, Spec.actuals, Spec.predictions.
  rewrite combine_map, map_map, length_map. cbn [fst snd].
  now rewrite fold_left_add_map.
Qed.

(** X10.  The four scoring members throw [runtime_error] on a model that
    is not trained, whatever the set (an empty one included).  On a
    trained model [calculateMSE], [calculateRMSE] and [calculateMAE]
    never throw: the first is the sum of the squared differences
    [prediction - actual] divided by the number of examples, the second is
    the square root of exactly that value, and the third is the sum of the
    absolute differences divided by the number of examples. *)
Theorem error_metrics (this : LinearRegression.t D) (data : Dataset.t) :
  (LinearRegression.isTrained this = false ->
   LinearRegression.calculateRMSE this data = Err NotTrained
   /\ LinearRegression.calculateMSE this data = Err NotTrained
   /\ LinearRegression.calculateMAE this data = Err NotTrained
   /\ LinearRegression.calculateRSquared this data = Err NotTrained)
  /\ (LinearRegression.isTrained this = true ->
      LinearRegression.calculateMSE this data
      = Ok (Spec.MSE (Spec.actuals data) (Spec.predictions this data))
      /\ LinearRegression.calculateRMSE this data
         = Ok (dsqrt (Spec.MSE (Spec.actuals data) (Spec.predictions this data)))
      /\ LinearRegression.calculateMAE this data
         = Ok (Spec.MAE (Spec.actuals data) (Spec.predictions this data))).
Proof.
  split.
  - intros Ht.
    unfold LinearRegression.calculateRMSE, LinearRegression.calculateMSE,
      LinearRegression.calculateMAE, LinearRegression.calculateRSquared.
    rewrite Ht. repeat split; reflexivity.
  - intros Ht. split; [now apply calculateMSE_spec|].
    split; [now apply calculateRMSE_spec|now apply calculateMAE_spec].
Qed.

(** X11.  [predict(const DataPoint&)] is [predict] applied to the feature
    vector of the example, and never throws [invalid_argument].
    [predict(const Dataset&)] returns, for a trained model, one
    prediction per example, in order; for an untrained model it throws
    [runtime_error] when the set has an example and returns the empty
    sequence when it has none. *)
Theorem batch_prediction (this : LinearRegression.t D) (data : Dataset.t) :
  (forall point,
     LinearRegression.predictPoint this point
     = LinearRegression.predict this (DataPoint.getFeatureVector point)
     /\ LinearRegression.predictPoint this point <> Err InvalidFeatureCount)
  /\ (LinearRegression.isTrained this = true ->
      exists predictions,
        LinearRegression.predictAll this data = Ok predictions
        /\ length predictions = Dataset.size data
        /\ forall i, i < Dataset.size data ->
             exists point,
               Dataset.at_ data i = Ok point
               /\ LinearRegression.predictPoint this point
                  = Ok (nth i predictions d0))
  /\ (LinearRegression.isTrained this = false ->
      (data <> [] -> LinearRegression.predictAll this data = Err NotTrained)
      /\ (data = [] -> LinearRegression.predictAll this data = Ok [])).
Proof.
  split; [|split].
  - intros point. unfold LinearRegression.predictPoint, LinearRegression.predict.
    destruct (LinearRegression.isTrained this); cbn [negb];
      (split; [reflexivity|]); [|discriminate].
    change (length (DataPoint.getFeatureVector point) =? 6) with true.
    discriminate.
  - intros Ht. exists (Spec.predictions this data).
    split; [now apply predictAll_trained|].
    split; [unfold Spec.predictions, Dataset.size; now rewrite length_map|].
    intros i Hi. exists (nth i data DataPoint.default).
    split; [now apply at_nth|].
    rewrite predictPoint_trained by assumption. f_equal.
    unfold Spec.predictions.
    rewrite (nth_indep _ d0
               (LinearRegression.predictionLoop this
                  (DataPoint.getFeatureVector DataPoint.default)))
      by (now rewrite length_map).
    now rewrite (map_nth (fun p => LinearRegression.predictionLoop this
                                     (DataPoint.getFeatureVector p))).
  - intros Ht. split.
    + intros Hne. destruct data as [|p data']; [congruence|].
      unfold LinearRegression.predictAll. cbn [Dataset.size length seq forM].
      cbn [Dataset.at_ nth_error bind].
      unfold LinearRegression.predictPoint. now rewrite Ht.
    + intros ->. reflexivity.
Qed.

End Metrics.

(** On binary64: the model trained on [Samples.basis] scored on another
    set, and an untrained model. *)
Lemma error_metrics_witness :
  LinearRegression.calculateMSE (D := float) LinearRegression.new Samples.three
  = Err NotTrained
  /\ exists v,
       LinearRegression.calculateMSE
         (snd (LinearRegression.train (D := float) Samples.basis LinearRegression.new))
         Samples.three = Ok v
       /\ LinearRegression.calculateRMSE
            (snd (LinearRegression.train (D := float) Samples.basis LinearRegression.new))
            Samples.three = Ok (PrimFloat.sqrt v).
Proof.
  split.
  - apply (@error_metrics float Float64 LinearRegression.new Samples.three).
    reflexivity.
  - destruct (@error_metrics float Float64
                (snd (LinearRegression.train Samples.basis LinearRegression.new))
                Samples.three) as [_ H].
    destruct H as (Hm & Hr & _); [vm_compute; reflexivity|].
    eexists. split; [exact Hm|exact Hr].
Defined.

Lemma batch_prediction_witness :
  LinearRegression.predictAll (D := float) LinearRegression.new Samples.three
  = Err NotTrained
  /\ exists predictions,
       LinearRegression.predictAll
         (snd (LinearRegression.train (D := float) Samples.basis LinearRegression.new))
         Samples.three = Ok predictions
       /\ length predictions = 3.
Proof.
  split.
  - apply (@batch_prediction float Float64 LinearRegression.new Samples.three);
      [reflexivity|discriminate].
  - destruct (@batch_prediction float Float64
                (snd (LinearRegression.train Samples.basis LinearRegression.new))
                Samples.three) as (_ & H & _).
    destruct H as (predictions & E & Hl & _); [vm_compute; reflexivity|].
    exists predictions. split; assumption.
Defined.

(** * LinearRegression.cpp: what a successful training leaves behind *)

Section TrainingSuccess.
Context {D : Type} {DA : Double D}.

(** The model [Spec.fitted] describes, field by field, and what a second
    fit with the same [theta] does to it. *)
Lemma fitted_fields (this : LinearRegression.t D) (theta : Matrix.t D)
      (data : Dataset.t) :
  let m := Spec.fitted this theta data in
  LinearRegression.isTrained m = true
  /\ LinearRegression.coefficients m
     = [Matrix.cell theta 0 0; Matrix.cell theta 1 0; Matrix.cell theta 2 0;
        Matrix.cell theta 3 0; Matrix.cell theta 4 0; Matrix.cell theta 5 0]
  /\ LinearRegression.calculateRMSE m data = Ok (LinearRegression.trainRMSE m)
  /\ LinearRegression.testRMSE m = LinearRegression.testRMSE this
  /\ LinearRegression.rSquared m = LinearRegression.rSquared this
  /\ Spec.fitted m theta data = m
  /\ forall other,
       LinearRegression.coefficients (Spec.fitted other theta data)
       = LinearRegression.coefficients m
       /\ LinearRegression.trainRMSE (Spec.fitted other theta data)
          = LinearRegression.trainRMSE m.
Proof.
  cbn zeta. split; [reflexivity|]. split; [reflexivity|]. split.
  - rewrite calculateRMSE_spec by reflexivity. reflexivity.
  - repeat split; reflexivity.
Qed.

(** X12.  When [train] or [trainWithRegularization] returns [true], the
    dataset is not empty, [theta] was computed without an exception, the
    model is trained, its six coefficients are the entries
    [theta(0, 0) .. theta(5, 0)], the stored training error is what
    [calculateRMSE] returns for the new model on the training set, and the
    two other statistics keep their values.  The coefficients and the
    training error do not depend on the model before the call, and
    training again on the same data changes nothing. *)
Theorem training_success (this : LinearRegression.t D) (data : Dataset.t)
        (lambda : D) :
  (forall m,
     LinearRegression.train data this = (Ok true, m) ->
     data <> []
     /\ exists theta,
          LinearRegression.normalEquation data = Ok theta
          /\ LinearRegression.isTrained m = true
          /\ LinearRegression.coefficients m
             = [Matrix.cell theta 0 0; Matrix.cell theta 1 0; Matrix.cell theta 2 0;
                Matrix.cell theta 3 0; Matrix.cell theta 4 0; Matrix.cell theta 5 0]
          /\ LinearRegression.calculateRMSE m data
             = Ok (LinearRegression.trainRMSE m)
          /\ LinearRegression.testRMSE m = LinearRegression.testRMSE this
          /\ LinearRegression.rSquared m = LinearRegression.rSquared this
          /\ LinearRegression.train data m = (Ok true, m)
          /\ forall other, exists m',
               LinearRegression.train data other = (Ok true, m')
               /\ LinearRegression.coefficients m' = LinearRegression.coefficients m
               /\ LinearRegression.trainRMSE m' = LinearRegression.trainRMSE m)
  /\ (forall m,
        LinearRegression.trainWithRegularization data lambda this = (Ok true, m) ->
        data <> []
        /\ exists theta,
             LinearRegression.ridgeEquation data lambda = Ok theta
             /\ LinearRegression.isTrained m = true
             /\ LinearRegression.coefficients m
                = [Matrix.cell theta 0 0; Matrix.cell theta 1 0; Matrix.cell theta 2 0;
                   Matrix.cell theta 3 0; Matrix.cell theta 4 0; Matrix.cell theta 5 0]
             /\ LinearRegression.calculateRMSE m data
                = Ok (LinearRegression.trainRMSE m)
             /\ LinearRegression.testRMSE m = LinearRegression.testRMSE this
             /\ LinearRegression.rSquared m = LinearRegression.rSquared this
             /\ LinearRegression.trainWithRegularization data lambda m = (Ok true, m)
             /\ forall other, exists m',
                  LinearRegression.trainWithRegularization data lambda other
                  = (Ok true, m')
                  /\ LinearRegression.coefficients m' = LinearRegression.coefficients m
                  /\ LinearRegression.trainRMSE m' = LinearRegression.trainRMSE m).
Proof.
  split; intros m E.
  - destruct (train_cases data this)
      as [[_ E']|[(_ & _ & E')|(Hne & inv & Hi & E')]];
      rewrite E' in E; [discriminate|discriminate|].
    injection E as <-. split; [assumption|].
    set (theta := Spec.product inv (Spec.momentVector data)) in *.
    exists theta.
    split; [rewrite normalEquation_eq, Hi; reflexivity|].
    destruct (fitted_fields this theta data)
      as (Ht & Hc & Hr & Hte & Hrs & Hfix & Hother).
    do 5 (split; [assumption|]). split.
    + destruct (train_cases data (Spec.fitted this theta data))
        as [[He _]|[(_ & Hs & _)|(_ & inv' & Hi' & E'')]].
      * contradiction.
      * rewrite Hi in Hs. discriminate.
      * rewrite E''. rewrite Hi in Hi'. injection Hi' as <-.
        fold theta. now rewrite Hfix.
    + intros other.
      destruct (train_cases data other)
        as [[He _]|[(_ & Hs & _)|(_ & inv' & Hi' & E'')]].
      * contradiction.
      * rewrite Hi in Hs. discriminate.
      * rewrite Hi in Hi'. injection Hi' as <-.
        eexists. split; [exact E''|]. apply Hother.
  - destruct (ridge_cases data lambda this)
      as [[_ E']|[(_ & _ & E')|(Hne & inv & Hi & E')]];
      rewrite E' in E; [discriminate|discriminate|].
    injection E as <-. split; [assumption|].
    set (theta := Spec.product inv (Spec.momentVector data)) in *.
    exists theta.
    split; [rewrite ridgeEquation_eq, Hi; reflexivity|].
    destruct (fitted_fields this theta data)
      as (Ht & Hc & Hr & Hte & Hrs & Hfix & Hother).
    do 5 (split; [assumption|]). split.
    + destruct (ridge_cases data lambda (Spec.fitted this theta data))
        as [[He _]|[(_ & Hs & _)|(_ & inv' & Hi' & E'')]].
      * contradiction.
      * rewrite Hi in Hs. discriminate.
      * rewrite E''. rewrite Hi in Hi'. injection Hi' as <-.
        fold theta. now rewrite Hfix.
    + intros other.
      destruct (ridge_cases data lambda other)
        as [[He _]|[(_ & Hs & _)|(_ & inv' & Hi' & E'')]].
      * contradiction.
      * rewrite Hi in Hs. discriminate.
      * rewrite Hi in Hi'. injection Hi' as <-.
        eexists. split; [exact E''|]. apply Hother.
Qed.

End TrainingSuccess.

(** On binary64: training on [Samples.basis] recovers the six
    coefficients the targets were made with, and the stored training
    error is [0.0]. *)
Lemma training_success_witness :
  exists m,
    LinearRegression.train (D := float) Samples.basis LinearRegression.new
    = (Ok true, m)
    /\ LinearRegression.coefficients m = [2; 3; 4; 5; 6; 7]%float
    /\ LinearRegression.calculateRMSE m Samples.basis = Ok 0%float
    /\ LinearRegression.train Samples.basis m = (Ok true, m).
Proof.
  assert (E : LinearRegression.train (D := float) Samples.basis LinearRegression.new
              = (Ok true,
                 snd (LinearRegression.train (D := float) Samples.basis
                        LinearRegression.new)))
    by (vm_compute; reflexivity).
  destruct (@training_success float Float64 LinearRegression.new Samples.basis
              0%float) as [H _].
  destruct (H _ E) as (_ & theta & _ & _ & _ & Hr & _ & _ & Hagain & _).
  eexists. split; [exact E|].
  split; [vm_compute; reflexivity|].
  split; [rewrite Hr; vm_compute; reflexivity|exact Hagain].
Defined.

(** * Evaluator.cpp: residuals, the evaluation record, dispersion *)

Section Evaluation.
Context {D : Type} {DA : Double D}.

Lemma calculateResiduals_spec (actual predicted : list D) :
  length actual = length predicted ->
  Evaluator.calculateResiduals actual predicted
  = Ok (map (fun ap => dsub (fst ap) (snd ap)) (combine actual predicted)).
Proof.
  intros Hlen. unfold Evaluator.calculateResiduals.
  rewrite Hlen, Nat.eqb_refl. cbn [negb]. rewrite <- Hlen. f_equal.
  rewrite (fold_left_nth2 (fun residuals a p => residuals ++ [dsub a p])
             d0 d0 actual predicted [] Hlen).
  now rewrite (fold_left_snoc (fun ap : D * D => dsub (fst ap) (snd ap))).
Qed.

(** X13.  [calculateResiduals] throws [invalid_argument] exactly when the
    two sequences differ in length; otherwise it returns the sequence of
    the differences [actual_i - predicted_i], of the same length.  Unlike
    the two other static metrics it accepts empty sequences. *)
Theorem calculateResiduals_correct (actual predicted : list D) :
  (length actual <> length predicted ->
   Evaluator.calculateResiduals actual predicted = Err InvalidVectors)
  /\ (length actual = length predicted ->
      exists residuals,
        Evaluator.calculateResiduals actual predicted = Ok residuals
        /\ length residuals = length actual
        /\ forall i, i < length actual ->
             nth i residuals d0 = dsub (nth i actual d0) (nth i predicted d0))
  /\ Evaluator.calculateResiduals (D := D) [] [] = Ok []
  /\ Evaluator.calculateMAPE (D := D) [] [] = Err InvalidVectors
  /\ Evaluator.calculateR2 (D := D) [] [] = Err InvalidVectors.
Proof.
  split; [|split; [|repeat split]].
  - intros H. unfold Evaluator.calculateResiduals.
    destruct (Nat.eqb_spec (length actual) (length predicted)); [contradiction|].
    reflexivity.
  - intros Hlen. eexists. split; [now apply calculateResiduals_spec|].
    split.
    + rewrite length_map, length_combine, <- Hlen. apply Nat.min_id.
    + intros i Hi.
      rewrite (nth_indep _ d0 (dsub (fst (d0, d0)) (snd (d0, d0))))
        by (rewrite length_map, length_combine, <- Hlen, Nat.min_id; exact Hi).
      rewrite (map_nth (fun ap : D * D => dsub (fst ap) (snd ap))).
      now rewrite combine_nth.
Qed.

(** X14.  For a trained model, the member [calculateRSquared] on a
    non-empty set and the static [calculateR2] on the targets and the
    batch predictions of that set return the same value.  On an empty set
    they differ: the member returns [1.0] (its total sum of squares is
    [0.0]), the static function throws. *)
Theorem rSquared_agreement (this : LinearRegression.t D) (data : Dataset.t) :
  LinearRegression.isTrained this = true ->
  (data <> [] ->
   exists predictions,
     LinearRegression.predictAll this data = Ok predictions
     /\ Evaluator.calculateR2 (Spec.actuals data) predictions
        = LinearRegression.calculateRSquared this data)
  /\ (deqb d0 d0 = true ->
      LinearRegression.calculateRSquared this [] = Ok d1
      /\ exists predictions,
           LinearRegression.predictAll this [] = Ok predictions
           /\ Evaluator.calculateR2 (Spec.actuals []) predictions
              = Err InvalidVectors).
Proof.
  intros Ht. split.
  - intros Hne. exists (Spec.predictions this data).
    split; [now apply predictAll_trained|].
    rewrite calculateRSquared_spec by assumption.
    apply calculateR2_spec.
    + unfold Spec.actuals, Spec.predictions. now rewrite !length_map.
    + unfold Spec.actuals. destruct data; [congruence|discriminate].
  - intros Hz. split.
    + unfold LinearRegression.calculateRSquared. rewrite Ht. simpl.
      now rewrite Hz.
    + exists []. split; reflexivity.
Qed.

Lemma evaluate_actuals (testData : Dataset.t) :
  forM (seq 0 (Dataset.size testData))
       (fun i actuals =>
          p <- Dataset.at_ testData i ;;
          Ok (actuals ++ [DataPoint.getTarget (D := D) p])) []
  = Ok (Spec.actuals testData).
Proof.
  rewrite (forM_dataset testData _ (fun y p => y ++ [DataPoint.getTarget p])).
  - now rewrite fold_left_snoc.
  - intros i y Hi. now rewrite (at_nth testData Hi).
Qed.

(** X15.  [evaluate] throws [runtime_error] on an untrained model and
    [invalid_argument] on a trained model given an empty set (the MAPE of
    two empty sequences is refused).  On a trained model and a non-empty
    set it returns the record whose predictions are the batch
    predictions, whose actuals are the targets, whose residuals are
    [actual_i - prediction_i], and whose five scores are what the four
    members of the model and the static [calculateMAPE] return; its RMSE
    is the square root of its MSE and its R squared is what the static
    [calculateR2] returns on its actuals and predictions. *)
Theorem evaluate_correct (model : LinearRegression.t D) (testData : Dataset.t) :
  (LinearRegression.isTrained model = false ->
   Evaluator.evaluate model testData = Err NotTrained)
  /\ (LinearRegression.isTrained model = true -> testData = [] ->
      Evaluator.evaluate model testData = Err InvalidVectors)
  /\ (LinearRegression.isTrained model = true -> testData <> [] ->
      exists r,
        Evaluator.evaluate model testData = Ok r
        /\ LinearRegression.predictAll model testData = Ok (Evaluator.predictions r)
        /\ Evaluator.actuals r = Spec.actuals testData
        /\ length (Evaluator.predictions r) = Dataset.size testData
        /\ length (Evaluator.actuals r) = Dataset.size testData
        /\ length (Evaluator.residuals r) = Dataset.size testData
        /\ (forall i, i < Dataset.size testData ->
              nth i (Evaluator.residuals r) d0
              = dsub (nth i (Evaluator.actuals r) d0)
                     (nth i (Evaluator.predictions r) d0))
        /\ LinearRegression.calculateRMSE model testData = Ok (Evaluator.rmse r)
        /\ LinearRegression.calculateMSE model testData = Ok (Evaluator.mse r)
        /\ LinearRegression.calculateMAE model testData = Ok (Evaluator.mae r)
        /\ LinearRegression.calculateRSquared model testData
           = Ok (Evaluator.rSquared r)
        /\ Evaluator.calculateMAPE (Evaluator.actuals r) (Evaluator.predictions r)
           = Ok (Evaluator.meanAbsolutePercentageError r)
        /\ Evaluator.rmse r = dsqrt (Evaluator.mse r)
        /\ Evaluator.calculateR2 (Evaluator.actuals r) (Evaluator.predictions r)
           = Ok (Evaluator.rSquared r)).
Proof.
  split; [|split].
  - intros Ht. unfold Evaluator.evaluate. now rewrite Ht.
  - intros Ht ->. unfold Evaluator.evaluate. rewrite Ht. cbn [negb].
    rewrite predictAll_trained by assumption. cbn [bind].
    rewrite evaluate_actuals. cbn [bind].
    rewrite calculateResiduals_spec by reflexivity. cbn [bind].
    rewrite calculateRMSE_spec, calculateMSE_spec, calculateMAE_spec,
      calculateRSquared_spec by assumption.
    reflexivity.
  - intros Ht Hne.
    assert (Hlen : length (Spec.actuals (D := D) testData)
                   = length (Spec.predictions model testData))
      by (unfold Spec.actuals, Spec.predictions; now rewrite !length_map).
    assert (Hla : length (Spec.actuals (D := D) testData) = Dataset.size testData)
      by (unfold Spec.actuals, Dataset.size; now rewrite length_map).
    assert (Hna : Spec.actuals (D := D) testData <> [])
      by (unfold Spec.actuals; destruct testData; [congruence|discriminate]).
    destruct (calculateResiduals_correct (Spec.actuals testData)
                (Spec.predictions model testData))
      as (_ & Hres & _).
    destruct (Hres Hlen) as (residuals & Er & Hlr & Hnr).
    exists (Evaluator.mkResults
              (Spec.RMSE (Spec.actuals testData) (Spec.predictions model testData))
              (Spec.MSE (Spec.actuals testData) (Spec.predictions model testData))
              (Spec.MAE (Spec.actuals testData) (Spec.predictions model testData))
              (Spec.R2 (Spec.actuals testData) (Spec.predictions model testData))
              (Spec.MAPE (Spec.actuals testData) (Spec.predictions model testData))
              (Spec.predictions model testData) (Spec.actuals testData) residuals).
    cbn [Evaluator.predictions Evaluator.actuals Evaluator.residuals
         Evaluator.rmse Evaluator.mse Evaluator.mae Evaluator.rSquared
         Evaluator.meanAbsolutePercentageError].
    split.
    { unfold Evaluator.evaluate. rewrite Ht. cbn [negb].
      rewrite predictAll_trained by assumption. cbn [bind].
      rewrite evaluate_actuals. cbn [bind].
      rewrite Er. cbn [bind].
      rewrite calculateRMSE_spec, calculateMSE_spec, calculateMAE_spec,
        calculateRSquared_spec by assumption.
      cbn [bind]. rewrite calculateMAPE_spec by assumption. reflexivity. }
    split; [now apply predictAll_trained|]. split; [reflexivity|].
    split; [congruence|]. split; [assumption|]. split; [congruence|].
    split; [intros i Hi; apply Hnr; congruence|].
    split; [now apply calculateRMSE_spec|].
    split; [now apply calculateMSE_spec|].
    split; [now apply calculateMAE_spec|].
    split; [now apply calculateRSquared_spec|].
    split; [now apply calculateMAPE_spec|].
    split; [reflexivity|now apply calculateR2_spec].
Qed.

(** The sign facts the dispersion statistics rest on, true of exact
    arithmetic and of IEEE-754. *)
Hypothesis zero_not_neg : dltb d0 d0 = false.
Hypothesis sqrt_not_neg : forall x, dltb (dsqrt x) d0 = false.
Hypothesis square_not_neg : forall x, dltb (dmul x x) d0 = false.
Hypothesis add_not_neg :
  forall x y, dltb x d0 = false -> dltb y d0 = false -> dltb (dadd x y) d0 = false.
Hypothesis div_count_not_neg :
  forall x n, dltb x d0 = false -> dltb (ddiv x (of_size (S n))) d0 = false.

(** X16.  The three private statistics of the evaluator return [0.0],
    [0.0] and [sqrt(0.0)] for no values.  For at least one value they are
    the mean, the mean of the squared deviations from that mean, and the
    square root of the latter; and neither the variance nor the standard
    deviation is ever below zero.  [LinearRegression::calculateMean] is
    the same function. *)
Theorem dispersion_statistics (values : list D) :
  (Evaluator.calculateMean (D := D) [] = d0
   /\ LinearRegression.calculateMean (D := D) [] = d0
   /\ Evaluator.calculateVariance (D := D) [] = d0
   /\ Evaluator.calculateStandardDeviation (D := D) [] = dsqrt d0)
  /\ (values <> [] ->
      Evaluator.calculateMean values = Spec.mean values
      /\ LinearRegression.calculateMean values = Spec.mean values
      /\ Evaluator.calculateVariance values = Spec.variance values
      /\ Evaluator.calculateStandardDeviation values
         = dsqrt (Spec.variance values))
  /\ dltb (Evaluator.calculateVariance values) d0 = false
  /\ dltb (Evaluator.calculateStandardDeviation values) d0 = false.
Proof.
  assert (Hv : forall x l, Evaluator.calculateVariance (x :: l)
                           = Spec.variance (x :: l)).
  { intros x l. unfold Evaluator.calculateVariance, Spec.variance, Spec.sum.
    cbn zeta. rewrite fold_left_add_map. reflexivity. }
  split; [repeat split; reflexivity|]. split; [|split].
  - intros Hne. destruct values as [|x l]; [congruence|].
    split; [reflexivity|]. split; [reflexivity|].
    split; [apply Hv|]. unfold Evaluator.calculateStandardDeviation. now rewrite Hv.
  - destruct values as [|x l]; [exact zero_not_neg|].
    rewrite Hv. unfold Spec.variance. cbn [length].
    apply div_count_not_neg. unfold Spec.sum.
    assert (G : forall (l' : list D) s,
               dltb s d0 = false ->
               dltb (fold_left dadd
                       (map (fun v => Spec.sq (dsub v (Spec.mean (x :: l)))) l') s)
                    d0 = false).
    { induction l' as [|y l' IH]; intros s Hs; simpl; [assumption|].
      apply IH. apply add_not_neg; [assumption|apply square_not_neg]. }
    apply G. exact zero_not_neg.
  - apply sqrt_not_neg.
Qed.

End Evaluation.

Lemma SFmul_self_signless (x : spec_float) : signless (SFmul prec emax x x) = true.
Proof.
  destruct x as [s|s| |s m e]; try destruct s; try reflexivity;
    cbn [SFmul xorb]; apply positive_signless, binary_round_aux_sign.
Qed.

Lemma Float64_square_not_neg (x : float) : dltb (dmul x x) d0 = false.
Proof.
  rewrite Float64_not_neg. simpl. rewrite mul_spec.
  unfold SF64mul. now rewrite SFmul_self_signless.
Qed.

(** On binary64. *)
Lemma calculateResiduals_correct_witness :
  Evaluator.calculateResiduals [5; 7]%float [4; 9]%float = Ok [1; -2]%float
  /\ Evaluator.calculateResiduals [5; 7]%float [4]%float = Err InvalidVectors.
Proof.
  destruct (@calculateResiduals_correct float Float64 [5; 7]%float [4; 9]%float)
    as (_ & H & _).
  destruct (H eq_refl) as (residuals & E & _).
  split; [rewrite E; f_equal; vm_compute in E; injection E as <-; reflexivity|].
  apply (@calculateResiduals_correct float Float64 [5; 7]%float [4]%float).
  simpl. lia.
Defined.

Lemma rSquared_agreement_witness :
  exists predictions,
    LinearRegression.predictAll
      (snd (LinearRegression.train (D := float) Samples.basis LinearRegression.new))
      Samples.three = Ok predictions
    /\ Evaluator.calculateR2 (Spec.actuals Samples.three) predictions
       = LinearRegression.calculateRSquared
           (snd (LinearRegression.train (D := float) Samples.basis
                   LinearRegression.new))
           Samples.three.
Proof.
  destruct (@rSquared_agreement float Float64
              (snd (LinearRegression.train Samples.basis LinearRegression.new))
              Samples.three) as [H _]; [vm_compute; reflexivity|].
  apply H. discriminate.
Defined.

Lemma evaluate_correct_witness :
  Evaluator.evaluate (D := float) LinearRegression.new Samples.three
  = Err NotTrained
  /\ Evaluator.evaluate
       (snd (LinearRegression.train (D := float) Samples.basis LinearRegression.new))
       [] = Err InvalidVectors
  /\ exists r,
       Evaluator.evaluate
         (snd (LinearRegression.train (D := float) Samples.basis LinearRegression.new))
         Samples.three = Ok r
       /\ Evaluator.rmse r = PrimFloat.sqrt (Evaluator.mse r)
       /\ length (Evaluator.residuals r) = 3.
Proof.
  split; [|split].
  - apply (@evaluate_correct float Float64 LinearRegression.new Samples.three).
    reflexivity.
  - apply (@evaluate_correct float Float64
             (snd (LinearRegression.train Samples.basis LinearRegression.new)) []);
      [vm_compute; reflexivity|reflexivity].
  - destruct (@evaluate_correct float Float64
                (snd (LinearRegression.train Samples.basis LinearRegression.new))
                Samples.three) as (_ & _ & H).
    destruct H as (r & E & _ & _ & _ & _ & Hl & _ & _ & _ & _ & _ & _ & Hs & _);
      [vm_compute; reflexivity|discriminate|].
    exists r. split; [exact E|]. split; [exact Hs|exact Hl].
Defined.

Lemma dispersion_statistics_witness :
  Evaluator.calculateVariance [1; 2; 3; 6]%float = 3.5%float
  /\ PrimFloat.ltb (Evaluator.calculateStandardDeviation [1; 2; 3; 6]%float) 0
     = false.
Proof.
  destruct (@dispersion_statistics float Float64 Float64_zero_not_neg
              Float64_sqrt_not_neg Float64_square_not_neg Float64_add_not_neg
              Float64_div_count_not_neg [1; 2; 3; 6]%float)
    as (_ & H & _ & Hs).
  destruct (H ltac:(discriminate)) as (_ & _ & Hv & _).
  split; [rewrite Hv; vm_compute; reflexivity|exact Hs].
Defined.

(** * LinearRegression.cpp: the folds of [crossValidate], in general *)

Section FoldPartition.

Lemma map_nth_seq (A : Type) (d : A) (l : list A) (a len : nat) :
  a + len <= length l ->
  map (fun i => nth i l d) (seq a len) = firstn len (skipn a l).
Proof.
  intros H. apply (nth_ext _ _ d d).
  - rewrite length_map, length_seq, length_firstn, length_skipn. lia.
  - intros i Hi. rewrite length_map, length_seq in Hi.
    rewrite (nth_indep _ d (nth 0 l d)) by (now rewrite length_map, length_seq).
    rewrite (map_nth (fun i => nth i l d)), seq_nth by assumption.
    rewrite nth_firstn, nth_skipn.
    now rewrite (proj2 (Nat.ltb_lt i len) Hi).
Qed.

Lemma firstn_plus (A : Type) (a b : nat) (l : list A) :
  firstn (a + b) l = firstn a l ++ firstn b (skipn a l).
Proof.
  revert l; induction a as [|a IH]; intros l; [reflexivity|].
  destruct l as [|x l]; simpl; [now rewrite firstn_nil|].
  now rewrite IH.
Qed.

(** The inner loop of [crossValidate], for a membership test [P] on the
    positions: every example goes to exactly one of the two sets, in
    order. *)
Lemma split_positions (data : Dataset.t) (P : nat -> bool) (l : list nat)
      (trainSet validSet : Dataset.t) :
  fold_left
    (fun (sets : Dataset.t * Dataset.t) i =>
       let '(trainSet, validSet) := sets in
       if P i
       then (trainSet, Dataset.addDataPoint validSet (nth i data DataPoint.default))
       else (Dataset.addDataPoint trainSet (nth i data DataPoint.default), validSet))
    l (trainSet, validSet)
  = (trainSet ++ map (fun i => nth i data DataPoint.default)
                     (filter (fun i => negb (P i)) l),
     validSet ++ map (fun i => nth i data DataPoint.default) (filter P l)).
Proof.
  revert trainSet validSet; induction l as [|i l IH]; intros tr va; simpl.
  - now rewrite !app_nil_r.
  - destruct (P i); simpl; rewrite IH; unfold Dataset.addDataPoint;
      now rewrite <- app_assoc.
Qed.

Lemma filter_interval (lo hi n : nat) (P : nat -> bool) :
  lo <= hi <= n ->
  (forall i, i < n -> P i = (lo <=? i) && (i <? hi)) ->
  filter P (seq 0 n) = seq lo (hi - lo)
  /\ filter (fun i => negb (P i)) (seq 0 n) = seq 0 lo ++ seq hi (n - hi).
Proof.
  intros Hb HP.
  assert (E : seq 0 n = seq 0 lo ++ seq lo (hi - lo) ++ seq hi (n - hi)).
  { replace n with (lo + ((hi - lo) + (n - hi))) at 1 by lia.
    rewrite !seq_app. cbn [Nat.add]. do 3 f_equal. lia. }
  assert (Hall : forall (Q : nat -> bool) l, (forall i, In i l -> Q i = true) ->
                   filter Q l = l).
  { intros Q l H. induction l as [|x l IH]; simpl; [reflexivity|].
    rewrite (H x) by (left; reflexivity). f_equal.
    apply IH. intros; apply H; right; assumption. }
  assert (Hnone : forall (Q : nat -> bool) l, (forall i, In i l -> Q i = false) ->
                    filter Q l = []).
  { intros Q l H. induction l as [|x l IH]; simpl; [reflexivity|].
    rewrite (H x) by (left; reflexivity).
    apply IH. intros; apply H; right; assumption. }
  rewrite E, !filter_app. split.
  - rewrite (Hnone P (seq 0 lo)), (Hall P (seq lo (hi - lo))),
      (Hnone P (seq hi (n - hi))); [now rewrite app_nil_r| | |];
      intros i Hi; apply in_seq in Hi; rewrite HP by lia;
      destruct (Nat.leb_spec lo i), (Nat.ltb_spec i hi); try reflexivity; lia.
  - rewrite (Hall _ (seq 0 lo)), (Hnone _ (seq lo (hi - lo))),
      (Hall _ (seq hi (n - hi))); [reflexivity| | |];
      intros i Hi; apply in_seq in Hi; rewrite HP by lia;
      destruct (Nat.leb_spec lo i), (Nat.ltb_spec i hi); try reflexivity; lia.
Qed.

(** When the membership test of a fold holds exactly on the positions
    [lo .. hi - 1], the validation set is that block and the training set
    is what is before and after it. *)
Lemma splitFold_interval (data : Dataset.t) (folds fold foldSize : Z)
      (lo hi : nat) :
  lo <= hi <= length data ->
  (forall i, i < length data ->
     LinearRegression.inValidSet folds fold foldSize (Z.of_nat i)
     = (lo <=? i) && (i <? hi)) ->
  LinearRegression.splitFold data folds fold foldSize
  = Ok (firstn lo data ++ skipn hi data, firstn (hi - lo) (skipn lo data)).
Proof.
  intros Hb HP. unfold LinearRegression.splitFold.
  rewrite (forM_pure _ _
             (fun i (sets : Dataset.t * Dataset.t) =>
                let '(trainSet, validSet) := sets in
                if LinearRegression.inValidSet folds fold foldSize (Z.of_nat i)
                then (trainSet,
                      Dataset.addDataPoint validSet (nth i data DataPoint.default))
                else (Dataset.addDataPoint trainSet (nth i data DataPoint.default),
                      validSet))).
  2:{ intros i [tr va] Hi. apply in_seq in Hi.
      rewrite at_nth by (unfold Dataset.size in Hi; lia). cbn [bind].
      destruct (LinearRegression.inValidSet _ _ _ _); reflexivity. }
  f_equal. unfold Dataset.size.
  rewrite (split_positions data
             (fun i => LinearRegression.inValidSet folds fold foldSize (Z.of_nat i))).
  destruct (@filter_interval lo hi (length data)
              (fun i => LinearRegression.inValidSet folds fold foldSize (Z.of_nat i))
              Hb HP) as [Ev Et].
  rewrite Ev, Et. cbn [app]. rewrite map_app.
  rewrite !map_nth_seq by lia. f_equal.
  cbn [skipn]. f_equal.
  apply firstn_all2. rewrite length_skipn. lia.
Qed.

Local Open Scope Z_scope.

Lemma to_size_t_small (z : Z) :
  0 <= z < 2 ^ 64 -> LinearRegression.to_size_t z = z.
Proof. intros H. unfold LinearRegression.to_size_t. now apply Z.mod_small. Qed.

End FoldPartition.

Section FoldsInGeneral.

(** The membership test of a fold before the last one, and of the last
    one, on a dataset that fits [size_t]. *)
Lemma inValidSet_inner (n folds fold i : nat) :
  1 <= folds <= n -> (Z.of_nat n < 2 ^ 64)%Z -> fold < folds - 1 -> i < n ->
  LinearRegression.inValidSet (Z.of_nat folds) (Z.of_nat fold)
    (Z.of_nat (n / folds)) (Z.of_nat i)
  = (fold * (n / folds) <=? i) && (i <? fold * (n / folds) + n / folds).
Proof.
  intros Hf Hn Hfold Hi. set (s := n / folds).
  assert (Hs : folds * s <= n) by (apply Nat.Div0.mul_div_le).
  assert (H1 : fold * s + s <= folds * s).
  { replace (fold * s + s) with ((fold + 1) * s) by lia.
    apply Nat.mul_le_mono_r. lia. }
  unfold LinearRegression.inValidSet.
  replace ((Z.of_nat fold + 1) * Z.of_nat s)%Z with (Z.of_nat (fold * s + s))
    by (rewrite Nat2Z.inj_add, Nat2Z.inj_mul; ring).
  rewrite <- Nat2Z.inj_mul.
  rewrite !to_size_t_small by lia.
  destruct (Z.leb_spec (Z.of_nat (fold * s)) (Z.of_nat i)),
    (Z.ltb_spec (Z.of_nat i) (Z.of_nat (fold * s + s))),
    (Z.ltb_spec (Z.of_nat fold) (Z.of_nat folds - 1)),
    (Z.eqb_spec (Z.of_nat fold) (Z.of_nat folds - 1)),
    (Nat.leb_spec (fold * s) i), (Nat.ltb_spec i (fold * s + s));
    cbn [andb]; try reflexivity; lia.
Qed.

Lemma inValidSet_last (n folds i : nat) :
  1 <= folds <= n -> (Z.of_nat n < 2 ^ 64)%Z -> i < n ->
  LinearRegression.inValidSet (Z.of_nat folds) (Z.of_nat (folds - 1))
    (Z.of_nat (n / folds)) (Z.of_nat i)
  = ((folds - 1) * (n / folds) <=? i) && (i <? n).
Proof.
  intros Hf Hn Hi. set (s := n / folds).
  assert (Hs : folds * s <= n) by (apply Nat.Div0.mul_div_le).
  assert (H1 : (folds - 1) * s <= folds * s) by (apply Nat.mul_le_mono_r; lia).
  unfold LinearRegression.inValidSet.
  rewrite <- Nat2Z.inj_mul.
  assert (Hp : (folds - 1) * s <= n) by lia.
  assert (Hk : Z.of_nat (folds - 1) = (Z.of_nat folds - 1)%Z) by lia.
  generalize dependent ((folds - 1) * s). intros p _ Hp.
  rewrite (@to_size_t_small (Z.of_nat p)) by lia.
  rewrite Hk, Z.ltb_irrefl, Z.eqb_refl, andb_false_r. cbn [andb].
  destruct (Z.leb_spec (Z.of_nat p) (Z.of_nat i)),
    (Nat.leb_spec p i), (Nat.ltb_spec i n); try reflexivity; lia.
Qed.

(** The blocks [0 .. m - 1] of [s] examples, put end to end. *)
Lemma concat_blocks (data : Dataset.t) (s m : nat) :
  concat (map (fun fold => firstn s (skipn (fold * s) data)) (seq 0 m))
  = firstn (m * s) data.
Proof.
  induction m as [|m IH]; [reflexivity|].
  rewrite seq_S, map_app, concat_app, IH. cbn [map concat Nat.add].
  rewrite app_nil_r. replace (S m * s) with (m * s + s) by lia.
  now rewrite firstn_plus.
Qed.

(** X17.  For every dataset and fold count [k] with [1 <= k <= n] (the
    sizes fitting [size_t] and [int]), [crossValidate] cuts the data with
    [foldSize = n / k]: fold [f < k - 1] is validated on the block of
    [foldSize] examples starting at [f * foldSize] and trained on the
    examples before and after it; the last fold is validated on every
    example from [(k - 1) * foldSize] on and trained on those before.  The
    [k] validation sets, put end to end, are the dataset: no example is
    left out and none is used twice. *)
Theorem crossValidate_partition (data : Dataset.t) (folds : nat) :
  1 <= folds <= length data ->
  (Z.of_nat (length data) < 2 ^ 64)%Z -> (Z.of_nat folds < 2 ^ 31)%Z ->
  LinearRegression.foldSizeOf data (Z.of_nat folds)
  = Z.of_nat (length data / folds)
  /\ (forall fold, fold < folds - 1 ->
        LinearRegression.splitFold data (Z.of_nat folds) (Z.of_nat fold)
          (LinearRegression.foldSizeOf data (Z.of_nat folds))
        = Ok (firstn (fold * (length data / folds)) data
                ++ skipn (fold * (length data / folds) + length data / folds) data,
              firstn (length data / folds)
                     (skipn (fold * (length data / folds)) data)))
  /\ LinearRegression.splitFold data (Z.of_nat folds) (Z.of_nat (folds - 1))
       (LinearRegression.foldSizeOf data (Z.of_nat folds))
     = Ok (firstn ((folds - 1) * (length data / folds)) data,
           skipn ((folds - 1) * (length data / folds)) data)
  /\ exists validSets,
       Spec.validSets data folds = Ok validSets
       /\ length validSets = folds
       /\ concat validSets = data
       /\ (forall fold, fold < folds - 1 ->
             length (nth fold validSets []) = length data / folds)
       /\ length (nth (folds - 1) validSets [])
          = length data - (folds - 1) * (length data / folds).
Proof.
  intros Hf Hn Hint. set (n := length data) in *. set (s := n / folds).
  assert (Hs : folds * s <= n) by (apply Nat.Div0.mul_div_le).
  assert (Hfs : LinearRegression.foldSizeOf data (Z.of_nat folds) = Z.of_nat s).
  { unfold LinearRegression.foldSizeOf, Dataset.size. fold n.
    rewrite to_size_t_small by lia. unfold s.
    now rewrite Nat2Z.inj_div. }
  assert (Hinner : forall fold, fold < folds - 1 ->
            LinearRegression.splitFold data (Z.of_nat folds) (Z.of_nat fold)
              (Z.of_nat s)
            = Ok (firstn (fold * s) data ++ skipn (fold * s + s) data,
                  firstn s (skipn (fold * s) data))).
  { intros fold Hfold.
    assert (H1 : fold * s + s <= folds * s).
    { replace (fold * s + s) with ((fold + 1) * s) by lia.
      apply Nat.mul_le_mono_r. lia. }
    rewrite (@splitFold_interval data _ _ _ (fold * s) (fold * s + s)).
    - do 3 f_equal. lia.
    - fold n. lia.
    - intros i Hi. now apply inValidSet_inner. }
  assert (Hlast : LinearRegression.splitFold data (Z.of_nat folds)
                    (Z.of_nat (folds - 1)) (Z.of_nat s)
                  = Ok (firstn ((folds - 1) * s) data,
                        skipn ((folds - 1) * s) data)).
  { assert (H1 : (folds - 1) * s <= folds * s) by (apply Nat.mul_le_mono_r; lia).
    rewrite (@splitFold_interval data _ _ _ ((folds - 1) * s) n).
    - f_equal. f_equal.
      + rewrite (skipn_all2 data (n := n)) by (unfold n; lia). apply app_nil_r.
      + apply firstn_all2. rewrite length_skipn. fold n. lia.
    - fold n. lia.
    - intros i Hi. now apply inValidSet_last. }
  split; [assumption|]. rewrite Hfs.
  split; [assumption|]. split; [assumption|].
  set (V := fun fold => if fold <? folds - 1
                        then firstn s (skipn (fold * s) data)
                        else skipn ((folds - 1) * s) data).
  exists (map V (seq 0 folds)).
  assert (Hseq : seq 0 folds = seq 0 (folds - 1) ++ [folds - 1]).
  { replace folds with (folds - 1 + 1) at 1 by lia. now rewrite seq_app. }
  split.
  { unfold Spec.validSets. rewrite Hfs.
    rewrite (forM_pure _ _ (fun fold acc => acc ++ [V fold])).
    - now rewrite (fold_left_snoc V).
    - intros fold acc Hfold. apply in_seq in Hfold. unfold V.
      destruct (Nat.ltb_spec fold (folds - 1)) as [Hlt|Hge].
      + now rewrite Hinner.
      + replace fold with (folds - 1) by lia. now rewrite Hlast. }
  split; [now rewrite length_map, length_seq|]. split.
  { rewrite Hseq, map_app, concat_app. cbn [map concat].
    rewrite (map_ext_in V (fun fold => firstn s (skipn (fold * s) data))).
    - rewrite concat_blocks. unfold V. rewrite Nat.ltb_irrefl, app_nil_r.
      apply firstn_skipn.
    - intros fold Hfold. apply in_seq in Hfold. unfold V.
      destruct (Nat.ltb_spec fold (folds - 1)); [reflexivity|lia]. }
  split.
  { intros fold Hfold.
    rewrite (nth_indep _ [] (V 0)) by (rewrite length_map, length_seq; lia).
    rewrite (map_nth V), seq_nth by lia. cbn [Nat.add]. unfold V.
    destruct (Nat.ltb_spec fold (folds - 1)); [|lia].
    assert (H1 : fold * s + s <= folds * s).
    { replace (fold * s + s) with ((fold + 1) * s) by lia.
      apply Nat.mul_le_mono_r. lia. }
    rewrite length_firstn, length_skipn. fold n. lia. }
  rewrite (nth_indep _ [] (V 0)) by (rewrite length_map, length_seq; lia).
  rewrite (map_nth V), seq_nth by lia. cbn [Nat.add]. unfold V.
  rewrite Nat.ltb_irrefl. now rewrite length_skipn.
Qed.

End FoldsInGeneral.

(** On 23 numbered examples and 5 folds. *)
Lemma crossValidate_partition_witness :
  LinearRegression.splitFold (Samples.numbered 23) 5 2
    (LinearRegression.foldSizeOf (Samples.numbered 23) 5)
  = Ok (firstn 8 (Samples.numbered 23) ++ skipn 12 (Samples.numbered 23),
        firstn 4 (skipn 8 (Samples.numbered 23))).
Proof.
  destruct (@crossValidate_partition (Samples.numbered 23) 5)
    as (_ & H & _); [vm_compute; lia|vm_compute; reflexivity|reflexivity|].
  apply (H 2). lia.
Defined.

Section SingleFold.
Context {D : Type} {DA : Double D}.

(** X18.  With one fold, [crossValidate] validates on the whole dataset
    and trains on nothing: the only training fails, no RMSE is recorded,
    and the result is the sentinel [-1.0], whatever the (non-empty)
    dataset and whatever the state of the receiver.  On an empty dataset
    the call throws [invalid_argument]. *)
Theorem crossValidate_single_fold (this : LinearRegression.t D)
        (data : Dataset.t) :
  (data <> [] ->
   LinearRegression.splitFold data 1 0 (LinearRegression.foldSizeOf data 1)
   = Ok ([], data)
   /\ LinearRegression.crossValidate this data 1 = Ok (dopp d1))
  /\ (data = [] -> LinearRegression.crossValidate this data 1 = Err TooManyFolds).
Proof.
  split.
  - intros Hne.
    assert (Hlen : 1 <= length data) by (destruct data; [congruence|simpl; lia]).
    assert (Hsplit : LinearRegression.splitFold data 1 0
                       (LinearRegression.foldSizeOf data 1) = Ok ([], data)).
    { rewrite (@splitFold_interval data 1 0 _ 0 (length data)).
      - cbn [firstn skipn Nat.sub]. rewrite Nat.sub_0_r.
        rewrite skipn_all2, firstn_all2 by lia. reflexivity.
      - lia.
      - intros i Hi. unfold LinearRegression.inValidSet.
        change (0 <? 1 - 1)%Z with false. rewrite andb_false_r.
        change (0 =? 1 - 1)%Z with true.
        change (LinearRegression.to_size_t (0 * LinearRegression.foldSizeOf data 1))
          with 0%Z.
        destruct (Z.leb_spec 0 (Z.of_nat i)); [|lia].
        destruct (Nat.ltb_spec i (length data)); [reflexivity|lia]. }
    split; [assumption|].
    rewrite crossValidate_spec by lia.
    unfold Spec.foldRMSEs. change (Z.to_nat 1) with 1. cbn [seq flat_map].
    unfold Spec.foldRMSE. change (Z.of_nat 0) with 0%Z. rewrite Hsplit.
    reflexivity.
  - intros ->. reflexivity.
Qed.

End SingleFold.

(** On binary64, thirteen examples. *)
Lemma crossValidate_single_fold_witness :
  LinearRegression.crossValidate (D := float) LinearRegression.new Samples.mixed 1
  = Ok (-1)%float.
Proof.
  destruct (@crossValidate_single_fold float Float64 LinearRegression.new
              Samples.mixed) as [H _].
  apply H. discriminate.
Defined.

(** * Dataset.cpp: access, growth, and the feature matrix *)

Section DatasetAccess.
Context {D : Type} {DA : Double D}.

(** X19.  [operator[]] throws [out_of_range] exactly when the index is not
    below [size()].  [addDataPoint] makes the dataset one longer, the new
    example is read back at the old size, the examples before it keep
    their positions, and the dataset is no longer empty; [clear] leaves
    an empty dataset. *)
Theorem dataset_access (d : Dataset.t) (point : DataPoint.t) (index : nat) :
  (Dataset.at_ d index = Err IndexOutOfRange <-> Dataset.size d <= index)
  /\ (index < Dataset.size d ->
      exists p, Dataset.at_ d index = Ok p
                /\ Dataset.at_ (Dataset.addDataPoint d point) index = Ok p)
  /\ Dataset.size (Dataset.addDataPoint d point) = S (Dataset.size d)
  /\ Dataset.at_ (Dataset.addDataPoint d point) (Dataset.size d) = Ok point
  /\ Dataset.empty (Dataset.addDataPoint d point) = false
  /\ (Dataset.empty d = true <-> Dataset.size d = 0)
  /\ Dataset.size (Dataset.clear d) = 0
  /\ Dataset.empty (Dataset.clear d) = true.
Proof.
  unfold Dataset.size, Dataset.addDataPoint, Dataset.at_.
  split; [|split; [|split; [|split; [|split; [|split; [|split]]]]]].
  - destruct (nth_error d index) as [p|] eqn:E.
    + split; [discriminate|]. intros H.
      apply nth_error_None in H. congruence.
    + split; [intros _; now apply nth_error_None|reflexivity].
  - intros Hi. destruct (nth_error d index) as [p|] eqn:E.
    + exists p. split; [reflexivity|].
      now rewrite nth_error_app1, E.
    + apply nth_error_None in E. lia.
  - rewrite length_app. simpl. lia.
  - rewrite nth_error_app2 by lia. now rewrite Nat.sub_diag.
  - destruct d; reflexivity.
  - destruct d; simpl; split; intros H; try reflexivity; discriminate.
  - reflexivity.
  - reflexivity.
Qed.

Lemma getMatrices_maps (d : Dataset.t) :
  Dataset.getMatrices (D := D) d
  = (map DataPoint.getFeatureVector d, map DataPoint.getTarget d).
Proof.
  unfold Dataset.getMatrices.
  assert (G : forall l (X : list (list D)) (y : list D),
             fold_left
               (fun Xy point =>
                  let '(X, y) := Xy in
                  (X ++ [DataPoint.getFeatureVector point],
                   y ++ [DataPoint.getTarget point])) l (X, y)
             = (X ++ map DataPoint.getFeatureVector l,
                y ++ map DataPoint.getTarget l)).
  { induction l as [|p l IH]; intros X y; simpl.
    - now rewrite !app_nil_r.
    - rewrite IH, <- !app_assoc. reflexivity. }
  apply G.
Qed.

(** X20.  [getMatrices] returns one feature row of six numbers and one
    target per example, in order.  The design matrix and the target
    vector both trainings build hold the same rows and the same targets;
    for no example the design matrix is the [0 x 6] matrix. *)
Theorem getMatrices_correct (d : Dataset.t) :
  exists X y,
    Dataset.getMatrices (D := D) d = (X, y)
    /\ length X = Dataset.size d /\ length y = Dataset.size d
    /\ (forall i, i < Dataset.size d ->
          exists p, Dataset.at_ d i = Ok p
                    /\ nth i X [] = DataPoint.getFeatureVector p
                    /\ length (nth i X []) = 6
                    /\ nth i y d0 = DataPoint.getTarget p)
    /\ LinearRegression.createTargetVector d = Ok y
    /\ (d <> [] -> LinearRegression.createDesignMatrix d = Ok (Matrix.of_rows X))
    /\ (d = [] -> LinearRegression.createDesignMatrix d = Ok (Matrix.new 0 6)).
Proof.
  exists (map DataPoint.getFeatureVector d), (map DataPoint.getTarget d).
  split; [apply getMatrices_maps|].
  unfold Dataset.size.
  split; [apply length_map|]. split; [apply length_map|]. split.
  - intros i Hi. exists (nth i d DataPoint.default).
    split; [now apply at_nth|].
    rewrite (nth_indep _ [] (DataPoint.getFeatureVector DataPoint.default))
      by (now rewrite length_map).
    rewrite (nth_indep (map DataPoint.getTarget d) d0
               (DataPoint.getTarget DataPoint.default))
      by (now rewrite length_map).
    rewrite (map_nth (DataPoint.getFeatureVector (D := D))).
    rewrite (map_nth (DataPoint.getTarget (D := D))).
    repeat split; reflexivity.
  - split; [apply createTargetVector_actuals|]. split.
    + intros Hne. rewrite createDesignMatrix_table. f_equal.
      unfold Spec.designMatrix, Spec.table, Matrix.of_rows, Dataset.size.
      rewrite length_map.
      assert (Hrows : map (fun i => map (fun j => nth j (DataPoint.getFeatureVector (D := D)
                                                          (nth i d DataPoint.default)) d0)
                                        (seq 0 6)) (seq 0 (length d))
                      = map DataPoint.getFeatureVector d).
      { transitivity (map (DataPoint.getFeatureVector (D := D))
                          (map (fun i => nth i d DataPoint.default)
                               (seq 0 (length d)))).
        - rewrite map_map. apply map_ext. intros i. reflexivity.
        - rewrite map_nth_seq by (simpl; lia). cbn [skipn].
          now rewrite firstn_all. }
      rewrite Hrows. f_equal.
      destruct d as [|p d']; [congruence|reflexivity].
    + intros ->. reflexivity.
Qed.

End DatasetAccess.

(** On binary64. *)
Lemma getMatrices_correct_witness :
  Dataset.getMatrices (D := float) Samples.three
  = ([[1; 0; 0; 0; 0; 0]; [0; 1; 0; 0; 0; 0]; [0; 0; 1; 0; 0; 0]]%float,
     [2; 3; 4]%float)
  /\ LinearRegression.createDesignMatrix (D := float) Samples.three
     = Ok (Matrix.of_rows
             [[1; 0; 0; 0; 0; 0]; [0; 1; 0; 0; 0; 0]; [0; 0; 1; 0; 0; 0]]%float).
Proof.
  destruct (@getMatrices_correct float Float64 Samples.three)
    as (X & y & E & _ & _ & _ & _ & Hd & _).
  assert (EX : X = [[1; 0; 0; 0; 0; 0]; [0; 1; 0; 0; 0; 0]; [0; 0; 1; 0; 0; 0]]%float)
    by (vm_compute in E; injection E as <- _; reflexivity).
  split.
  - rewrite E. vm_compute in E. injection E as <- <-. reflexivity.
  - rewrite <- EX. apply Hd. discriminate.
Defined.

(** * Matrix.cpp: what [inverse] returns *)

Section InverseShape.
Context {D : Type} {DA : Double D}.

(** X21.  When [inverse] returns a matrix, the receiver is square and the
    result is a well-formed matrix of the same dimensions, so that both
    products of the receiver and its inverse are defined and have these
    dimensions again. *)
Theorem inverse_shape_product (m inv : Matrix.t D) :
  Matrix.inverse m = Ok inv ->
  Matrix.rows m = Matrix.cols m
  /\ Matrix.wf inv
  /\ Matrix.rows inv = Matrix.rows m /\ Matrix.cols inv = Matrix.rows m
  /\ exists p q,
       Matrix.mul m inv = Ok p /\ Matrix.mul inv m = Ok q
       /\ Matrix.rows p = Matrix.rows m /\ Matrix.cols p = Matrix.rows m
       /\ Matrix.rows q = Matrix.rows m /\ Matrix.cols q = Matrix.rows m.
Proof.
  intros E.
  assert (Hsq : Matrix.rows m = Matrix.cols m).
  { unfold Matrix.inverse, Matrix.isSquare in E.
    destruct (Nat.eqb_spec (Matrix.rows m) (Matrix.cols m)); [assumption|].
    discriminate. }
  split; [assumption|].
  destruct (inverse_cases m Hsq) as [E'|(a & _ & _ & E')]; rewrite E' in E;
    [discriminate|].
  injection E as <-.
  split; [apply wf_table|]. do 2 (split; [reflexivity|]).
  exists (Spec.product m (Spec.rightHalf (Matrix.rows m) a)),
    (Spec.product (Spec.rightHalf (Matrix.rows m) a) m).
  split; [apply mul_table; simpl; congruence|].
  split; [apply mul_table; reflexivity|].
  repeat split; simpl; congruence.
Qed.

End InverseShape.

(** On binary64: the matrix of the test program and its inverse. *)
Lemma inverse_shape_product_witness :
  exists inv p,
    Matrix.inverse (Matrix.of_rows [[4; 7]; [2; 6]]%float) = Ok inv
    /\ Matrix.mul (Matrix.of_rows [[4; 7]; [2; 6]]%float) inv = Ok p
    /\ Matrix.rows p = 2 /\ Matrix.cols p = 2.
Proof.
  assert (E : Matrix.inverse (Matrix.of_rows [[4; 7]; [2; 6]]%float)
              = Ok (Matrix.of_rows
                      [[0x1.3333333333334p-1; -0x1.6666666666667p-1];
                       [-0x1.999999999999ap-3; 0x1.999999999999ap-2]]%float))
    by (vm_compute; reflexivity).
  destruct (@inverse_shape_product float Float64 _ _ E)
    as (_ & _ & _ & _ & p & q & Ep & _ & Hr & Hc & _).
  eexists. exists p. split; [exact E|]. split; [exact Ep|].
  split; [exact Hr|exact Hc].
Defined.

(** * LinearRegression.cpp: the error metrics are never negative *)

Section MetricsSign.
Context {D : Type} {DA : Double D}.

Hypothesis zero_not_neg : dltb d0 d0 = false.
Hypothesis sqrt_not_neg : forall x, dltb (dsqrt x) d0 = false.
Hypothesis square_not_neg : forall x, dltb (dmul x x) d0 = false.
Hypothesis abs_not_neg : forall x, dltb (dabs x) d0 = false.
Hypothesis add_not_neg :
  forall x y, dltb x d0 = false -> dltb y d0 = false -> dltb (dadd x y) d0 = false.
Hypothesis div_count_not_neg :
  forall x n, dltb x d0 = false -> dltb (ddiv x (of_size (S n))) d0 = false.

(** X22.  On a trained model and a non-empty set, the values
    [calculateRMSE], [calculateMSE] and [calculateMAE] return are never
    below zero. *)
Theorem error_metrics_not_negative (this : LinearRegression.t D)
        (data : Dataset.t) :
  LinearRegression.isTrained this = true -> data <> [] ->
  exists rmse mse mae,
    LinearRegression.calculateRMSE this data = Ok rmse
    /\ LinearRegression.calculateMSE this data = Ok mse
    /\ LinearRegression.calculateMAE this data = Ok mae
    /\ dltb rmse d0 = false /\ dltb mse d0 = false /\ dltb mae d0 = false.
Proof.
  intros Ht Hne.
  exists (Spec.RMSE (Spec.actuals data) (Spec.predictions this data)),
    (Spec.MSE (Spec.actuals data) (Spec.predictions this data)),
    (Spec.MAE (Spec.actuals data) (Spec.predictions this data)).
  split; [now apply calculateRMSE_spec|].
  split; [now apply calculateMSE_spec|].
  split; [now apply calculateMAE_spec|].
  split; [apply sqrt_not_neg|].
  assert (Hlen : exists n, length (Spec.actuals (D := D) data) = S n).
  { unfold Spec.actuals. destruct data as [|p l]; [congruence|].
    simpl. eexists; reflexivity. }
  destruct Hlen as [n Hn]. unfold Spec.MSE, Spec.MAE. rewrite Hn.
  split; apply div_count_not_neg; unfold Spec.sum;
    apply (sum_not_neg add_not_neg); try exact zero_not_neg;
    intros r Hr; apply in_map_iff in Hr; destruct Hr as (ap & <- & _).
  - apply square_not_neg.
  - apply abs_not_neg.
Qed.

End MetricsSign.

Lemma Float64_abs_not_neg (x : float) : dltb (dabs x) d0 = false.
Proof.
  rewrite Float64_not_neg. simpl. rewrite abs_spec.
  now destruct (Prim2SF x) as [s|s| |s m e].
Qed.

(** On binary64: the model trained on [Samples.basis], scored on
    [Samples.three]. *)
Lemma error_metrics_not_negative_witness :
  exists rmse,
    LinearRegression.calculateRMSE
      (snd (LinearRegression.train (D := float) Samples.basis LinearRegression.new))
      Samples.three = Ok rmse
    /\ PrimFloat.ltb rmse 0 = false.
Proof.
  destruct (@error_metrics_not_negative float Float64 Float64_zero_not_neg
              Float64_sqrt_not_neg Float64_square_not_neg Float64_abs_not_neg
              Float64_add_not_neg Float64_div_count_not_neg
              (snd (LinearRegression.train Samples.basis LinearRegression.new))
              Samples.three)
    as (rmse & mse & mae & Er & _ & _ & Hr & _);
    [vm_compute; reflexivity|discriminate|].
  exists rmse. split; assumption.
Defined.

(** * Dataset: reading a file *)

Section Trim.

Variable chars : Dataset.str.
Lemma find_first_not_of_none (s : Dataset.str) :
  Dataset.find_first_not_of chars s = None -> forallb (fun c => Dataset.member c chars) s = true.
Proof.
  induction s as [|c s IH]; simpl; [reflexivity|].
  destruct (Dataset.member c chars); [|discriminate].
  destruct (Dataset.find_first_not_of chars s); [discriminate|]. auto.
Qed.

Lemma find_first_not_of_some (s : Dataset.str) (i : nat) (d : Ascii.ascii) :
  Dataset.find_first_not_of chars s = Some i ->
  i < length s /\ Dataset.member (nth i s d) chars = false /\
  forallb (fun c => Dataset.member c chars) (firstn i s) = true.
Proof.
  revert i. induction s as [|c s IH]; simpl; intros i H; [discriminate|].
  destruct (Dataset.member c chars) eqn:Ec.
  - destruct (Dataset.find_first_not_of chars s) as [j|]; [|discriminate].
    injection H as <-. destruct (IH j eq_refl) as (H1 & H2 & H3).
    simpl. rewrite Ec, H3. repeat split; auto. lia.
  - injection H as <-. simpl. repeat split; auto. lia.
Qed.

Lemma find_last_not_of_none (s : Dataset.str) :
  Dataset.find_last_not_of chars s = None -> forallb (fun c => Dataset.member c chars) s = true.
Proof.
  induction s as [|c s IH]; simpl; [reflexivity|].
  destruct (Dataset.find_last_not_of chars s); [discriminate|].
  destruct (Dataset.member c chars); [|discriminate]. auto.
Qed.

Lemma find_last_not_of_some (s : Dataset.str) (i : nat) (d : Ascii.ascii) :
  Dataset.find_last_not_of chars s = Some i ->
  i < length s /\ Dataset.member (nth i s d) chars = false /\
  forallb (fun c => Dataset.member c chars) (skipn (S i) s) = true.
Proof.
  revert i. induction s as [|c s IH]; simpl; intros i H; [discriminate|].
  destruct (Dataset.find_last_not_of chars s) as [j|] eqn:E.
  - injection H as <-. destruct (IH j eq_refl) as (H1 & H2 & H3).
    repeat split; auto. lia.
  - destruct (Dataset.member c chars) eqn:Ec; [discriminate|].
    injection H as <-. repeat split; auto; [lia|].
    now apply find_last_not_of_none.
Qed.

Lemma forallb_nth (s : Dataset.str) (i : nat) (d : Ascii.ascii) :
  forallb (fun c => Dataset.member c chars) s = true -> i < length s -> Dataset.member (nth i s d) chars = true.
Proof.
  intros H Hi. rewrite forallb_forall in H. apply H. now apply nth_In.
Qed.

End Trim.

Section TrimCorrect.

Lemma trim_cases (s : Dataset.str) :
  (forallb Spec.blank s = true /\ Dataset.trim s = Dataset.Value []) \/
  exists i j,
    i <= j < length s /\
    Spec.blank (nth i s " "%char) = false /\
    Spec.blank (nth j s " "%char) = false /\
    forallb Spec.blank (firstn i s) = true /\
    forallb Spec.blank (skipn (S j) s) = true /\
    Dataset.trim s = Dataset.Value (firstn (j - i + 1) (skipn i s)).
Proof.
  unfold Dataset.trim.
  destruct (Dataset.find_first_not_of Dataset.whitespace s) as [i|] eqn:E1.
  - right.
    destruct (find_first_not_of_some _ _ " "%char E1) as (Hi & Hci & Hl).
    destruct (Dataset.find_last_not_of Dataset.whitespace s) as [j|] eqn:E2.
    + destruct (find_last_not_of_some _ _ " "%char E2) as (Hj & Hcj & Hr).
      assert (Hij : i <= j).
      { destruct (le_lt_dec i j) as [|Hlt]; [assumption|].
        assert (H : Spec.blank (nth j (firstn i s) " "%char) = true).
        { apply forallb_nth; [assumption|]. rewrite length_firstn. lia. }
        rewrite nth_firstn in H.
        destruct (j <? i) eqn:Elt; [|apply Nat.ltb_ge in Elt; lia].
        unfold Spec.blank in H. congruence. }
      exists i, j. unfold Dataset.substr.
      destruct (length s <? i) eqn:El; [apply Nat.ltb_lt in El; lia|].
      repeat split; auto.
    + apply find_last_not_of_none in E2.
      pose proof (forallb_nth _ _ " "%char E2 Hi) as H. congruence.
  - left. split; [|reflexivity]. now apply find_first_not_of_none.
Qed.


Lemma last_nth (A : Type) (l : list A) (d : A) :
  last l d = nth (length l - 1) l d.
Proof.
  induction l as [|a l IH]; [reflexivity|].
  destruct l as [|b l]; [reflexivity|].
  change (last (a :: b :: l) d) with (last (b :: l) d). rewrite IH.
  simpl. now rewrite Nat.sub_0_r.
Qed.

Lemma trim_fixed (s : Dataset.str) :
  Spec.trimmed s = true -> Dataset.trim s = Dataset.Value s.
Proof.
  intros H. destruct (trim_cases s) as [[Hb E]|(i & j & Hij & _ & _ & Hl & Hr & E)].
  - rewrite E. destruct s as [|c s]; [reflexivity|].
    simpl in H, Hb. destruct (Spec.blank c); discriminate.
  - rewrite E. destruct s as [|c s]; [simpl in Hij; lia|].
    unfold Spec.trimmed in H. apply andb_prop in H. destruct H as [H1 H2].
    assert (i = 0) as ->.
    { destruct i; [reflexivity|]. simpl in Hl.
      destruct (Spec.blank c); discriminate. }
    assert (S j = length (c :: s)) as Hj.
    { destruct (Nat.eq_dec (S j) (length (c :: s))) as [|Hne]; [assumption|].
      assert (Hb : Spec.blank (nth (length (c :: s) - 1 - S j)
                                 (skipn (S j) (c :: s)) c) = true).
      { apply forallb_nth; [assumption|]. rewrite length_skipn. lia. }
      rewrite nth_skipn in Hb.
      replace (S j + (length (c :: s) - 1 - S j)) with (length (c :: s) - 1)
        in Hb by lia.
      rewrite <- last_nth in Hb. rewrite Hb in H2. discriminate. }
    rewrite skipn_0. replace (j - 0 + 1) with (length (c :: s)) by lia.
    now rewrite firstn_all.
Qed.

Lemma trim_trimmed (s : Dataset.str) :
  exists l t r,
    Dataset.trim s = Dataset.Value t /\ s = l ++ t ++ r /\
    forallb Spec.blank l = true /\ forallb Spec.blank r = true /\
    Spec.trimmed t = true.
Proof.
  destruct (trim_cases s) as [[Hb E]|(i & j & Hij & Hi & Hj & Hl & Hr & E)].
  - exists s, [], []. rewrite app_nil_r. repeat split; assumption.
  - exists (firstn i s), (firstn (j - i + 1) (skipn i s)), (skipn (S j) s).
    split; [assumption|]. split.
    { rewrite <- (firstn_skipn i s) at 1. f_equal.
      rewrite <- (firstn_skipn (j - i + 1) (skipn i s)) at 1. f_equal.
      rewrite skipn_skipn. f_equal. lia. }
    split; [assumption|]. split; [assumption|].
    remember (firstn (j - i + 1) (skipn i s)) as t eqn:Et.
    assert (Hlen : length t = j - i + 1).
    { subst t. rewrite length_firstn, length_skipn. lia. }
    destruct t as [|c t]; [simpl in Hlen; lia|].
    unfold Spec.trimmed. rewrite last_nth, Hlen.
    assert (Hc : c = nth 0 (c :: t) " "%char) by reflexivity.
    rewrite Hc at 1.
    rewrite (nth_indep (c :: t) c " "%char) by (rewrite Hlen; lia).
    rewrite Et, !nth_firstn, !nth_skipn.
    destruct (0 <? j - i + 1) eqn:E0; [|apply Nat.ltb_ge in E0; lia].
    destruct (j - i + 1 - 1 <? j - i + 1) eqn:E1; [|apply Nat.ltb_ge in E1; lia].
    rewrite Nat.add_0_r. replace (i + (j - i + 1 - 1)) with j by lia.
    now rewrite Hi, Hj.
Qed.

End TrimCorrect.


Section Getlines.

Variable delim : Ascii.ascii.

Lemma upTo_delim (token rest : Dataset.str) :
  ~ In delim token ->
  Dataset.upTo delim (token ++ delim :: rest) = (token, rest).
Proof.
  induction token as [|c token IH]; simpl; intros H.
  - now rewrite Ascii.eqb_refl.
  - destruct (Ascii.eqb_spec c delim) as [->|_]; [tauto|].
    rewrite IH by tauto. reflexivity.
Qed.

Lemma upTo_end (token : Dataset.str) :
  ~ In delim token -> Dataset.upTo delim token = (token, []).
Proof.
  induction token as [|c token IH]; simpl; intros H; [reflexivity|].
  destruct (Ascii.eqb_spec c delim) as [->|_]; [tauto|].
  rewrite IH by tauto. reflexivity.
Qed.

Lemma split_at_delim (input : Dataset.str) :
  exists token,
    ~ In delim token /\
    (input = token \/ exists rest, input = token ++ delim :: rest).
Proof.
  induction input as [|c input (token & Hn & IH)].
  - exists []. simpl. tauto.
  - destruct (Ascii.eqb_spec c delim) as [->|Hc].
    + exists []. split; [simpl; tauto|]. right. now exists input.
    + exists (c :: token). split; [simpl; intuition congruence|].
      destruct IH as [->|(rest & ->)]; [now left|right; now exists rest].
Qed.

Lemma upTo_length (input : Dataset.str) :
  length (snd (Dataset.upTo delim input)) <= length input - 1.
Proof.
  induction input as [|c input IH]; simpl; [lia|].
  destruct (Ascii.eqb c delim); simpl; [lia|].
  destruct (Dataset.upTo delim input) as [token unread]. simpl in *. lia.
Qed.

Lemma readAll_rounds (n m : nat) (input : Dataset.str) :
  length input <= n -> length input <= m ->
  Dataset.readAll n delim input = Dataset.readAll m delim input.
Proof.
  revert m input. induction n as [|n IH]; intros m input Hn Hm.
  - destruct input; [|simpl in Hn; lia]. now destruct m.
  - destruct input as [|c input]; [now destruct m|].
    destruct m as [|m]; [simpl in Hm; lia|].
    cbn [Dataset.readAll Dataset.getline].
    pose proof (upTo_length (c :: input)) as Hl.
    destruct (Dataset.upTo delim (c :: input)) as [token unread].
    simpl in Hl, Hn, Hm. f_equal. apply IH; lia.
Qed.

Lemma getlines_nil : Dataset.getlines delim [] = [].
Proof. reflexivity. Qed.

Lemma getlines_delim (token rest : Dataset.str) :
  ~ In delim token ->
  Dataset.getlines delim (token ++ delim :: rest)
  = token :: Dataset.getlines delim rest.
Proof.
  intros H. unfold Dataset.getlines.
  pose proof (@upTo_delim token rest H) as E.
  destruct (token ++ delim :: rest) as [|c input] eqn:Ei.
  - now destruct token.
  - cbn [length Dataset.readAll Dataset.getline]. rewrite E. f_equal.
    apply readAll_rounds; [|lia].
    apply (f_equal (@length _)) in Ei. rewrite length_app in Ei.
    simpl in Ei. lia.
Qed.

Lemma getlines_end (token : Dataset.str) :
  ~ In delim token -> token <> [] ->
  Dataset.getlines delim token = [token].
Proof.
  intros H Hne. unfold Dataset.getlines.
  pose proof (@upTo_end token H) as E.
  destruct token as [|c input]; [congruence|].
  cbn [length Dataset.readAll Dataset.getline]. rewrite E. f_equal.
  now destruct (length input).
Qed.

Lemma str_induction (P : Dataset.str -> Prop) :
  P [] ->
  (forall token, ~ In delim token -> token <> [] -> P token) ->
  (forall token rest, ~ In delim token -> P rest ->
                      P (token ++ delim :: rest)) ->
  forall input, P input.
Proof.
  intros Hnil Hend Hdelim input.
  remember (length input) as n eqn:En.
  revert input En. induction n as [n IH] using lt_wf_ind. intros input En.
  destruct (split_at_delim input) as (token & Hn & [->|(rest & ->)]).
  - destruct token; [assumption|]. now apply Hend.
  - apply Hdelim; [assumption|]. apply (IH (length rest)); [|reflexivity].
    rewrite En, length_app. simpl. lia.
Qed.

Lemma endsWith_app (s r : Dataset.str) :
  r <> [] -> Spec.endsWith delim (s ++ r) = Spec.endsWith delim r.
Proof.
  intros Hr. induction s as [|c s IH]; [reflexivity|].
  simpl. destruct (s ++ r) eqn:E; [|assumption].
  apply app_eq_nil in E. tauto.
Qed.

Lemma endsWith_not_in (s : Dataset.str) :
  ~ In delim s -> Spec.endsWith delim s = false.
Proof.
  induction s as [|c s IH]; [reflexivity|]. intros H. simpl.
  destruct s; [|apply IH; simpl in *; tauto].
  apply Ascii.eqb_neq. simpl in H. intuition congruence.
Qed.

Lemma getlines_empty (input : Dataset.str) :
  Dataset.getlines delim input = [] -> input = [].
Proof.
  destruct (split_at_delim input) as (token & Hn & [->|(rest & ->)]).
  - destruct token; [reflexivity|]. rewrite getlines_end; congruence.
  - rewrite getlines_delim by assumption. discriminate.
Qed.

Lemma getlines_join (input : Dataset.str) :
  Forall (fun token => ~ In delim token) (Dataset.getlines delim input) /\
  Spec.join delim (Dataset.getlines delim input)
    ++ (if Spec.endsWith delim input then [delim] else [])
  = input.
Proof.
  induction input as [|token Hn Hne|token rest Hn [IH1 IH2]]
    using str_induction.
  - split; [constructor|reflexivity].
  - rewrite getlines_end, endsWith_not_in by assumption.
    split; [now repeat constructor|]. simpl. now rewrite app_nil_r.
  - rewrite getlines_delim by assumption.
    split; [now constructor|].
    destruct (Dataset.getlines delim rest) as [|l ls] eqn:E.
    + apply getlines_empty in E. subst rest.
      rewrite endsWith_app by discriminate. simpl.
      now rewrite Ascii.eqb_refl.
    + change (Spec.join delim (token :: l :: ls))
        with (token ++ delim :: Spec.join delim (l :: ls)).
      rewrite endsWith_app by discriminate.
      assert (Hr : rest <> []) by (intros ->; discriminate).
      replace (Spec.endsWith delim (delim :: rest))
        with (Spec.endsWith delim rest)
        by (destruct rest; [congruence|reflexivity]).
      rewrite <- app_assoc, <- app_comm_cons. now rewrite IH2.
Qed.

Lemma getlines_of_join (fields : list Dataset.str) :
  Forall (fun field => ~ In delim field) fields ->
  (fields = [] \/ last fields [] <> []) ->
  Dataset.getlines delim (Spec.join delim fields) = fields.
Proof.
  induction fields as [|f fs IH]; intros Hn Hl; [reflexivity|].
  inversion Hn as [|? ? Hf Hfs]; subst.
  destruct fs as [|g fs].
  - simpl. apply getlines_end; [assumption|].
    destruct Hl as [|Hl]; [discriminate|]. exact Hl.
  - change (Spec.join delim (f :: g :: fs))
      with (f ++ delim :: Spec.join delim (g :: fs)).
    rewrite getlines_delim by assumption. f_equal.
    apply IH; [assumption|]. right.
    destruct Hl as [|Hl]; [discriminate|]. exact Hl.
Qed.

End Getlines.

(** X24. [parseLine] cuts the line at its commas: no token holds a comma,
    and the tokens with commas between them are the line, up to one comma
    at its very end, which gives no token of its own.  The loop is over
    within as many rounds as the line has characters: more rounds give the
    same tokens. *)
Theorem parseLine_tokens (line : Dataset.str) :
  Forall (fun token => ~ In ","%char token) (Dataset.parseLine line) /\
  Spec.join ","%char (Dataset.parseLine line)
    ++ (if Spec.endsWith ","%char line then [","%char] else [])
  = line /\
  forall rounds,
    length line <= rounds ->
    Dataset.readAll rounds ","%char line = Dataset.parseLine line.
Proof.
  destruct (getlines_join ","%char line) as [H1 H2].
  split; [exact H1|]. split; [exact H2|].
  intros rounds H. now apply readAll_rounds.
Qed.

(** X25. Fields without commas, the last of them not empty, are found
    again by [parseLine] in the line that separates them with commas. *)
Theorem parseLine_of_fields (fields : list Dataset.str) :
  Forall (fun field => ~ In ","%char field) fields ->
  (fields = [] \/ last fields [] <> []) ->
  Dataset.parseLine (Spec.join ","%char fields) = fields.
Proof. apply getlines_of_join. Qed.

Lemma parseLine_of_fields_witness :
  Dataset.parseLine (Samples.text "adviser,32/60,,125")
  = [Samples.text "adviser"; Samples.text "32/60"; []; Samples.text "125"].
Proof.
  apply (@parseLine_of_fields
           [Samples.text "adviser"; Samples.text "32/60"; [];
            Samples.text "125"]).
  - repeat constructor; vm_compute; intuition discriminate.
  - right. discriminate.
Defined.

Section Stoi.

Local Open Scope Z_scope.

Lemma of_uint_acc_value (u : Decimal.uint) (acc : positive) :
  Z.pos (Pos.of_uint_acc u acc)
  = Z.pos acc * 10 ^ Z.of_nat (Decimal.nb_digits u) + Z.of_uint u.
Proof.
  assert (Hpow : forall n, 10 ^ Z.of_nat (S n) = 10 * 10 ^ Z.of_nat n).
  { intros n. rewrite Nat2Z.inj_succ. apply Z.pow_succ_r. lia. }
  assert (IH0 : forall u, (forall acc, Z.pos (Pos.of_uint_acc u acc)
                 = Z.pos acc * 10 ^ Z.of_nat (Decimal.nb_digits u) + Z.of_uint u) ->
            forall k, Z.of_uint u + Z.pos k * 10 ^ Z.of_nat (Decimal.nb_digits u)
                      = Z.of_N (N.pos (Pos.of_uint_acc u k))).
  { intros v H k. cbn [Z.of_N]. rewrite H. lia. }
  revert acc. induction u as [|u IH|u IH|u IH|u IH|u IH|u IH|u IH|u IH|u IH|u IH];
    intros acc;
    [simpl; lia
    |cbn [Pos.of_uint_acc Decimal.nb_digits]; rewrite IH, Hpow;
     unfold Z.of_uint; cbn [Pos.of_uint]; fold (Z.of_uint u); lia
    |cbn [Pos.of_uint_acc Decimal.nb_digits]; rewrite IH, Hpow;
     unfold Z.of_uint at 2; cbn [Pos.of_uint]; rewrite <- (IH0 u IH); lia ..].
Qed.

Lemma of_uint_digit (u : Decimal.uint) (k : positive) :
  Z.of_N (N.pos (Pos.of_uint_acc u k))
  = Z.pos k * 10 ^ Z.of_nat (Decimal.nb_digits u) + Z.of_uint u.
Proof. apply of_uint_acc_value. Qed.

Lemma digits_cons (c : Ascii.ascii) (s : Dataset.str) (value d : Z)
    (any : bool) :
  Dataset.digit c = Some d ->
  Dataset.digits (c :: s) value any = Dataset.digits s (10 * value + d) true.
Proof. intros H. simpl. now rewrite H. Qed.

Lemma digits_numeral (u : Decimal.uint) (rest : Dataset.str) (value : Z)
    (any : bool) :
  Dataset.digits (Spec.numeral u ++ rest) value any
  = Dataset.digits rest
      (value * 10 ^ Z.of_nat (Decimal.nb_digits u) + Z.of_uint u)
      (any || match u with Decimal.Nil => false | _ => true end).
Proof.
  assert (Hpow : forall n, 10 ^ Z.of_nat (S n) = 10 * 10 ^ Z.of_nat n).
  { intros n. rewrite Nat2Z.inj_succ. apply Z.pow_succ_r. lia. }
  revert value any.
  induction u as [|u IH|u IH|u IH|u IH|u IH|u IH|u IH|u IH|u IH|u IH];
    intros value any;
    [simpl; rewrite orb_false_r; f_equal;
     change (Z.of_uint Decimal.Nil) with 0; lia
    |unfold Spec.numeral;
     cbn [DecimalString.NilEmpty.string_of_uint String.list_ascii_of_string app];
     fold (Spec.numeral u);
     erewrite digits_cons by reflexivity;
     rewrite IH; cbn [Decimal.nb_digits orb]; rewrite Hpow, orb_true_r;
     match goal with
     | |- context [Z.of_uint (?D u)] =>
         change (Z.of_uint (D u)) with (Z.of_N (Pos.of_uint (D u)));
         cbn [Pos.of_uint]
     end;
     try rewrite of_uint_digit; fold (Z.of_uint u); f_equal;
     match goal with
     | |- context [Z.of_nat (Ascii.nat_of_ascii ?c)] =>
         let v := eval vm_compute in (Z.of_nat (Ascii.nat_of_ascii c)) in
         change (Z.of_nat (Ascii.nat_of_ascii c)) with v
     end; lia ..].
Qed.

Lemma digits_of_numeral (u : Decimal.uint) (rest : Dataset.str) :
  u <> Decimal.Nil ->
  match rest with [] => True | c :: _ => Dataset.digit c = None end ->
  Dataset.digits (Spec.numeral u ++ rest) 0 false = Some (Z.of_uint u).
Proof.
  intros Hn Hrest. rewrite digits_numeral.
  destruct u; [congruence| ..];
    (destruct rest as [|c rest]; simpl; [|rewrite Hrest]; f_equal).
Qed.

Lemma digit_not_special (c : Ascii.ascii) (d : Z) :
  Dataset.digit c = Some d ->
  Dataset.isspace c = false /\ Spec.blank c = false /\
  Ascii.eqb c "-" = false /\ Ascii.eqb c "+" = false /\
  Ascii.eqb c "," = false /\ Ascii.eqb c "010" = false.
Proof.
  destruct c as [[] [] [] [] [] [] [] []]; vm_compute; intros H;
    solve [discriminate H | repeat split].
Qed.

Lemma numeral_digits (u : Decimal.uint) :
  Forall (fun c => exists d, Dataset.digit c = Some d) (Spec.numeral u).
Proof.
  induction u; [constructor| ..];
    (constructor; [eexists; reflexivity|assumption]).
Qed.

Lemma numeral_not_empty (u : Decimal.uint) :
  u <> Decimal.Nil -> Spec.numeral u <> [].
Proof. destruct u; [congruence| ..]; discriminate. Qed.

Lemma decimal_cases (z : Z) :
  exists u,
    u <> Decimal.Nil /\
    ((0 <= z /\ Spec.decimal z = Spec.numeral u /\ Z.of_uint u = z) \/
     (z < 0 /\ Spec.decimal z = "-"%char :: Spec.numeral u /\
      Z.of_uint u = - z)).
Proof.
  destruct z as [|p|p].
  - exists (Decimal.D0 Decimal.Nil). split; [discriminate|]. left.
    split; [lia|]. split; reflexivity.
  - exists (Pos.to_uint p).
    split; [apply DecimalPos.Unsigned.to_uint_nonnil|]. left.
    split; [lia|]. split; [reflexivity|]. unfold Z.of_uint.
    now rewrite DecimalPos.Unsigned.of_to.
  - exists (Pos.to_uint p).
    split; [apply DecimalPos.Unsigned.to_uint_nonnil|]. right.
    split; [lia|]. split; [reflexivity|]. unfold Z.of_uint.
    now rewrite DecimalPos.Unsigned.of_to.
Qed.

Lemma skipSpaces_app (spaces s : Dataset.str) :
  forallb Dataset.isspace spaces = true ->
  Dataset.skipSpaces (spaces ++ s) = Dataset.skipSpaces s.
Proof.
  induction spaces as [|c spaces IH]; [reflexivity|]. simpl. intros H.
  apply andb_prop in H. destruct H as [-> H]. auto.
Qed.

Lemma stoi_of_decimal (spaces rest : Dataset.str) (z : Z) :
  forallb Dataset.isspace spaces = true ->
  match rest with [] => True | c :: _ => Dataset.digit c = None end ->
  Dataset.stoi (spaces ++ Spec.decimal z ++ rest)
  = if Spec.isInt z then Dataset.Value z
    else Dataset.Throws Dataset.StoiOutOfRange.
Proof.
  intros Hs Hrest. unfold Dataset.stoi. rewrite skipSpaces_app by assumption.
  assert (Hrange : forall v, v = z ->
            (if (v <? Dataset.INT_MIN) || (Dataset.INT_MAX <? v)
             then Dataset.Throws Dataset.StoiOutOfRange else Dataset.Value v)
            = if Spec.isInt z then Dataset.Value z
              else Dataset.Throws Dataset.StoiOutOfRange).
  { intros v ->. unfold Spec.isInt.
    destruct (Z.ltb_spec z Dataset.INT_MIN), (Z.ltb_spec Dataset.INT_MAX z),
      (Z.leb_spec Dataset.INT_MIN z), (Z.leb_spec z Dataset.INT_MAX);
      simpl; try reflexivity; lia. }
  destruct (decimal_cases z) as (u & Hu & [(Hz & -> & Ev)|(Hz & -> & Ev)]).
  - pose proof (numeral_digits u) as Hd.
    pose proof (numeral_not_empty Hu) as Hne.
    destruct (Spec.numeral u) as [|c s] eqn:En; [congruence|].
    inversion Hd as [|? ? [d Hc] _]; subst.
    destruct (digit_not_special _ Hc) as (H1 & _ & H2 & H3 & _).
    simpl. rewrite H1, H2, H3.
    change (c :: s ++ rest) with ((c :: s) ++ rest). rewrite <- En.
    rewrite digits_of_numeral by assumption. now apply Hrange.
  - simpl.
    rewrite digits_of_numeral by assumption. apply Hrange. lia.
Qed.

End Stoi.

(** X26. [stoi] reads back the decimal numeral of an integer, whatever white
    space precedes it and whatever follows it that is not a digit, when the
    integer is an [int]; otherwise it throws [std::out_of_range]. *)
Theorem stoi_decimal (spaces rest : Dataset.str) (z : Z) :
  forallb Dataset.isspace spaces = true ->
  match rest with [] => True | c :: _ => Dataset.digit c = None end ->
  Dataset.stoi (spaces ++ Spec.decimal z ++ rest)
  = if Spec.isInt z then Dataset.Value z
    else Dataset.Throws Dataset.StoiOutOfRange.
Proof. apply stoi_of_decimal. Qed.

Lemma stoi_decimal_witness :
  Dataset.stoi (Samples.text "  -42abc") = Dataset.Value (-42)%Z
  /\ Dataset.stoi (Samples.text "2147483648")
     = Dataset.Throws Dataset.StoiOutOfRange.
Proof.
  split.
  - exact (@stoi_decimal (Samples.text "  ") (Samples.text "abc") (-42)
             eq_refl eq_refl).
  - exact (@stoi_decimal [] [] 2147483648 eq_refl I).
Defined.

Section Loading.

Lemma readLine_appends (line : Dataset.str) :
  exists points,
    length points <= 1 /\
    forall data, Dataset.readLine line data = Dataset.Value (data ++ points).
Proof.
  destruct (trim_trimmed line) as (l & t & r & E & _).
  unfold Dataset.readLine. rewrite E. cbn [Dataset.andThen].
  destruct t as [|c t].
  - exists []. split; [simpl; lia|]. intros data. now rewrite app_nil_r.
  - destruct (negb (length (Dataset.parseLine (c :: t)) =? 10)).
    + exists []. split; [simpl; lia|]. intros data. now rewrite app_nil_r.
    + destruct (Dataset.parsePoint (Dataset.parseLine (c :: t))) as [point|e].
      * exists [point]. split; [simpl; lia|]. reflexivity.
      * exists []. split; [simpl; lia|]. intros data. now rewrite app_nil_r.
Qed.

Lemma readLines_appends (lines : list Dataset.str) :
  exists points,
    length points <= length lines /\
    forall data,
      Dataset.readLines lines data = (Dataset.Value tt, data ++ points).
Proof.
  induction lines as [|line lines (points & Hlen & IH)].
  - exists []. split; [simpl; lia|]. intros data. now rewrite app_nil_r.
  - destruct (readLine_appends line) as (pts & Hl & E).
    exists (pts ++ points). split; [rewrite length_app; simpl; lia|].
    intros data. simpl. now rewrite E, IH, app_assoc.
Qed.

Lemma readLines_app (l1 l2 : list Dataset.str) :
  snd (Dataset.readLines (l1 ++ l2) [])
  = snd (Dataset.readLines l1 []) ++ snd (Dataset.readLines l2 []).
Proof.
  assert (H : forall data,
            Dataset.readLines (l1 ++ l2) data
            = Dataset.readLines l2 (snd (Dataset.readLines l1 data))).
  { induction l1 as [|line l1 IH]; intros data; [reflexivity|].
    simpl. destruct (readLine_appends line) as (pts & _ & E).
    rewrite E. apply IH. }
  rewrite H. destruct (readLines_appends l2) as (p2 & _ & E2).
  now rewrite !E2.
Qed.

Lemma loaded_lines (content : Dataset.str) :
  Spec.loaded content
  = snd (Dataset.readLines (Dataset.getlines "010"%char content) []).
Proof.
  unfold Spec.loaded, Dataset.loadFromFile.
  now destruct (Dataset.readLines _ []) as [[[]|e] data].
Qed.

Lemma getlines_append (delim : Ascii.ascii) (c1 c2 : Dataset.str) :
  exists pad,
    (pad = [] \/ pad = [[]]) /\
    Dataset.getlines delim (c1 ++ delim :: c2)
    = Dataset.getlines delim c1 ++ pad ++ Dataset.getlines delim c2.
Proof.
  induction c1 as [|token Hn Hne|token rest Hn (pad & Hpad & IH)]
    using (str_induction delim).
  - exists [[]]. split; [now right|].
    now rewrite (@getlines_delim delim [] c2) by (simpl; tauto).
  - exists []. split; [now left|].
    now rewrite getlines_delim, (@getlines_end delim token) by assumption.
  - exists pad. split; [assumption|].
    rewrite <- app_assoc, <- app_comm_cons.
    rewrite (@getlines_delim delim token (rest ++ delim :: c2)) by assumption.
    rewrite (@getlines_delim delim token rest) by assumption.
    now rewrite IH.
Qed.

Lemma load_outcome (files : Dataset.str -> option Dataset.str)
    (filename content : Dataset.str) (data : Dataset.t) :
  files filename = Some content ->
  Dataset.loadFromFile files filename data
  = (Dataset.Value (negb (Dataset.empty (Spec.loaded content))),
     Spec.loaded content).
Proof.
  intros E. rewrite loaded_lines. unfold Dataset.loadFromFile. rewrite E.
  destruct (readLines_appends (Dataset.getlines "010"%char content))
    as (points & _ & ->).
  reflexivity.
Qed.

End Loading.

(** X27. [loadFromFile] never throws.  When the file cannot be opened it
    returns false and leaves the examples as they were.  Otherwise the old
    examples are dropped, what is loaded depends on the content of the file
    only, with at most one example for each line, and the result tells
    whether any example was loaded. *)
Theorem loadFromFile_outcome (files : Dataset.str -> option Dataset.str)
    (filename : Dataset.str) (data : Dataset.t) :
  match files filename with
  | None => Dataset.loadFromFile files filename data = (Dataset.Value false, data)
  | Some content =>
      Dataset.loadFromFile files filename data
      = (Dataset.Value (negb (Dataset.empty (Spec.loaded content))),
         Spec.loaded content) /\
      length (Spec.loaded content)
      <= length (Dataset.getlines "010"%char content)
  end.
Proof.
  destruct (files filename) as [content|] eqn:E.
  - split; [now apply load_outcome|]. rewrite loaded_lines.
    destruct (readLines_appends (Dataset.getlines "010"%char content))
      as (points & Hlen & ->).
    exact Hlen.
  - unfold Dataset.loadFromFile. now rewrite E.
Qed.

(** X28. The file is read line by line and empty lines count for nothing:
    two contents with a line break between them load the examples of the
    first followed by the examples of the second. *)
Theorem loaded_append (c1 c2 : Dataset.str) :
  Spec.loaded (c1 ++ "010"%char :: c2) = Spec.loaded c1 ++ Spec.loaded c2.
Proof.
  rewrite !loaded_lines.
  destruct (getlines_append "010"%char c1 c2) as (pad & Hpad & ->).
  rewrite !readLines_app. f_equal.
  now destruct Hpad as [-> | ->].
Qed.

Section RoundTrip.

Lemma member_false (c : Ascii.ascii) (s : Dataset.str) :
  Dataset.member c s = false -> ~ In c s.
Proof.
  unfold Dataset.member. intros H Hin.
  assert (E : existsb (Ascii.eqb c) s = true).
  { apply existsb_exists. exists c. split; [assumption|apply Ascii.eqb_refl]. }
  congruence.
Qed.

Lemma numeral_char (u : Decimal.uint) (c : Ascii.ascii) :
  In c (Spec.numeral u) ->
  Spec.blank c = false /\ c <> ","%char /\ c <> "010"%char.
Proof.
  intros Hin. pose proof (numeral_digits u) as H.
  rewrite Forall_forall in H. destruct (H c Hin) as [d Hd].
  destruct (digit_not_special _ Hd) as (_ & Hb & _ & _ & H1 & H2).
  split; [assumption|]. split; apply Ascii.eqb_neq; assumption.
Qed.

Lemma decimal_char (z : Z) (c : Ascii.ascii) :
  In c (Spec.decimal z) ->
  Spec.blank c = false /\ c <> ","%char /\ c <> "010"%char.
Proof.
  destruct (decimal_cases z) as (u & _ & [(_ & -> & _)|(_ & -> & _)]).
  - apply numeral_char.
  - intros [<-|Hin]; [|now apply (numeral_char u)].
    split; [reflexivity|]. split; discriminate.
Qed.

Lemma decimal_not_empty (z : Z) : Spec.decimal z <> [].
Proof.
  destruct (decimal_cases z) as (u & Hu & [(_ & -> & _)|(_ & -> & _)]).
  - now apply numeral_not_empty.
  - discriminate.
Qed.

Lemma not_in_join (x sep : Ascii.ascii) (fields : list Dataset.str) :
  x <> sep -> Forall (fun f => ~ In x f) fields ->
  ~ In x (Spec.join sep fields).
Proof.
  intros Hx H. induction H as [|f fs Hf Hfs IH]; [simpl; tauto|].
  destruct fs as [|g fs]; [exact Hf|].
  change (Spec.join sep (f :: g :: fs))
    with (f ++ sep :: Spec.join sep (g :: fs)).
  rewrite in_app_iff. simpl In. intuition congruence.
Qed.

Lemma last_app_r (A : Type) (l1 l2 : list A) (d : A) :
  l2 <> [] -> last (l1 ++ l2) d = last l2 d.
Proof.
  intros H. induction l1 as [|a l1 IH]; [reflexivity|].
  simpl. destruct (l1 ++ l2) eqn:E; [|assumption].
  apply app_eq_nil in E. tauto.
Qed.

Lemma join_not_empty (sep : Ascii.ascii) (fields : list Dataset.str) :
  last fields [] <> [] -> Spec.join sep fields <> [].
Proof.
  destruct fields as [|f [|g fs]]; [simpl; congruence|simpl; congruence|].
  intros _ E.
  change (Spec.join sep (f :: g :: fs))
    with (f ++ sep :: Spec.join sep (g :: fs)) in E.
  apply app_eq_nil in E. destruct E. discriminate.
Qed.

Lemma last_join (sep : Ascii.ascii) (fields : list Dataset.str)
    (d : Ascii.ascii) :
  last fields [] <> [] ->
  last (Spec.join sep fields) d = last (last fields []) d.
Proof.
  induction fields as [|f fs IH]; [simpl; congruence|]. intros H.
  destruct fs as [|g fs]; [reflexivity|].
  change (Spec.join sep (f :: g :: fs))
    with (f ++ sep :: Spec.join sep (g :: fs)).
  change (last (f :: g :: fs) []) with (last (g :: fs) []) in *.
  pose proof (join_not_empty sep _ H) as Hj.
  rewrite last_app_r by discriminate.
  rewrite <- (IH H).
  destruct (Spec.join sep (g :: fs)); [congruence|reflexivity].
Qed.

Lemma trimmed_ends (s : Dataset.str) (d : Ascii.ascii) :
  s <> [] -> Spec.blank (hd d s) = false -> Spec.blank (last s d) = false ->
  Spec.trimmed s = true.
Proof.
  destruct s as [|c s]; [congruence|]. intros _ H1 H2.
  unfold Spec.trimmed. simpl in H1. rewrite H1.
  rewrite last_nth in *.
  rewrite (nth_indep (c :: s) c d) by (simpl; lia). now rewrite H2.
Qed.

Variable p : DataPoint.t.
Hypothesis storable : Spec.storable p = true.

Lemma storable_fields :
  let vendor := String.list_ascii_of_string (DataPoint.vendor p) in
  let model := String.list_ascii_of_string (DataPoint.model p) in
  (Spec.trimmed vendor = true /\ ~ In ","%char vendor /\ ~ In "010"%char vendor) /\
  (Spec.trimmed model = true /\ ~ In ","%char model /\ ~ In "010"%char model) /\
  Spec.isInt (DataPoint.myct p) = true /\ Spec.isInt (DataPoint.mmin p) = true /\
  Spec.isInt (DataPoint.mmax p) = true /\ Spec.isInt (DataPoint.cach p) = true /\
  Spec.isInt (DataPoint.chmin p) = true /\ Spec.isInt (DataPoint.chmax p) = true /\
  Spec.isInt (DataPoint.prp p) = true /\ Spec.isInt (DataPoint.erp p) = true.
Proof.
  intros vendor model.
  pose proof storable as S. unfold Spec.storable, Spec.plain in S.
  fold vendor model in S.
  repeat match goal with
         | H : _ && _ = true |- _ => apply andb_prop in H; destruct H
         end.
  repeat match goal with
         | H : negb _ = true |- _ => apply negb_true_iff, member_false in H
         end.
  tauto.
Qed.

Lemma csvLine_no_delim (x : Ascii.ascii) :
  x = ","%char \/ x = "010"%char ->
  Forall (fun f => ~ In x f) (Spec.csvFields p).
Proof.
  intros Hx.
  destruct storable_fields as ((_ & Hv1 & Hv2) & (_ & Hm1 & Hm2) & _).
  assert (Hd : forall z, ~ In x (Spec.decimal z)).
  { intros z Hin. apply decimal_char in Hin. destruct Hx; subst; tauto. }
  unfold Spec.csvFields.
  repeat constructor; try apply Hd; destruct Hx; subst; assumption.
Qed.

Lemma csvLine_no_newline : ~ In "010"%char (Spec.csvLine p).
Proof.
  apply not_in_join; [discriminate|]. apply csvLine_no_delim. now right.
Qed.

Lemma csvLine_tokens : Dataset.parseLine (Spec.csvLine p) = Spec.csvFields p.
Proof.
  apply getlines_of_join; [apply csvLine_no_delim; now left|].
  right. apply decimal_not_empty.
Qed.

Lemma csvLine_trimmed : Spec.trimmed (Spec.csvLine p) = true.
Proof.
  destruct storable_fields as ((Hv & _) & _).
  apply (@trimmed_ends _ " "%char).
  - unfold Spec.csvLine, Spec.csvFields. cbn [Spec.join].
    now destruct (String.list_ascii_of_string (DataPoint.vendor p)).
  - unfold Spec.csvLine, Spec.csvFields. cbn [Spec.join].
    destruct (String.list_ascii_of_string (DataPoint.vendor p)) as [|c v];
      [reflexivity|].
    simpl in Hv. simpl. now destruct (Spec.blank c).
  - unfold Spec.csvLine. rewrite last_join by apply decimal_not_empty.
    change (last (Spec.csvFields p) []) with (Spec.decimal (DataPoint.erp p)).
    pose proof (decimal_not_empty (DataPoint.erp p)) as Hne.
    apply (decimal_char (DataPoint.erp p)).
    rewrite (app_removelast_last " "%char Hne) at 2.
    apply in_or_app. right. now left.
Qed.

Lemma stoi_exact (z : Z) :
  Spec.isInt z = true -> Dataset.stoi (Spec.decimal z) = Dataset.Value z.
Proof.
  intros H. pose proof (@stoi_of_decimal [] [] z eq_refl I) as E.
  rewrite app_nil_r, H in E. exact E.
Qed.

Lemma csvLine_point : Dataset.parsePoint (Spec.csvFields p) = Dataset.Value p.
Proof.
  destruct storable_fields
    as ((Hv & _) & (Hm & _) & H1 & H2 & H3 & H4 & H5 & H6 & H7 & H8).
  unfold Dataset.parsePoint, Spec.csvFields. cbn [nth].
  rewrite !trim_fixed by assumption. cbn [Dataset.andThen].
  rewrite !stoi_exact by assumption. cbn [Dataset.andThen].
  rewrite !String.string_of_list_ascii_of_string.
  now destruct p.
Qed.

Lemma csvLine_read (data : Dataset.t) :
  Dataset.readLine (Spec.csvLine p) data = Dataset.Value (data ++ [p]).
Proof.
  unfold Dataset.readLine. rewrite trim_fixed by apply csvLine_trimmed.
  cbn [Dataset.andThen].
  destruct (Spec.csvLine p) as [|c s] eqn:E.
  - pose proof csvLine_trimmed as H. unfold Spec.csvLine, Spec.csvFields in E.
    cbn [Spec.join] in E. apply app_eq_nil in E. destruct E. discriminate.
  - rewrite <- E, csvLine_tokens. cbn [Spec.csvFields length Nat.eqb negb].
    now rewrite csvLine_point.
Qed.

End RoundTrip.

Lemma csvFile_lines (d : Dataset.t) :
  forallb Spec.storable d = true ->
  Dataset.getlines "010"%char (Spec.csvFile d) = map Spec.csvLine d.
Proof.
  induction d as [|p d IH]; [reflexivity|]. simpl. intros H.
  apply andb_prop in H. destruct H as [Hp Hd].
  unfold Spec.csvFile. cbn [map concat]. rewrite <- app_assoc.
  cbn [app]. rewrite getlines_delim by now apply csvLine_no_newline.
  f_equal. now apply IH.
Qed.

Lemma csvFile_loaded (d : Dataset.t) :
  forallb Spec.storable d = true -> Spec.loaded (Spec.csvFile d) = d.
Proof.
  intros H. rewrite loaded_lines, csvFile_lines by assumption.
  assert (E : forall data,
            Dataset.readLines (map Spec.csvLine d) data
            = (Dataset.Value tt, data ++ d)).
  { induction d as [|p d IH]; intros data; [simpl; now rewrite app_nil_r|].
    simpl in H. apply andb_prop in H. destruct H as [Hp Hd].
    simpl. rewrite csvLine_read by assumption.
    rewrite IH by assumption. now rewrite <- app_assoc. }
  now rewrite E.
Qed.

(** X29. Writing and reading agree: from a file that holds one line for each
    example, with the fields separated by commas and the numbers in decimal,
    [loadFromFile] loads these examples, in their order.  The numbers are
    [int]s; vendor and model hold no comma and no line break, and no white
    space at either end. *)
Theorem loadFromFile_csvFile (files : Dataset.str -> option Dataset.str)
    (filename : Dataset.str) (d data : Dataset.t) :
  forallb Spec.storable d = true ->
  files filename = Some (Spec.csvFile d) ->
  Dataset.loadFromFile files filename data
  = (Dataset.Value (negb (Dataset.empty d)), d).
Proof.
  intros H E. rewrite (load_outcome _ _ data E).
  now rewrite csvFile_loaded.
Qed.

Lemma loadFromFile_csvFile_witness :
  Spec.csvFile Samples.machines
  = Samples.text "adviser,32/60,125,256,6000,256,16,128,198,199"
    ++ "010"%char
    :: Samples.text "amdahl,470v/7,29,8000,32000,32,8,32,269,253"
    ++ ["010"%char]
  /\ Dataset.loadFromFile (fun _ => Some (Spec.csvFile Samples.machines))
       (Samples.text "machine.data") Samples.basis
     = (Dataset.Value true, Samples.machines).
Proof.
  split; [reflexivity|].
  apply (@loadFromFile_csvFile (fun _ => Some (Spec.csvFile Samples.machines))
           (Samples.text "machine.data") Samples.machines Samples.basis);
    reflexivity.
Defined.

Section LoadedExamples.












End LoadedExamples.

